(** * Insight-Hub: the retrieval-augmented answer core, embedded in Rocq

    A shallow embedding of the Python backend
    ([backend/pdf_parser.py], [backend/vector_store.py],
    [backend/rag_system.py]) and of the endpoints of [main.py] that call
    it, together with the properties its specification states about it
    and further properties read off the code.

    Conventions of the embedding.
    - A Python [str] is a [text]: a list of 8-bit characters read as
      Latin-1 code points.  The character classes the code relies on
      ([str.lower], [str.isspace], the regular expression classes [\s] and
      [\d]) are the ones Python gives to those 256 code points.
    - A Python [int] is a [Z]; a [float] is a binary64 [float].  The
      conversion [int(s)] has CPython's limit of 4300 digits and raises
      beyond it.
    - A raised exception is the [Raise] case of [outcome].
    - A [dict] whose iteration order matters is an association list in
      insertion order; a [dict] or [set] used only for lookup is a
      [gmap] / [gset].
    - The embedding service, the vector index and the completion service
      are external: their replies are arguments of the model. *)

From Stdlib Require Import ZArith Ascii String List DecimalString DecimalPos Floats.
From stdpp Require Import gmap list sorting.

Local Open Scope Z_scope.

(** ** Python strings *)

Module PyStr.

Definition text := list ascii.

(** A literal. *)
Definition txt (s : string) : text := list_ascii_of_string s.

Definition code (c : ascii) : N := N_of_ascii c.

Definition nl : ascii := ascii_of_N 10.
Definition sp : ascii := ascii_of_N 32.
Definition dquote : ascii := ascii_of_N 34.

(** [len(s)] *)
Definition len (s : text) : Z := Z.of_nat (length s).

(** [str.isspace] on one Latin-1 character; the class [\s] of [re] is the
    same set. *)
Definition is_space (c : ascii) : bool :=
  let n := code c in
  ((9 <=? n) && (n <=? 13) || (28 <=? n) && (n <=? 32)
   || (n =? 133) || (n =? 160))%N.

(** The class [\d] of [re] (decimal digits; below 256 only 0-9). *)
Definition is_digit (c : ascii) : bool :=
  let n := code c in ((48 <=? n) && (n <=? 57))%N.

(** [str.lower] on one Latin-1 character: A-Z and the accented capitals
    192-222 (the multiplication sign 215 apart) move up by 32. *)
Definition lower_char (c : ascii) : ascii :=
  let n := code c in
  if ((65 <=? n) && (n <=? 90)
      || (192 <=? n) && (n <=? 222) && negb (n =? 215))%N
  then ascii_of_N (n + 32) else c.

(** [s.lower()] *)
Definition lower (s : text) : text := map lower_char s.

(** [s.startswith(p)] *)
Fixpoint starts_with (p s : text) : bool :=
  match p, s with
  | [], _ => true
  | a :: p', b :: s' => Ascii.eqb a b && starts_with p' s'
  | _ :: _, [] => false
  end.

(** [needle in hay] *)
Fixpoint contains (needle hay : text) : bool :=
  starts_with needle hay
  || match hay with
     | [] => false
     | _ :: hay' => contains needle hay'
     end.

(** [sep.join(parts)] *)
Fixpoint join (sep : text) (parts : list text) : text :=
  match parts with
  | [] => []
  | [p] => p
  | p :: rest => p ++ sep ++ join sep rest
  end.

(** [s.replace('\n', ' ')] *)
Definition replace_newlines (s : text) : text :=
  map (fun c => if Ascii.eqb c nl then sp else c) s.

(** [s.split('. ')]: the occurrences of the separator are found from the
    left and do not overlap. *)
Fixpoint split_dot_space (s : text) : list text :=
  match s with
  | [] => [[]]
  | c :: rest =>
      let keep :=
        match split_dot_space rest with
        | w :: ws => (c :: w) :: ws
        | [] => [[c]]
        end in
      if Ascii.eqb c "."%char then
        match rest with
        | d :: rest' =>
            if Ascii.eqb d sp then [] :: split_dot_space rest' else keep
        | [] => keep
        end
      else keep
  end.

(** [s.split()]: the maximal runs of characters that are not white space. *)
Fixpoint split_ws (s : text) : list text :=
  match s with
  | [] => []
  | c :: rest =>
      if is_space c then split_ws rest
      else match rest with
           | [] => [[c]]
           | d :: _ =>
               if is_space d then [c] :: split_ws rest
               else match split_ws rest with
                    | w :: ws => (c :: w) :: ws
                    | [] => [[c]]
                    end
           end
  end.

(** [s.strip()] *)
Fixpoint lstrip (s : text) : text :=
  match s with
  | c :: rest => if is_space c then lstrip rest else s
  | [] => []
  end.

Definition strip (s : text) : text := rev (lstrip (rev (lstrip s))).

(** [s[i:j]] for [0 <= i <= j], the only slices the code takes. *)
Definition slice (s : text) (i j : Z) : text :=
  take (Z.to_nat j - Z.to_nat i)%nat (drop (Z.to_nat i) s).

(** [str(n)] for an [int]. *)
Definition str_of_int (n : Z) : text :=
  txt (NilEmpty.string_of_int (Z.to_int n)).

Definition digit_value (c : ascii) : Z := Z.of_N (code c) - 48.

(** The number a string of decimal digits writes. *)
Definition digits_value (s : text) : Z :=
  fold_left (fun acc c => 10 * acc + digit_value c) s 0.

End PyStr.

Import PyStr.

(** ** Exceptions *)

Inductive exception : Type :=
| ValueError (msg : text)
| IndexError
| Exception (msg : text).

Inductive outcome (A : Type) : Type :=
| Return (a : A)
| Raise (e : exception).

Arguments Return {A} a.
Arguments Raise {A} e.

#[global] Instance outcome_ret : MRet outcome := fun _ a => Return a.

#[global] Instance outcome_bind : MBind outcome := fun _ _ k m =>
  match m with
  | Return a => k a
  | Raise e => Raise e
  end.

(** Runs [f] on every element, left to right; the first exception ends it. *)
Fixpoint for_each {A B : Type} (f : A -> outcome B) (l : list A) : outcome (list B) :=
  match l with
  | [] => Return []
  | a :: l' => b ← f a; bs ← for_each f l'; Return (b :: bs)
  end.

(** A [for] loop that updates a state; the first exception ends it. *)
Fixpoint for_loop {A S : Type} (body : S -> A -> outcome S) (l : list A) (s : S)
  : outcome S :=
  match l with
  | [] => Return s
  | a :: l' => s' ← body s a; for_loop body l' s'
  end.

(** [sys.int_info.default_max_str_digits]: the longest string of digits
    that CPython converts to an [int] (3.11 and later, and the security
    releases of 3.7 to 3.10), unless the limit has been set otherwise. *)
Definition int_max_str_digits : Z := 4300.

(** [int(s)] for a string of decimal digits: a string of more than 4300
    digits, leading zeros counted, is refused with a [ValueError]. *)
Definition int_of_digits (s : text) : outcome Z :=
  if int_max_str_digits <? len s
  then Raise (ValueError
                (txt "Exceeds the limit (4300 digits) for integer string conversion: value has "
                 ++ str_of_int (len s)
                 ++ txt " digits; use sys.set_int_max_str_digits() to increase the limit"))
  else Return (digits_value s).

(** [range(0, stop, step)] *)
Definition range0 (stop step : Z) : outcome (list Z) :=
  if step =? 0 then Raise (ValueError (txt "range() arg 3 must not be zero"))
  else if step <? 0 then Return []
  else Return (map (fun k => Z.of_nat k * step)
                   (seq 0 (Z.to_nat ((stop + step - 1) / step)))).

(** ** backend/pdf_parser.py *)

Module PDFParser.

(** One round of the sentence loop: the state is [(chunks, current_chunk)]. *)
Definition pack_sentence (chunk_size : Z) (st : list text * text) (sentence : text)
  : list text * text :=
  let '(chunks, current_chunk) := st in
  if (len current_chunk + len sentence >? chunk_size)
     && negb (Nat.eqb (length current_chunk) 0)
  then (chunks ++ [current_chunk], sentence ++ txt ". ")
  else (chunks, current_chunk ++ sentence ++ txt ". ").

(** The sentence-level packing, with the remaining text added at the end. *)
Definition pack_sentences (chunk_size : Z) (sentences : list text) : list text :=
  let '(chunks, current_chunk) :=
    fold_left (pack_sentence chunk_size) sentences ([], []) in
  if Nat.eqb (length current_chunk) 0 then chunks else chunks ++ [current_chunk].

(** The fallback on one chunk: kept when it fits, cut every [chunk_size]
    characters otherwise. *)
Definition split_by_character (chunk_size : Z) (chunk : text) : outcome (list text) :=
  if len chunk <=? chunk_size then Return [chunk]
  else
    starts ← range0 (len chunk) chunk_size;
    Return (map (fun i => slice chunk i (i + chunk_size)) starts).

(** [PDFParser._split_text_into_chunks] *)
Definition _split_text_into_chunks (text0 : text) (chunk_size : Z) : outcome (list text) :=
  if len text0 <=? chunk_size then Return [text0]
  else
    let sentences := split_dot_space (replace_newlines text0) in
    let chunks := pack_sentences chunk_size sentences in
    pieces ← for_each (split_by_character chunk_size) chunks;
    Return (concat pieces).

(** A chunk record as [parse_pdf] builds it. *)
Record Chunk : Type := mkChunk {
  chunk_text : text;
  chunk_page : Z;
  chunk_index : Z;
  chunk_total_pages : option Z
}.

(** The body of the page loop of [parse_pdf] for one page: [page_num] is the
    0-based page index, [page_text] what the reader extracted from it. *)
Definition parse_page (page_text : text) (page_num total_pages : Z) : outcome (list Chunk) :=
  page_chunks ← _split_text_into_chunks page_text 500;
  Return
    (omap (fun '(chunk_idx, chunk_text) =>
             if Nat.eqb (length (strip chunk_text)) 0 then None
             else Some (mkChunk (strip chunk_text) (page_num + 1)
                                (Z.of_nat chunk_idx) (Some total_pages)))
          (imap (fun i c => (i, c)) page_chunks)).

End PDFParser.

(** ** backend/vector_store.py *)

Module VectorStore.

Import PDFParser.

(** The metadata stored with a chunk. *)
Record StoredMetadata : Type := mkStoredMetadata {
  stored_pdf_filename : text;
  stored_page : Z;
  stored_chunk_index : Z;
  stored_total_pages : Z
}.

(** The arguments of one call of the collection's [add].  The collection
    is the external index: what it does with the call is not part of the
    repository. *)
Record CollectionAdd : Type := mkCollectionAdd {
  add_documents_arg : list text;
  add_metadatas_arg : list StoredMetadata;
  add_ids_arg : list text;
  add_embeddings_arg : list (list float)
}.

(** [VectorStore.add_documents].  [uuid4 i] is the identifier the [i]-th
    call of [uuid.uuid4()] gives; [embeddings = None] is the default
    argument.  The result is the call made on the collection, lines 51
    to 70 and the arguments of the call at lines 72 to 77. *)
Definition add_documents (uuid4 : nat -> text) (chunks : list Chunk)
    (pdf_filename : text) (embeddings : option (list (list float)))
  : outcome CollectionAdd :=
  let texts := map chunk_text chunks in
  let metadatas :=
    map (fun chunk =>
           mkStoredMetadata pdf_filename (chunk_page chunk) (chunk_index chunk)
                            (default 0 (chunk_total_pages chunk)))
        chunks in
  let ids := imap (fun i _ => uuid4 i) chunks in
  match embeddings with
  | None =>
      Raise (ValueError
               (txt "Embeddings are required. Please provide embeddings when adding documents."))
  | Some embeddings => Return (mkCollectionAdd texts metadatas ids embeddings)
  end.


(** The result count [query] asks the collection for. *)
Definition actual_n_results (n_results total_docs : Z) : Z :=
  if total_docs >? 0 then Z.min n_results total_docs else n_results.

End VectorStore.

(** ** backend/rag_system.py *)

Module RAGSystem.

(** A metadata value: the index stores the page as an [int] and the file
    name as a [str]. *)
Inductive mval : Type :=
| MInt (n : Z)
| MStr (s : text).

(** The two metadata keys the answer generation reads; a key may be
    missing. *)
Record Metadata : Type := mkMetadata {
  md_page : option mval;
  md_pdf_filename : option mval
}.

Record RetrievedChunk : Type := mkRetrievedChunk {
  rc_text : text;
  rc_metadata : Metadata;
  rc_distance : option float
}.

(** The reply of the vector store to a query: one inner list per query
    embedding.  [qr_distances = None] stands for a reply without
    distances. *)
Record QueryResult : Type := mkQueryResult {
  qr_documents : list (list text);
  qr_metadatas : list (list Metadata);
  qr_distances : option (list (list float))
}.

(** [l[i]] *)
Definition index {A : Type} (l : list A) (i : nat) : outcome A :=
  match l !! i with
  | Some a => Return a
  | None => Raise IndexError
  end.

(** [distance is None or distance < 0.8] *)
Definition passes_threshold (distance : option float) : bool :=
  match distance with
  | None => true
  | Some d => PrimFloat.ltb d 0.8%float
  end.

(** [results['distances'][0][i] if 'distances' in results and
    results['distances'] else None] *)
Definition distance_at (results : QueryResult) (i : nat) : outcome (option float) :=
  match qr_distances results with
  | Some (d0 :: _) => d ← index d0 i; Return (Some d)
  | Some [] | None => Return None
  end.

(** One round of the loop over [range(len(results['documents'][0]))]: the
    chunk built for index [i], or nothing when the threshold rejects it. *)
Definition chunk_at (results : QueryResult) (docs0 : list text) (i : nat)
  : outcome (option RetrievedChunk) :=
  distance ← distance_at results i;
  if passes_threshold distance then
    doc ← index docs0 i;
    mds0 ← index (qr_metadatas results) 0%nat;
    md ← index (mds0 : list Metadata) i;
    Return (Some (mkRetrievedChunk doc md distance))
  else Return None.

(** [RAGSystem.retrieve_relevant_chunks], from the reply [results] of the
    vector store on. *)
Definition retrieve_relevant_chunks (results : QueryResult) : outcome (list RetrievedChunk) :=
  match qr_documents results with
  | [] => Return []
  | docs0 :: _ =>
      if Nat.eqb (length docs0) 0 then Return []
      else
        found ← for_each (chunk_at results docs0) (seq 0 (length docs0));
        Return (omap id (found : list (option RetrievedChunk)))
  end.

(** *** Context assembly *)

Fixpoint text_eqb (s t : text) : bool :=
  match s, t with
  | [], [] => true
  | a :: s', b :: t' => Ascii.eqb a b && text_eqb s' t'
  | _, _ => false
  end.

Definition mval_eqb (a b : mval) : bool :=
  match a, b with
  | MInt m, MInt n => m =? n
  | MStr s, MStr t => text_eqb s t
  | _, _ => false
  end.

(** [str(v)] as an f-string formats a metadata value. *)
Definition mval_str (v : mval) : text :=
  match v with
  | MInt n => str_of_int n
  | MStr s => s
  end.

(** The key [(pdf_filename, page)]. *)
Definition source_key : Type := (mval * mval)%type.

Definition key_eqb (a b : source_key) : bool :=
  mval_eqb (fst a) (fst b) && mval_eqb (snd a) (snd b).

Record SourceInfo : Type := mkSourceInfo {
  source_num : Z;
  chunks : list text;
  si_pdf_filename : mval;
  si_page : mval
}.

(** [unique_sources]: a [dict] in insertion order. *)
Definition sources_dict : Type := list (source_key * SourceInfo).

Definition chunk_key (chunk : RetrievedChunk) : source_key :=
  (default (MStr (txt "Unknown")) (md_pdf_filename (rc_metadata chunk)),
   default (MStr (txt "Unknown")) (md_page (rc_metadata chunk))).

(** [source_key in unique_sources] *)
Definition has_key (k : source_key) (d : sources_dict) : bool :=
  existsb (fun kv => key_eqb (fst kv) k) d.

(** [unique_sources[source_key]['chunks'].append(t)] *)
Fixpoint append_chunk (k : source_key) (t : text) (d : sources_dict) : sources_dict :=
  match d with
  | [] => []
  | (k', info) :: d' =>
      if key_eqb k' k
      then (k', mkSourceInfo (source_num info) (chunks info ++ [t])
                             (si_pdf_filename info) (si_page info)) :: d'
      else (k', info) :: append_chunk k t d'
  end.

(** One round of the loop over [context_chunks]: the state is
    [(unique_sources, source_counter)]. *)
Definition add_chunk (st : sources_dict * Z) (chunk : RetrievedChunk) : sources_dict * Z :=
  let '(unique_sources, source_counter) := st in
  let k := chunk_key chunk in
  if has_key k unique_sources
  then (append_chunk k (rc_text chunk) unique_sources, source_counter)
  else (unique_sources
          ++ [(k, mkSourceInfo source_counter [rc_text chunk] (fst k) (snd k))],
        source_counter + 1).

Definition group_sources (context_chunks : list RetrievedChunk) : sources_dict :=
  fst (fold_left add_chunk context_chunks ([], 1)).

Record Citation : Type := mkCitation {
  source : Z;
  pdf_filename : mval;
  page : mval;
  text_snippet : text
}.

(** [" ".join(source_info['chunks'])] *)
Definition combined_text (info : SourceInfo) : text :=
  join (txt " ") (chunks info).

Definition context_part (info : SourceInfo) : text :=
  txt "[Source " ++ str_of_int (source_num info) ++ txt " - Page "
  ++ mval_str (si_page info) ++ txt "]: " ++ combined_text info.

Definition snippet (first_chunk : text) : text :=
  if len first_chunk >? 200 then take 200 first_chunk ++ txt "..."
  else first_chunk.

Definition citation_of (info : SourceInfo) : Citation :=
  mkCitation (source_num info) (si_pdf_filename info) (si_page info)
             (snippet (hd [] (chunks info))).

Definition context_parts (context_chunks : list RetrievedChunk) : list text :=
  map (fun kv => context_part (snd kv)) (group_sources context_chunks).

Definition assembled_citations (context_chunks : list RetrievedChunk) : list Citation :=
  map (fun kv => citation_of (snd kv)) (group_sources context_chunks).

(** *** Prompt *)

Definition base_instructions : text :=
  txt "You are a helpful assistant that answers questions based on the provided context from PDF documents. 
CRITICAL: Use ONLY the information from the context to answer the question. 

If the context does NOT contain relevant information to answer the question, you MUST clearly state:
"
  ++ [dquote] ++ txt "I cannot answer this question based on the provided PDF documents. The documents do not contain information about [topic]."
  ++ [dquote] ++ txt "

DO NOT make up information or use knowledge outside the provided context. If the question is about something not in the documents, explicitly say so. 

IMPORTANT FORMATTING REQUIREMENTS:
1. Format your answer using Markdown for better readability:
   - Use **bold** for key terms and important concepts
   - Use bullet points (-) or numbered lists for multiple items
   - Use line breaks to separate paragraphs
   - Use headings (##) for main sections if the answer is long
2. Cite ALL relevant sources: Use [Source 1], [Source 2], etc. for each piece of information you reference.
".

Definition type_instructions : list (text * text) :=
  [ (txt "Summary",
     txt "SPECIFIC INSTRUCTIONS FOR SUMMARY QUESTIONS:
- Extract core conclusions and key findings
- Ignore minor details, focus on main points
- Keep the answer concise and well-structured
- Organize information logically (most important points first)
- Use bullet points or short paragraphs
- Cite sources for each main point");
    (txt "Fact",
     txt "SPECIFIC INSTRUCTIONS FOR FACTUAL QUESTIONS:
- Answer the specific question directly and precisely
- Cite the source for the fact
- Do not expand on unrelated information
- Keep the answer focused and concise
- If multiple sources mention the same fact, cite all relevant sources");
    (txt "Procedure",
     txt "SPECIFIC INSTRUCTIONS FOR PROCEDURE/STEP QUESTIONS:
- List ALL steps in the correct sequence
- Use numbered lists (1., 2., 3., etc.) for sequential steps
- Include complete information from all relevant sources
- Read through ALL provided sources carefully to find every step
- If steps are mentioned across multiple sources, combine them in order
- Be thorough - do not skip any steps mentioned in the context
- Cite the source for each step or group of steps");
    (txt "Compare/Analyze",
     txt "SPECIFIC INSTRUCTIONS FOR COMPARISON/ANALYSIS QUESTIONS:
- Compare different aspects clearly
- Provide structured analysis with clear sections
- Use headings or bullet points to organize comparisons
- Cite sources for each comparison point
- Maintain clarity and structure throughout
- Highlight key differences and similarities");
    (txt "Default",
     txt "SPECIFIC INSTRUCTIONS:
- Answer the question based on the context provided
- Structure your answer clearly with proper formatting
- Start with a brief direct answer, then provide details
- Use lists when listing multiple points
- Ensure accuracy by using only information from the context") ].

(** [type_instructions.get(question_type, type_instructions['Default'])] *)
Definition specific_instruction (question_type : text) : text :=
  let get k := snd <$> find (fun kv => text_eqb (fst kv) k) type_instructions in
  default (default [] (get (txt "Default"))) (get question_type).

Definition system_message : text :=
  txt "You are a helpful assistant that answers questions based on provided context. Always format your answers using Markdown with proper spacing, bold text for key terms, lists, and clear paragraph breaks. Always cite your sources.".

(** The prompt up to the context block. *)
Definition prompt_head (question_type : text) : text :=
  base_instructions ++ [nl; nl] ++ specific_instruction question_type
  ++ [nl; nl] ++ txt "Context from PDF documents:" ++ [nl].

(** The prompt after the context block. *)
Definition prompt_tail (question : text) (num_sources : Z) : text :=
  [nl; nl] ++ txt "Question: " ++ question ++ [nl; nl]
  ++ txt "Answer the question based on the context above. Make sure to cite ALL relevant sources (Source 1 through Source "
  ++ str_of_int num_sources
  ++ txt ") that contain information relevant to the answer:".

Definition build_prompt (question question_type : text)
    (context_chunks : list RetrievedChunk) : text :=
  let context := join [nl; nl] (context_parts context_chunks) in
  let num_sources := Z.of_nat (length (group_sources context_chunks)) in
  prompt_head question_type ++ context ++ prompt_tail question num_sources.

(** *** Citation markers: the pattern [\[Source\s+(\d+)\]], IGNORECASE *)

(** The longest prefix of [s] whose characters satisfy [p], and the rest. *)
Fixpoint span (p : ascii -> bool) (s : text) : text * text :=
  match s with
  | c :: rest =>
      if p c then let '(taken, remaining) := span p rest in (c :: taken, remaining)
      else ([], s)
  | [] => ([], [])
  end.

(** A literal of the pattern against the start of [s], letters compared up
    to case. *)
Fixpoint starts_with_ignorecase (p s : text) : bool :=
  match p, s with
  | [], _ => true
  | a :: p', b :: s' =>
      Ascii.eqb (lower_char a) (lower_char b) && starts_with_ignorecase p' s'
  | _ :: _, [] => false
  end.

(** One match of the pattern at the start of [s]: the matched text (group
    0) and the digits (group 1).  The classes [\s], [\d] and the closing
    bracket exclude one another, so the greedy runs are the only way the
    pattern can match here. *)
Definition match_source_at (s : text) : option (text * text) :=
  if starts_with_ignorecase (txt "[Source") s then
    let after_word := drop 7 s in
    let '(spaces, after_spaces) := span is_space after_word in
    let '(digits, after_digits) := span is_digit after_spaces in
    match spaces, digits, after_digits with
    | _ :: _, _ :: _, c :: _ =>
        if Ascii.eqb c "]"%char
        then Some (take (7 + length spaces + length digits + 1) s, digits)
        else None
    | _, _, _ => None
    end
  else None.

(** The answer cut into the matches of the pattern and the characters
    between them. *)
Inductive token : Type :=
| Lit (c : ascii)
| Marker (whole digits : text).

(** The scan of [re.findall] and [re.sub]: matches are taken from the
    left and do not overlap; [skip] counts the characters of the last
    match still to pass. *)
Fixpoint scan (skip : nat) (s : text) : list token :=
  match s with
  | [] => []
  | c :: rest =>
      match skip with
      | S k => scan k rest
      | O =>
          match match_source_at s with
          | Some (whole, digits) =>
              Marker whole digits :: scan (length whole - 1) rest
          | None => Lit c :: scan 0 rest
          end
      end
  end.

(** [re.findall(source_pattern, answer, re.IGNORECASE)]: group 1 of every
    match. *)
Definition re_findall (answer : text) : list text :=
  omap (fun t => match t with Marker _ digits => Some digits | Lit _ => None end)
       (scan 0 answer).

(** [re.sub(source_pattern, repl, answer, flags=re.IGNORECASE)]: [repl]
    is called on the matches from the left, and what it raises comes out
    of [re.sub]. *)
Definition re_sub (repl : text -> text -> outcome text) (answer : text) : outcome text :=
  pieces ← for_each (fun t => match t with
                              | Marker whole digits => repl whole digits
                              | Lit c => Return [c]
                              end)
                    (scan 0 answer);
  Return (concat (pieces : list text)).

(** *** Citation reconciliation *)

(** One round of the loop over the matches: [int(match)] may raise. *)
Definition cite_match (citations : list Citation) (cited : gset Z) (m : text)
  : outcome (gset Z) :=
  source_num ← int_of_digits m;
  Return (if existsb (fun c => source c =? source_num) citations
          then {[source_num]} ∪ cited
          else cited).

(** The loop over the matches that fills the set [cited_source_numbers]. *)
Definition cited_source_numbers (answer : text) (citations : list Citation)
  : outcome (gset Z) :=
  for_loop (cite_match citations) (re_findall answer) ∅.

Fixpoint insert_by_source (c : Citation) (l : list Citation) : list Citation :=
  match l with
  | [] => [c]
  | d :: l' =>
      if source c <=? source d then c :: l else d :: insert_by_source c l'
  end.

(** [l.sort(key=lambda x: x['source'])]: the sort is stable, and the
    stable sort of a list is unique; here it is computed by insertion. *)
Definition sort_by_source (l : list Citation) : list Citation :=
  foldr insert_by_source [] l.

Definition set_source (c : Citation) (n : Z) : Citation :=
  mkCitation n (pdf_filename c) (page c) (text_snippet c).

(** The renumbering loop over [enumerate(filtered_citations, start=1)]:
    the state is [(source_remap, renumbered citations, idx)]. *)
Definition renumber_step (st : gmap Z Z * list Citation * Z) (citation : Citation)
  : gmap Z Z * list Citation * Z :=
  let '(source_remap, renumbered, idx) := st in
  (<[source citation := idx]> source_remap,
   renumbered ++ [set_source citation idx],
   idx + 1).

Definition renumber (filtered_citations : list Citation) : gmap Z Z * list Citation :=
  fst (fold_left renumber_step filtered_citations (∅, [], 1)).

(** The inner function [replace_source], on group 0 and group 1 of a match. *)
Definition replace_source (source_remap : gmap Z Z) (whole digits : text)
  : outcome text :=
  old_num ← int_of_digits digits;
  Return (match source_remap !! old_num with
          | Some new_num => txt "[Source " ++ str_of_int new_num ++ txt "]"
          | None => whole
          end).

Record Answer : Type := mkAnswer {
  answer : text;
  citations : list Citation
}.

(** Lines 283-326 of [generate_answer]: from the text the model returned
    and the assembled citations to the returned dictionary.  The two
    places that call [int] are outside every [try]: what they raise comes
    out of [generate_answer]. *)
Definition reconcile (raw_answer : text) (all_citations : list Citation)
  : outcome Answer :=
  cited ← cited_source_numbers raw_answer all_citations;
  if bool_decide (cited = ∅) then Return (mkAnswer raw_answer all_citations)
  else
    let filtered_citations :=
      sort_by_source
        (List.filter (fun c => bool_decide (source c ∈ (cited : gset Z))) all_citations) in
    let '(source_remap, renumbered) := renumber filtered_citations in
    new_answer ← re_sub (replace_source source_remap) raw_answer;
    Return (mkAnswer new_answer renumbered).

(** *** The completion service and [generate_answer] *)

Inductive llm_reply : Type :=
| Completion (content : text)
| ApiError (error_msg : text).

Definition no_information_answer : text :=
  txt "I couldn't find relevant information in the uploaded PDFs to answer your question.".

(** The exception [generate_answer] raises when the completion call
    fails. *)
Definition llm_failure (error_msg : text) : exception :=
  if contains (txt "401") error_msg || contains (txt "User not found") error_msg
  then Exception (txt "Authentication failed. Please check your API key. Error: "
                  ++ error_msg)
  else Exception (txt "Error calling LLM API: " ++ error_msg).

(** *** Question classification *)

Definition summary_keywords : list text :=
  map txt ["summary"; "summarize"; "overview"; "main points"; "key findings";
           "conclusion"; "what is the gist"; "briefly explain"]%string.

Definition procedure_keywords : list text :=
  map txt ["step"; "steps"; "process"; "procedure"; "how to"; "how do";
           "method"; "way"; "list"; "sequence"; "order"; "workflow"]%string.

Definition compare_keywords : list text :=
  map txt ["compare"; "difference"; "different"; "versus"; "vs"; "vs.";
           "similar"; "similarity"; "analyze"; "analysis"; "contrast";
           "relationship"; "between"]%string.

Definition fact_keywords : list text :=
  map txt ["what is"; "what are"; "who is"; "when"; "where"; "which";
           "define"; "definition"; "meaning"]%string.

(** [any(keyword in question_lower for keyword in keywords)] *)
Definition any_keyword_in (keywords : list text) (question_lower : text) : bool :=
  existsb (fun keyword => contains keyword question_lower) keywords.

(** [RAGSystem.classify_question_type] *)
Definition classify_question_type (question : text) : text * Z :=
  let question_lower := lower question in
  if any_keyword_in summary_keywords question_lower then (txt "Summary", 40)
  else if any_keyword_in procedure_keywords question_lower then (txt "Procedure", 40)
  else if any_keyword_in compare_keywords question_lower then (txt "Compare/Analyze", 30)
  else if any_keyword_in fact_keywords question_lower
          && (Z.of_nat (length (split_ws question)) <? 10)
  then (txt "Fact", 8)
  else (txt "Default", 25).

Section Pipeline.

(** [self.client.chat.completions.create], as a function of the system
    message and the user prompt. *)
Variable complete : text -> text -> llm_reply.

(** The embedding of the question followed by the query of the vector
    store, as a function of the question and the result count. *)
Variable query_store : text -> Z -> outcome QueryResult.

(** [RAGSystem.generate_answer].  The first component lists the completion
    calls made, each with its system message and user prompt. *)
Definition generate_answer (question : text) (context_chunks : list RetrievedChunk)
    (question_type : text) : list (text * text) * outcome Answer :=
  match context_chunks with
  | [] => ([], Return (mkAnswer no_information_answer []))
  | _ :: _ =>
      let all_citations := assembled_citations context_chunks in
      let prompt := build_prompt question question_type context_chunks in
      match complete system_message prompt with
      | ApiError error_msg =>
          ([(system_message, prompt)], Raise (llm_failure error_msg))
      | Completion raw_answer =>
          ([(system_message, prompt)], reconcile raw_answer all_citations)
      end
  end.

(** [RAGSystem.ask_question] *)
Definition ask_question (question : text) (n_results : option Z)
  : list (text * text) * outcome Answer :=
  let '(question_type, recommended_chunks) := classify_question_type question in
  let n_results := default recommended_chunks n_results in
  match results ← query_store question n_results; retrieve_relevant_chunks results with
  | Raise e => ([], Raise e)
  | Return relevant_chunks =>
      generate_answer question relevant_chunks question_type
  end.

End Pipeline.

End RAGSystem.

(** ** Notions used to state the properties *)

Module Notions.

Import RAGSystem.

(** [kw] occurs in [s] as a substring: anywhere, inside a longer word or
    not. *)
Definition occurs_in (kw s : text) : Prop :=
  exists before after, s = before ++ kw ++ after.

(** The lowercased question has one of [keywords] as a substring. *)
Definition mentions (keywords : list text) (question : text) : Prop :=
  Exists (fun kw => occurs_in kw (lower question)) keywords.

(** The words of a text, counted without cutting it: a word starts at
    every character that is not white space and stands first or after
    white space.  [after_space] tells whether the previous character was
    white space (or there was none). *)
Fixpoint word_starts (after_space : bool) (s : text) : nat :=
  match s with
  | [] => 0
  | c :: rest =>
      (if after_space && negb (is_space c) then 1 else 0)
      + word_starts (is_space c) rest
  end.

Definition word_count (s : text) : nat := word_starts true s.

#[global] Instance mval_eq_dec : EqDecision mval.
Proof. solve_decision. Defined.

(** The distinct keys of a list, each at the place of its first occurrence. *)
Fixpoint first_seen (keys : list source_key) : list source_key :=
  match keys with
  | [] => []
  | k :: rest => k :: List.filter (fun k' => negb (key_eqb k' k)) (first_seen rest)
  end.

(** The texts of the chunks of key [k], in the order of the chunks. *)
Definition texts_of (k : source_key) (context_chunks : list RetrievedChunk) : list text :=
  map rc_text (List.filter (fun c => key_eqb (chunk_key c) k) context_chunks).

(** The source of number [i + 1]: the chunks of key [k], grouped. *)
Definition source_entry (context_chunks : list RetrievedChunk) (i : nat) (k : source_key)
  : source_key * SourceInfo :=
  (k, mkSourceInfo (Z.of_nat i + 1) (texts_of k context_chunks) (fst k) (snd k)).

(** The text a token stands for in the answer. *)
Definition token_text (t : token) : text :=
  match t with
  | Lit c => [c]
  | Marker whole _ => whole
  end.

(** [whole], with the number [digits], has the shape of a citation marker:
    an opening bracket and the word "source" in any letter case, white
    space, digits, a closing bracket. *)
Definition marker_shape (whole digits : text) : Prop :=
  exists word spaces,
    whole = word ++ spaces ++ digits ++ txt "]"
    /\ lower word = txt "[source"
    /\ spaces <> [] /\ Forall (fun c => is_space c = true) spaces
    /\ digits <> [] /\ Forall (fun c => is_digit c = true) digits.

(** The citations whose source number some marker of the answer carries,
    in the order of the citation list. *)
Definition cited_citations (raw_answer : text) (all_citations : list Citation)
  : list Citation :=
  List.filter
    (fun c => existsb (fun digits => digits_value digits =? source c)
                      (re_findall raw_answer))
    all_citations.

(** The source numbers of [citations] that a marker of the answer
    carries. *)
Definition cited_numbers (raw_answer : text) (citations : list Citation) : gset Z :=
  fold_left
    (fun cited m =>
       let source_num := digits_value m in
       if existsb (fun c => source c =? source_num) citations
       then {[source_num]} ∪ cited
       else cited)
    (re_findall raw_answer) ∅.

(** Sorted by source number, no two alike. *)
Definition ascending (l : list Citation) : Prop :=
  StronglySorted (fun a b => source a < source b) l.

(** The place, counted from 0, of the citation of source number [n]. *)
Fixpoint position_of (n : Z) (kept : list Citation) : option nat :=
  match kept with
  | [] => None
  | c :: rest =>
      if source c =? n then Some 0%nat else S <$> position_of n rest
  end.

(** A token after the renumbering: a marker whose number is the source
    number of the kept citation at place [i] becomes the marker of
    [i + 1]; every other token stays as it is. *)
Definition renumbered_token (kept : list Citation) (t : token) : text :=
  match t with
  | Lit c => [c]
  | Marker whole digits =>
      match position_of (digits_value digits) kept with
      | Some i => txt "[Source " ++ str_of_int (Z.of_nat i + 1) ++ txt "]"
      | None => whole
      end
  end.

End Notions.

(** ** Sample data *)

Module Examples.

Import RAGSystem.

Definition retrieved (t pdf : string) (page_number : Z) (distance : float) : RetrievedChunk :=
  mkRetrievedChunk (txt t)
                   (mkMetadata (Some (MInt page_number)) (Some (MStr (txt pdf))))
                   (Some distance).

(** Four chunks from three pages: the first and the third share a page. *)
Definition four_chunks : list RetrievedChunk :=
  [retrieved "alpha" "a.pdf" 1 0.1; retrieved "beta" "a.pdf" 2 0.2;
   retrieved "gamma" "a.pdf" 1 0.3; retrieved "delta" "b.pdf" 1 0.3]%float.

(** A completion service that always gives [reply]. *)
Definition always_replies (reply : string) : text -> text -> llm_reply :=
  fun _ _ => Completion (txt reply).

End Examples.

(** ** backend/pdf_parser.py: the page loop *)

Module PDFPages.

Import PDFParser.

(** [str(e)] for the exceptions of the model; the [IndexError] of the
    model is the one list indexing raises. *)
Definition exception_str (e : exception) : text :=
  match e with
  | ValueError msg => msg
  | IndexError => txt "list index out of range"
  | Exception msg => msg
  end.

(** The loop over the pages: [pages] holds, page by page, what
    [extract_text] gives, a text or an exception. *)
Definition parse_pages (pages : list (outcome text)) : outcome (list Chunk) :=
  let total_pages := Z.of_nat (length pages) in
  per_page ← for_each
    (fun numbered : nat * outcome text =>
       page_text ← numbered.2;
       parse_page page_text (Z.of_nat numbered.1) total_pages)
    (imap (fun page_num extracted => (page_num, extracted)) pages);
  Return (concat (per_page : list (list Chunk))).

(** [PDFParser.parse_pdf]: [reader] is what [PdfReader(file_path)] gives,
    the pages or an exception.  Whatever is raised inside comes out as an
    [Exception] with the prefixed message. *)
Definition parse_pdf (reader : outcome (list (outcome text))) : outcome (list Chunk) :=
  match pages ← reader; parse_pages pages with
  | Return chunks => Return chunks
  | Raise e => Raise (Exception (txt "Error parsing PDF: " ++ exception_str e))
  end.

(** The order of the chunks of a document: by page, then by index. *)
Definition chunk_before (a b : Chunk) : Prop :=
  chunk_page a < chunk_page b
  \/ (chunk_page a = chunk_page b /\ chunk_index a < chunk_index b).

End PDFPages.

(** ** backend/vector_store.py: the query *)

Module VectorQuery.

(** The arguments of one call of the collection's [query]; [where_arg] is
    [None] when the key is not passed. *)
Record CollectionQuery : Type := mkCollectionQuery {
  query_embeddings_arg : list (list float);
  n_results_arg : Z;
  where_arg : option (list (text * RAGSystem.mval))
}.

(** [VectorStore.query], up to the call of the collection: [total_docs] is
    what [self.collection.count()] gives. *)
Definition query_params (total_docs : Z) (query_embeddings : list (list float))
    (n_results : Z) (where_filter : option (list (text * RAGSystem.mval)))
  : CollectionQuery :=
  mkCollectionQuery
    query_embeddings
    (VectorStore.actual_n_results n_results total_docs)
    (match where_filter with
     | Some (_ :: _) => where_filter
     | Some [] | None => None
     end).

End VectorQuery.

(** ** backend/rag_system.py: construction and retrieval from the store *)

Module RAGSetup.

Import RAGSystem VectorQuery.

(** The environment variables the code reads. *)
Record Environment : Type := mkEnvironment {
  OPENROUTER_API_KEY : option text;
  OPENAI_API_KEY : option text;
  FORCE_OPENROUTER : option text
}.

(** The truth value of a string or [None]. *)
Definition truthy (v : option text) : bool :=
  match v with
  | Some (_ :: _) => true
  | Some [] | None => false
  end.

(** [a or b] *)
Definition or_else (a b : option text) : option text :=
  if truthy a then a else b.

(** An [OpenAI(...)] client, by the arguments it was made with. *)
Record Client : Type := mkClient {
  client_api_key : text;
  client_base_url : option text;
  client_default_headers : list (text * text)
}.

(** The attributes [__init__] sets, the vector store apart. *)
Record RAG : Type := mkRAG {
  use_openrouter : bool;
  client : Client;
  llm_model : text;
  embedding_client : Client;
  embedding_model : text
}.

Definition openrouter_client (key : text) : Client :=
  mkClient key (Some (txt "https://openrouter.ai/api/v1"))
           [(txt "HTTP-Referer", txt "http://localhost:8000");
            (txt "X-Title", txt "PDF RAG Q&A System")].

Definition openai_client (key : text) : Client := mkClient key None [].

(** [RAGSystem.__init__] *)
Definition init (env : Environment) (api_key : option text) (use_openrouter : bool)
  : outcome RAG :=
  let openrouter_key := or_else api_key (OPENROUTER_API_KEY env) in
  let openai_key := OPENAI_API_KEY env in
  if use_openrouter then
    match openrouter_key with
    | Some (c :: k) =>
        let client := openrouter_client (c :: k) in
        Return
          (mkRAG true client (txt "openai/gpt-3.5-turbo")
                 (match openai_key with
                  | Some (c' :: k') => openai_client (c' :: k')
                  | Some [] | None => client
                  end)
                 (txt "text-embedding-ada-002"))
    | Some [] | None =>
        Raise (ValueError
                 (txt "OpenRouter API key is required. Set OPENROUTER_API_KEY environment variable."))
    end
  else
    match openai_key with
    | Some (c :: k) =>
        let client := openai_client (c :: k) in
        Return (mkRAG false client (txt "gpt-3.5-turbo") client
                      (txt "text-embedding-3-small"))
    | Some [] | None =>
        Raise (ValueError
                 (txt "OpenAI API key is required. Set OPENAI_API_KEY environment variable."))
    end.

Section Store.

(** [self.get_embeddings]: the embedding service asked with the client and
    model of the system. *)
Variable get_embeddings : list text -> outcome (list (list float)).

(** [self.collection.count()] and [self.collection.query(...)] *)
Variable collection_count : Z.
Variable collection_query : CollectionQuery -> outcome QueryResult.

(** Lines 94-98 of [retrieve_relevant_chunks]: the question is embedded
    and the store queried. *)
Definition query_store (question : text) (n_results : Z) : outcome QueryResult :=
  embeddings ← get_embeddings [question];
  question_embedding ← index (embeddings : list (list float)) 0%nat;
  collection_query (query_params collection_count [question_embedding] n_results None).

(** [RAGSystem.retrieve_relevant_chunks], whole. *)
Definition retrieve (question : text) (n_results : Z) : outcome (list RetrievedChunk) :=
  results ← query_store question n_results;
  retrieve_relevant_chunks results.

End Store.

End RAGSetup.

(** ** main.py *)

Module Main.

Import PDFParser PDFPages VectorStore RAGSystem RAGSetup.

(** [s.endswith(suffix)] *)
Definition ends_with (suffix s : text) : bool :=
  starts_with (rev suffix) (rev s).

(** [s.replace(old, new)] for a non-empty [old]: the occurrences are found
    from the left and do not overlap; [skip] counts the characters of the
    last occurrence still to pass. *)
Fixpoint replace_from (old new : text) (skip : nat) (s : text) : text :=
  match s with
  | [] => []
  | c :: rest =>
      match skip with
      | S k => replace_from old new k rest
      | O =>
          if starts_with old s
          then new ++ replace_from old new (length old - 1) rest
          else c :: replace_from old new 0 rest
      end
  end.

Definition replace (old new s : text) : text := replace_from old new 0 s.

(** What an endpoint or [get_rag_system] raises: an [HTTPException], or
    an exception of the backend. *)
Inductive error : Type :=
| HTTPException (status_code : Z) (detail : text)
| Uncaught (e : exception).

Inductive reply (A : Type) : Type :=
| Ok (a : A)
| Failed (e : error).

Arguments Ok {A} a.
Arguments Failed {A} e.

#[global] Instance reply_bind : MBind reply := fun _ _ k m =>
  match m with
  | Ok a => k a
  | Failed e => Failed e
  end.

(** A call into the backend from an endpoint. *)
Definition backend {A : Type} (m : outcome A) : reply A :=
  match m with
  | Return a => Ok a
  | Raise e => Failed (Uncaught e)
  end.

(** The binding of keyword arguments at a call: a keyword that names no
    parameter of the function makes the call raise a [TypeError], before
    the body runs.  The result is the message of that error, if any. *)
Definition unexpected_keyword (function_name : text) (parameters keywords : list text)
  : option text :=
  match find (fun k => negb (existsb (text_eqb k) parameters)) keywords with
  | Some k =>
      Some (function_name ++ txt "() got an unexpected keyword argument '"
            ++ k ++ txt "'")
  | None => None
  end.

(** The parameters of [RAGSystem.ask_question] after [self]. *)
Definition ask_question_parameters : list text := [txt "question"; txt "n_results"].

(** The model name sent on, lines 158-188 of the endpoint. *)
Definition api_model_name (use_openrouter : bool) (model_name : option text) : option text :=
  match model_name with
  | Some (c :: r) =>
      let model_name := c :: r in
      if use_openrouter then
        if contains (txt "/") model_name then
          if contains (txt "claude-3.5") model_name
          then Some (replace (txt "claude-3.5") (txt "claude-3-5") model_name)
          else Some model_name
        else if starts_with (txt "gpt") model_name
        then Some (txt "openai/" ++ model_name)
        else if starts_with (txt "claude") model_name
        then Some (txt "anthropic/" ++ replace (txt "3.5") (txt "3-5") model_name)
        else if starts_with (txt "llama") model_name
        then Some (txt "meta/" ++ model_name)
        else if starts_with (txt "gemini") model_name
        then Some (txt "google/" ++ model_name)
        else Some (txt "openai/" ++ model_name)
      else Some model_name
  | Some [] | None => None
  end.

(** The JSON bodies of the two endpoints. *)
Record UploadResponse : Type := mkUploadResponse {
  upload_status : text;
  upload_message : text;
  upload_filename : text;
  upload_chunks : Z;
  upload_total_documents : Z
}.

Record AskResponse : Type := mkAskResponse {
  ask_status : text;
  ask_answer : text;
  ask_citations : list Citation;
  ask_retrieved_docs : list text
}.

Section Endpoints.

(** [str(e)] for an [HTTPException]: the web framework's. *)
Variable http_exception_str : Z -> text -> text.

Definition error_str (e : error) : text :=
  match e with
  | HTTPException status_code detail => http_exception_str status_code detail
  | Uncaught e => exception_str e
  end.

Variable env : Environment.

(** [get_rag_system]: [rag_system] is the global of that name before the
    call; the result holds the global after the call. *)
Definition get_rag_system (rag_system : option RAG) : option RAG * reply RAG :=
  match rag_system with
  | Some rag => (Some rag, Ok rag)
  | None =>
      let force_openrouter :=
        text_eqb (lower (default (txt "false") (FORCE_OPENROUTER env))) (txt "true") in
      let openai_key := OPENAI_API_KEY env in
      let openrouter_key := OPENROUTER_API_KEY env in
      let made : reply RAG :=
        if force_openrouter then
          if negb (truthy openrouter_key) then
            Failed (HTTPException 500
                      (txt "OpenRouter API key is required when FORCE_OPENROUTER=true. Set OPENROUTER_API_KEY in .env file."))
          else backend (init env openrouter_key true)
        else if truthy openai_key then backend (init env openai_key false)
        else if truthy openrouter_key then backend (init env openrouter_key true)
        else
          Failed (HTTPException 500
                    (txt "API key not found. Please set OPENAI_API_KEY in .env file. Get your key from https://platform.openai.com/api-keys")) in
      match made with
      | Ok rag => (Some rag, Ok rag)
      | Failed e => (None, Failed e)
      end
  end.

(** The services behind the endpoints. *)
Variable save_upload : text -> outcome unit.
Variable get_embeddings : RAG -> list text -> outcome (list (list float)).
Variable uuid4 : nat -> text.
Variable collection_add : CollectionAdd -> outcome unit.
Variable get_collection_size : outcome Z.
Variable complete : RAG -> text -> text -> llm_reply.
Variable query_store : RAG -> text -> Z -> outcome QueryResult.

(** The [except Exception] of an endpoint. *)
Definition as_server_error {A : Type} (prefix : text) (r : reply A) : reply A :=
  match r with
  | Ok a => Ok a
  | Failed e => Failed (HTTPException 500 (prefix ++ error_str e))
  end.

(** [upload_pdf]: [filename] is [file.filename], [reader] what the PDF
    reader gives for the saved file. *)
Definition upload_pdf (rag_system : option RAG) (filename : text)
    (reader : outcome (list (outcome text)))
  : option RAG * reply UploadResponse :=
  if negb (ends_with (txt ".pdf") filename) then
    (rag_system, Failed (HTTPException 400 (txt "Only PDF files are allowed")))
  else
    match (_ ← backend (save_upload filename); backend (parse_pdf reader)) with
    | Failed e =>
        (rag_system, as_server_error (txt "Error processing PDF: ") (Failed e))
    | Ok [] =>
        (rag_system,
         as_server_error (txt "Error processing PDF: ")
           (Failed (HTTPException 400 (txt "Could not extract text from PDF"))))
    | Ok (first :: others) =>
        let chunks := first :: others in
        let '(rag_system', got) := get_rag_system rag_system in
        (rag_system',
         as_server_error (txt "Error processing PDF: ")
           (rag ← got;
            embeddings ← backend (get_embeddings rag (map chunk_text chunks));
            call ← backend (add_documents uuid4 chunks filename (Some embeddings));
            _ ← backend (collection_add call);
            total ← backend get_collection_size;
            Ok (mkUploadResponse (txt "success")
                  (txt "PDF uploaded and processed successfully")
                  filename (Z.of_nat (length chunks)) total)))
    end.

(** [ask_question] of the application: [question] and [model_name] are
    [data.get("question")] and [data.get("model_name")]. *)
Definition ask_question_endpoint (rag_system : option RAG)
    (question model_name : option text)
  : option RAG * reply AskResponse :=
  match question with
  | Some (c :: r) =>
      let question := c :: r in
      let '(rag_system', got) := get_rag_system rag_system in
      (rag_system',
       as_server_error (txt "Error generating answer: ")
         (rag ← got;
          let api_name := api_model_name (use_openrouter rag) model_name in
          match unexpected_keyword (txt "RAGSystem.ask_question")
                                   ask_question_parameters [txt "model_name"] with
          | Some msg => Failed (Uncaught (Exception msg))
          | None =>
              result ← backend
                (snd (RAGSystem.ask_question (complete rag) (query_store rag)
                                             question None));
              Ok (mkAskResponse (txt "success") (answer result) (citations result) [])
          end))
  | Some [] | None =>
      (rag_system, Failed (HTTPException 400 (txt "Question is required")))
  end.

End Endpoints.

End Main.

(** ** Notions for reading a returned answer again *)

Module Rereading.

Import RAGSystem Notions.

(** A token after the renumbering, as the token the pattern finds in the
    rewritten answer: the marker of [i + 1] carries the digits of
    [i + 1]. *)
Definition retoken (kept : list Citation) (t : token) : token :=
  match t with
  | Lit c => Lit c
  | Marker whole digits =>
      match position_of (digits_value digits) kept with
      | Some i =>
          Marker (txt "[Source " ++ str_of_int (Z.of_nat i + 1) ++ txt "]")
                 (str_of_int (Z.of_nat i + 1))
      | None => Marker whole digits
      end
  end.

(** The digits of a token, if it is a marker. *)
Definition token_digits (t : token) : option text :=
  match t with
  | Marker _ digits => Some digits
  | Lit _ => None
  end.

End Rereading.

(** * Properties *)

Import PDFParser VectorStore RAGSystem Notions Examples.

(** ** Facts about the string helpers *)

Section PyStrFacts.

Lemma split_dot_space_nonempty (s : text) : split_dot_space s <> [].
Proof.
  destruct s as [|c rest]; simpl; [discriminate|].
  destruct (Ascii.eqb c "."); [destruct rest as [|d rest']|];
    try destruct (Ascii.eqb d sp);
    try discriminate; destruct (split_dot_space _); discriminate.
Qed.

Lemma join_cons_head (sep : text) (c : ascii) (w : text) (ws : list text) :
  join sep ((c :: w) :: ws) = c :: join sep (w :: ws).
Proof. destruct ws; reflexivity. Qed.

Lemma join_split_keep (c : ascii) (rest : text) :
  join (txt ". ") (split_dot_space rest) = rest ->
  join (txt ". ")
       match split_dot_space rest with
       | w :: ws => (c :: w) :: ws
       | [] => [[c]]
       end = c :: rest.
Proof.
  intros IH. pose proof (split_dot_space_nonempty rest) as Hne.
  destruct (split_dot_space rest) as [|w ws]; [congruence|].
  rewrite join_cons_head. now rewrite IH.
Qed.

(** Joining the sentences with the separator gives the text back. *)
Lemma join_split_dot_space (s : text) :
  join (txt ". ") (split_dot_space s) = s.
Proof.
  remember (length s) as n eqn:Hn.
  revert s Hn. induction n as [n IH] using lt_wf_ind. intros s Hn.
  destruct s as [|c rest]; [reflexivity|].
  assert (Hrest : join (txt ". ") (split_dot_space rest) = rest).
  { apply (IH (length rest)); simpl in Hn; [lia | reflexivity]. }
  cbn [split_dot_space].
  destruct (Ascii.eqb_spec c "."%char) as [->|Hc]; [|now apply join_split_keep].
  destruct rest as [|d rest']; [now apply join_split_keep|].
  destruct (Ascii.eqb_spec d sp) as [->|Hd]; [|now apply join_split_keep].
  assert (Hrest' : join (txt ". ") (split_dot_space rest') = rest').
  { apply (IH (length rest')); simpl in Hn; [lia | reflexivity]. }
  pose proof (split_dot_space_nonempty rest') as Hne.
  destruct (split_dot_space rest') as [|w ws] eqn:E; [congruence|].
  change (join (txt ". ") ([] :: w :: ws))
    with ("."%char :: sp :: join (txt ". ") (w :: ws)).
  now rewrite Hrest'.
Qed.

(** Every sentence followed by the separator: the join plus one more
    separator at the end. *)
Lemma concat_with_terminator (sep : text) (parts : list text) :
  parts <> [] ->
  concat (map (fun p => p ++ sep) parts) = join sep parts ++ sep.
Proof.
  induction parts as [|p rest IH]; [congruence|]. intros _.
  destruct rest as [|q rest].
  - simpl. now rewrite app_nil_r.
  - change (join sep (p :: q :: rest)) with (p ++ sep ++ join sep (q :: rest)).
    cbn [map concat]. cbn [map concat] in IH.
    rewrite IH by discriminate. now rewrite <- !app_assoc.
Qed.

End PyStrFacts.

(** ** Facts about the chunker *)

Section ChunkerFacts.

Variable chunk_size : Z.

(** The sentence loop only moves text between the finished chunks and the
    running buffer. *)
Lemma pack_sentence_concat (sentences : list text) (chunks : list text) (current : text) :
  let '(chunks', current') :=
    fold_left (pack_sentence chunk_size) sentences (chunks, current) in
  concat chunks' ++ current'
  = concat chunks ++ current ++ concat (map (fun s => s ++ txt ". ") sentences).
Proof.
  revert chunks current.
  induction sentences as [|s rest IH]; intros chunks current.
  - simpl. now rewrite app_nil_r.
  - cbn [fold_left map concat]. unfold pack_sentence at 2.
    destruct (_ && _).
    + specialize (IH (chunks ++ [current]) (s ++ txt ". ")).
      destruct (fold_left _ rest _) as [chunks' current'].
      rewrite IH, concat_app. simpl. now rewrite app_nil_r, <- !app_assoc.
    + specialize (IH chunks (current ++ s ++ txt ". ")).
      destruct (fold_left _ rest _) as [chunks' current'].
      rewrite IH. now rewrite <- !app_assoc.
Qed.

Lemma pack_sentences_concat (sentences : list text) :
  concat (pack_sentences chunk_size sentences)
  = concat (map (fun s => s ++ txt ". ") sentences).
Proof.
  unfold pack_sentences.
  pose proof (pack_sentence_concat sentences [] []) as H.
  destruct (fold_left _ sentences _) as [chunks current].
  cbn [concat app] in H. rewrite <- H.
  destruct (Nat.eqb_spec (length current) 0) as [E|E].
  - destruct current; [now rewrite app_nil_r | discriminate].
  - rewrite concat_app. simpl. now rewrite app_nil_r.
Qed.

Hypothesis chunk_size_pos : 1 <= chunk_size.

(** Cutting [s] every [chunk_size] characters loses nothing. *)
Lemma slices_concat (k : nat) (s : text) :
  (Z.of_nat (length s) <= Z.of_nat k * chunk_size) ->
  concat (map (fun i => slice s i (i + chunk_size))
              (map (fun j => Z.of_nat j * chunk_size) (seq 0 k))) = s.
Proof.
  revert s. induction k as [|k IH]; intros s Hlen.
  - destruct s; [reflexivity | simpl in Hlen; lia].
  - cbn [seq map concat]. rewrite <- seq_shift, !map_map.
    assert (Hfirst : slice s (Z.of_nat 0 * chunk_size) (Z.of_nat 0 * chunk_size + chunk_size)
                     = take (Z.to_nat chunk_size) s).
    { unfold slice. simpl. now rewrite Nat.sub_0_r. }
    rewrite Hfirst.
    erewrite map_ext.
    + rewrite <- (map_map (fun j => Z.of_nat j * chunk_size)
                          (fun i => slice (drop (Z.to_nat chunk_size) s) i (i + chunk_size))).
      rewrite IH; [apply take_drop|].
      rewrite length_drop. lia.
    + intros j. cbv beta. unfold slice. rewrite drop_drop.
      f_equal; [|f_equal]; nia.
Qed.

Lemma split_by_character_concat (chunk : text) :
  exists pieces, split_by_character chunk_size chunk = Return pieces
                 /\ concat pieces = chunk.
Proof.
  unfold split_by_character.
  destruct (len chunk <=? chunk_size).
  - exists [chunk]. split; [reflexivity|]. simpl. apply app_nil_r.
  - unfold range0.
    destruct (Z.eqb_spec chunk_size 0); [lia|].
    destruct (Z.ltb_spec chunk_size 0); [lia|].
    eexists. split; [reflexivity|].
    apply slices_concat. unfold len.
    rewrite Z2Nat.id by (apply Z.div_pos; lia).
    pose proof (Z.mul_div_le (Z.of_nat (length chunk) + chunk_size - 1) chunk_size ltac:(lia)).
    pose proof (Z.mod_pos_bound (Z.of_nat (length chunk) + chunk_size - 1) chunk_size ltac:(lia)).
    pose proof (Z.div_mod (Z.of_nat (length chunk) + chunk_size - 1) chunk_size ltac:(lia)).
    lia.
Qed.

Lemma for_each_split_concat (chunks : list text) :
  exists pieces, for_each (split_by_character chunk_size) chunks = Return pieces
                 /\ concat (concat pieces) = concat chunks.
Proof.
  induction chunks as [|c rest (pieces & Hrun & Hcat)].
  - exists []. split; reflexivity.
  - destruct (split_by_character_concat c) as (p & Hp & Hpc).
    exists (p :: pieces). cbn [for_each]. rewrite Hp, Hrun.
    split; [reflexivity|].
    cbn [concat]. now rewrite concat_app, Hpc, Hcat.
Qed.

End ChunkerFacts.

(** ** Facts about substring search and the classifier *)

Section ClassifierFacts.

Lemma starts_with_prefix (p s : text) :
  starts_with p s = true <-> exists after, s = p ++ after.
Proof.
  revert s. induction p as [|a p IH]; intros s; simpl.
  - split; [intros _; now exists s | reflexivity].
  - destruct s as [|b s].
    + split; [discriminate | intros [after H]; discriminate].
    + rewrite andb_true_iff, IH. split.
      * intros [Hab [after ->]]. apply Ascii.eqb_eq in Hab as ->. now exists after.
      * intros [after H]. injection H as -> ->.
        split; [apply Ascii.eqb_refl | now exists after].
Qed.

(** [needle in hay] is true exactly when [needle] is a substring. *)
Lemma contains_occurs_in (needle hay : text) :
  contains needle hay = true <-> occurs_in needle hay.
Proof.
  unfold occurs_in. induction hay as [|c hay IH].
  - simpl. rewrite orb_false_r, starts_with_prefix. split.
    + intros [after H]. now exists [], after.
    + intros (before & after & H). destruct before; [now exists after|discriminate].
  - cbn [contains]. rewrite orb_true_iff, starts_with_prefix, IH. split.
    + intros [[after H] | (before & after & H)].
      * now exists [], after.
      * exists (c :: before), after. now rewrite H.
    + intros (before & after & H). destruct before as [|b before].
      * left. now exists after.
      * right. injection H as -> ->. now exists before, after.
Qed.

Lemma any_keyword_in_mentions (keywords : list text) (question : text) :
  any_keyword_in keywords (lower question) = true <-> mentions keywords question.
Proof.
  unfold any_keyword_in, mentions.
  rewrite existsb_exists, Exists_exists.
  split; intros (kw & Hin & H); exists kw.
  - split; [now apply list_elem_of_In | now apply contains_occurs_in].
  - split; [now apply list_elem_of_In | now apply contains_occurs_in].
Qed.

Lemma any_keyword_in_not_mentions (keywords : list text) (question : text) :
  any_keyword_in keywords (lower question) = false <-> ~ mentions keywords question.
Proof.
  rewrite <- any_keyword_in_mentions. now destruct (any_keyword_in _ _).
Qed.

Lemma lower_char_idempotent (c : ascii) : lower_char (lower_char c) = lower_char c.
Proof.
  destruct c as [[|] [|] [|] [|] [|] [|] [|] [|]]; reflexivity.
Qed.

Lemma is_space_lower_char (c : ascii) : is_space (lower_char c) = is_space c.
Proof.
  destruct c as [[|] [|] [|] [|] [|] [|] [|] [|]]; reflexivity.
Qed.

Lemma lower_idempotent (s : text) : lower (lower s) = lower s.
Proof.
  unfold lower. rewrite map_map. apply map_ext. intros c. apply lower_char_idempotent.
Qed.

Lemma lower_app (s t : text) : lower (s ++ t) = lower s ++ lower t.
Proof. apply map_app. Qed.

(** The words of [s.split()] depend on where the white space is, which
    lowercasing does not change. *)
Lemma split_ws_lower_length (s : text) :
  length (split_ws (lower s)) = length (split_ws s).
Proof.
  induction s as [|c rest IH]; [reflexivity|].
  cbn [lower map split_ws]. fold (lower rest).
  rewrite is_space_lower_char.
  destruct (is_space c); [exact IH|].
  destruct rest as [|d rest']; [reflexivity|].
  cbn [lower map]. rewrite is_space_lower_char. fold (lower rest').
  change (lower_char d :: lower rest') with (lower (d :: rest')).
  destruct (is_space d).
  - cbn [length]. now rewrite IH.
  - destruct (split_ws (lower (d :: rest'))), (split_ws (d :: rest'));
      simpl in *; congruence.
Qed.

Lemma split_ws_same_lower (s t : text) :
  lower s = lower t -> length (split_ws s) = length (split_ws t).
Proof.
  intros H. rewrite <- (split_ws_lower_length s), <- (split_ws_lower_length t).
  now rewrite H.
Qed.

(** The branch [classify_question_type] takes, by the first category whose
    keywords the lowercased question mentions. *)
Lemma classify_cases (question : text) :
  (mentions summary_keywords question ->
   classify_question_type question = (txt "Summary", 40))
  /\ (~ mentions summary_keywords question ->
      mentions procedure_keywords question ->
      classify_question_type question = (txt "Procedure", 40))
  /\ (~ mentions summary_keywords question ->
      ~ mentions procedure_keywords question ->
      mentions compare_keywords question ->
      classify_question_type question = (txt "Compare/Analyze", 30))
  /\ (~ mentions summary_keywords question ->
      ~ mentions procedure_keywords question ->
      ~ mentions compare_keywords question ->
      mentions fact_keywords question ->
      (length (split_ws question) < 10)%nat ->
      classify_question_type question = (txt "Fact", 8))
  /\ (~ mentions summary_keywords question ->
      ~ mentions procedure_keywords question ->
      ~ mentions compare_keywords question ->
      ~ mentions fact_keywords question \/ (10 <= length (split_ws question))%nat ->
      classify_question_type question = (txt "Default", 25)).
Proof.
  unfold classify_question_type. cbv zeta.
  repeat split.
  - intros H. apply any_keyword_in_mentions in H. now rewrite H.
  - intros H1 H2. apply any_keyword_in_not_mentions in H1.
    apply any_keyword_in_mentions in H2. now rewrite H1, H2.
  - intros H1 H2 H3. apply any_keyword_in_not_mentions in H1, H2.
    apply any_keyword_in_mentions in H3. now rewrite H1, H2, H3.
  - intros H1 H2 H3 H4 H5. apply any_keyword_in_not_mentions in H1, H2, H3.
    apply any_keyword_in_mentions in H4. rewrite H1, H2, H3, H4.
    destruct (Z.ltb_spec (Z.of_nat (length (split_ws question))) 10); [reflexivity | lia].
  - intros H1 H2 H3 H4. apply any_keyword_in_not_mentions in H1, H2, H3.
    rewrite H1, H2, H3. destruct H4 as [H4|H4].
    + apply any_keyword_in_not_mentions in H4. now rewrite H4.
    + destruct (Z.ltb_spec (Z.of_nat (length (split_ws question))) 10); [lia|].
      now rewrite andb_false_r.
Qed.

(** Only the lowercased question and its word count are read. *)
Lemma classify_same_lower (question other : text) :
  lower other = lower question ->
  classify_question_type other = classify_question_type question.
Proof.
  intros H. unfold classify_question_type. cbv zeta.
  now rewrite H, (split_ws_same_lower _ _ H).
Qed.

Lemma occurs_in_lower (kw s : text) :
  lower kw = kw -> occurs_in kw s -> occurs_in kw (lower s).
Proof.
  intros Hkw (before & after & ->).
  exists (lower before), (lower after). now rewrite !lower_app, Hkw.
Qed.

Lemma occurs_in_inside (kw word s : text) :
  occurs_in kw word -> occurs_in word s -> occurs_in kw s.
Proof.
  intros (b1 & a1 & ->) (b2 & a2 & ->).
  exists (b2 ++ b1), (a1 ++ a2). now rewrite <- !app_assoc.
Qed.

End ClassifierFacts.

(** ** Facts about the retrieval loop *)

Section RetrievalFacts.

Lemma for_each_map {A B C : Type} (h : A -> B) (f : B -> outcome C) (l : list A) :
  for_each f (map h l) = for_each (fun a => f (h a)) l.
Proof.
  induction l as [|a l IH]; [reflexivity|].
  cbn [map for_each]. now rewrite IH.
Qed.

(** A loop over [range(len(l))] whose round [i] returns [g] of the [i]-th
    element returns the list of these results. *)
Lemma for_each_range {A B : Type} (l : list A) (g : A -> B) (f : nat -> outcome B) :
  (forall i a, l !! i = Some a -> f i = Return (g a)) ->
  for_each f (seq 0 (length l)) = Return (map g l).
Proof.
  revert f. induction l as [|a l IH]; intros f Hf; [reflexivity|].
  cbn [length seq]. rewrite <- seq_shift. cbn [for_each map].
  rewrite (Hf 0%nat a eq_refl), for_each_map.
  rewrite (IH (fun i => f (S i))); [reflexivity|].
  intros i b Hi. now apply Hf.
Qed.

Lemma index_lookup {A : Type} (l : list A) (i : nat) (a : A) :
  l !! i = Some a -> index l i = Return a.
Proof. unfold index. now intros ->. Qed.

(** What the loop keeps of a list of results: the chunks built from the
    rows the test accepts, in order. *)
Lemma omap_keep_filter {A B : Type} (keep : A -> bool) (build : A -> B) (l : list A) :
  omap id (map (fun a => if keep a then Some (build a) else None) l)
  = map build (List.filter keep l).
Proof.
  induction l as [|a l IH]; [reflexivity|].
  cbn [map omap List.filter]. unfold omap in IH. cbn. 
  destruct (keep a); cbn; now rewrite IH.
Qed.

End RetrievalFacts.

(** ** Facts about the grouping of chunks into sources *)

Section GroupingFacts.

Lemma text_eqb_eq (s t : text) : text_eqb s t = true <-> s = t.
Proof.
  revert t. induction s as [|a s IH]; intros [|b t]; simpl; try easy.
  rewrite andb_true_iff, IH, Ascii.eqb_eq. split; [intros [-> ->] | intros [= -> ->]]; auto.
Qed.

Lemma mval_eqb_eq (a b : mval) : mval_eqb a b = true <-> a = b.
Proof.
  destruct a, b; simpl; try easy.
  - rewrite Z.eqb_eq. split; congruence.
  - rewrite text_eqb_eq. split; congruence.
Qed.

Lemma key_eqb_eq (a b : source_key) : key_eqb a b = true <-> a = b.
Proof.
  destruct a, b. unfold key_eqb. simpl.
  rewrite andb_true_iff, !mval_eqb_eq. split; [intros [-> ->] | intros [= -> ->]]; auto.
Qed.

Lemma key_eqb_refl (a : source_key) : key_eqb a a = true.
Proof. now apply key_eqb_eq. Qed.

Lemma key_eqb_neq (a b : source_key) : key_eqb a b = false <-> a <> b.
Proof.
  rewrite <- key_eqb_eq. now destruct (key_eqb a b).
Qed.

Lemma key_eqb_sym (a b : source_key) : key_eqb a b = key_eqb b a.
Proof.
  destruct (key_eqb b a) eqn:E.
  - apply key_eqb_eq in E as ->. apply key_eqb_refl.
  - apply key_eqb_neq. apply key_eqb_neq in E. congruence.
Qed.

Lemma elem_of_filter_ne (k a : source_key) (l : list source_key) :
  k ∈ List.filter (fun k' => negb (key_eqb k' a)) l <-> k ∈ l /\ k <> a.
Proof.
  rewrite !list_elem_of_In, filter_In, negb_true_iff, key_eqb_neq. tauto.
Qed.

Lemma elem_of_first_seen (k : source_key) (l : list source_key) :
  k ∈ first_seen l <-> k ∈ l.
Proof.
  induction l as [|a l IH]; [reflexivity|].
  cbn [first_seen]. rewrite !elem_of_cons, elem_of_filter_ne, IH.
  destruct (key_eqb k a) eqn:E.
  - apply key_eqb_eq in E. tauto.
  - apply key_eqb_neq in E. tauto.
Qed.

Lemma NoDup_filter_keys (f : source_key -> bool) (l : list source_key) :
  NoDup l -> NoDup (List.filter f l).
Proof.
  induction 1 as [|a l Hin Hnd IH]; [constructor|].
  cbn [List.filter]. destruct (f a); [|assumption].
  constructor; [|assumption].
  rewrite list_elem_of_In, filter_In, <- list_elem_of_In. tauto.
Qed.

Lemma NoDup_first_seen (l : list source_key) : NoDup (first_seen l).
Proof.
  induction l as [|a l IH]; [constructor|].
  cbn [first_seen]. constructor.
  - rewrite elem_of_filter_ne. tauto.
  - now apply NoDup_filter_keys.
Qed.

(** A key seen again changes nothing; a new key goes last. *)
Lemma first_seen_snoc (l : list source_key) (k : source_key) :
  first_seen (l ++ [k])
  = if bool_decide (k ∈ l) then first_seen l else first_seen l ++ [k].
Proof.
  induction l as [|a l IH].
  - reflexivity.
  - cbn [app first_seen]. rewrite IH.
    destruct (key_eqb k a) eqn:E.
    + apply key_eqb_eq in E as ->.
      rewrite (bool_decide_eq_true_2 (a ∈ a :: l)) by set_solver.
      case_bool_decide; [reflexivity|].
      rewrite List.filter_app. cbn [List.filter].
      rewrite key_eqb_refl. cbn. now rewrite app_nil_r.
    + apply key_eqb_neq in E.
      case_bool_decide as Hin.
      * now rewrite (bool_decide_eq_true_2 (k ∈ a :: l)) by set_solver.
      * rewrite (bool_decide_eq_false_2 (k ∈ a :: l)) by set_solver.
        rewrite List.filter_app. cbn [List.filter].
        replace (key_eqb k a) with false by (symmetry; now apply key_eqb_neq).
        reflexivity.
Qed.

Lemma texts_of_snoc (k : source_key) (l : list RetrievedChunk) (c : RetrievedChunk) :
  texts_of k (l ++ [c])
  = texts_of k l ++ (if key_eqb (chunk_key c) k then [rc_text c] else []).
Proof.
  unfold texts_of. rewrite List.filter_app, map_app. cbn [List.filter].
  now destruct (key_eqb (chunk_key c) k).
Qed.

Lemma texts_of_absent (k : source_key) (l : list RetrievedChunk) :
  k ∉ map chunk_key l -> texts_of k l = [].
Proof.
  unfold texts_of. induction l as [|c l IH]; [reflexivity|].
  cbn [map]. rewrite not_elem_of_cons. intros [Hne Hnin].
  cbn [List.filter].
  replace (key_eqb (chunk_key c) k) with false
    by (symmetry; apply key_eqb_neq; congruence).
  now apply IH.
Qed.

Lemma has_key_imap (k : source_key) (info : nat -> source_key -> SourceInfo)
    (keys : list source_key) :
  has_key k (imap (fun i k' => (k', info i k')) keys) = bool_decide (k ∈ keys).
Proof.
  revert info. induction keys as [|a keys IH]; intros info; [reflexivity|].
  cbn [imap]. unfold has_key in *. cbn [existsb fst].
  unfold compose. rewrite (IH (fun i => info (S i))).
  destruct (key_eqb a k) eqn:E.
  - apply key_eqb_eq in E as ->. cbn.
    now rewrite (bool_decide_eq_true_2 (k ∈ k :: keys)) by set_solver.
  - apply key_eqb_neq in E. cbn.
    apply bool_decide_ext. set_solver.
Qed.

(** With distinct keys, appending a text to the source of key [k] touches
    the entry of [k] and no other. *)
Lemma append_chunk_imap (k : source_key) (t : text)
    (info : nat -> source_key -> SourceInfo) (keys : list source_key) :
  NoDup keys ->
  append_chunk k t (imap (fun i k' => (k', info i k')) keys)
  = imap (fun i k' =>
            (k', if key_eqb k' k
                 then mkSourceInfo (source_num (info i k')) (chunks (info i k') ++ [t])
                                   (si_pdf_filename (info i k')) (si_page (info i k'))
                 else info i k'))
         keys.
Proof.
  intros Hnd. revert info.
  induction Hnd as [|a keys Hnin Hnd IH]; intros info; [reflexivity|].
  cbn [imap append_chunk]. unfold compose.
  destruct (key_eqb a k) eqn:E.
  - f_equal. apply key_eqb_eq in E as ->.
    apply imap_ext. intros i k' Hk'. cbn.
    replace (key_eqb k' k) with false; [reflexivity|].
    symmetry. apply key_eqb_neq. intros ->.
    apply Hnin. eapply list_elem_of_lookup_2. eassumption.
  - f_equal. apply (IH (fun i => info (S i))).
Qed.

(** The state of the loop after the chunks [l]. *)
Lemma fold_add_chunk (l : list RetrievedChunk) :
  fold_left add_chunk l ([], 1)
  = (imap (source_entry l) (first_seen (map chunk_key l)),
     Z.of_nat (length (first_seen (map chunk_key l))) + 1).
Proof.
  induction l as [|c l IH] using rev_ind; [reflexivity|].
  rewrite fold_left_app, IH. cbn [fold_left]. unfold add_chunk.
  rewrite map_app. cbn [map]. rewrite first_seen_snoc.
  unfold source_entry at 1 2. rewrite has_key_imap.
  rewrite (bool_decide_ext _ (chunk_key c ∈ map chunk_key l))
    by apply elem_of_first_seen.
  case_bool_decide as Hin.
  - rewrite append_chunk_imap by apply NoDup_first_seen.
    f_equal. apply imap_ext. intros i k Hk. cbn. unfold source_entry.
    rewrite texts_of_snoc, (key_eqb_sym k).
    destruct (key_eqb (chunk_key c) k); [reflexivity|].
    now rewrite app_nil_r.
  - rewrite length_app. cbn [length]. f_equal; [|lia].
    rewrite imap_app. cbn [imap]. f_equal.
    + apply imap_ext. intros i k Hk. unfold source_entry.
      rewrite texts_of_snoc.
      replace (key_eqb (chunk_key c) k) with false; [now rewrite app_nil_r|].
      symmetry. apply key_eqb_neq. intros <-.
      apply Hin, elem_of_first_seen. eapply list_elem_of_lookup_2. eassumption.
    + unfold source_entry. rewrite texts_of_snoc, key_eqb_refl.
      rewrite texts_of_absent by assumption.
      rewrite Nat.add_0_r. reflexivity.
Qed.

Lemma group_sources_entries (l : list RetrievedChunk) :
  group_sources l = imap (source_entry l) (first_seen (map chunk_key l)).
Proof. unfold group_sources. now rewrite fold_add_chunk. Qed.

End GroupingFacts.

(** ** Facts about the citation markers and the renumbering *)

Section ReconcileFacts.

Lemma match_source_at_take (s whole digits : text) :
  match_source_at s = Some (whole, digits) ->
  exists n, whole = take n s /\ (1 <= n)%nat.
Proof.
  unfold match_source_at.
  destruct (starts_with_ignorecase _ s); [|discriminate].
  destruct (span is_space _) as [spaces after_spaces].
  destruct (span is_digit _) as [ds after_digits].
  destruct spaces; [discriminate|]. destruct ds; [discriminate|].
  destruct after_digits as [|c ?]; [discriminate|].
  destruct (Ascii.eqb c "]"); [|discriminate].
  intros [= <- <-]. eexists. split; [reflexivity | lia].
Qed.

(** The tokens of the scan, put end to end, are the text scanned. *)
Lemma scan_covers (s : text) (skip : nat) :
  concat (map token_text (scan skip s)) = drop skip s.
Proof.
  revert skip. induction s as [|c rest IH]; intros skip.
  - now destruct skip.
  - cbn [scan]. destruct skip as [|k]; [|apply IH].
    destruct (match_source_at (c :: rest)) as [[whole digits]|] eqn:E.
    + cbn [map concat token_text]. rewrite IH.
      destruct (match_source_at_take _ _ _ E) as (n & -> & Hn).
      destruct n as [|n]; [lia|]. cbn [take].
      replace (length (c :: take n rest) - 1)%nat with (length (take n rest))
        by (cbn [length]; lia).
      cbn [drop app]. f_equal. rewrite length_take.
      destruct (Nat.le_gt_cases n (length rest)).
      * rewrite Nat.min_l by assumption. apply take_drop.
      * rewrite Nat.min_r by lia. rewrite take_ge, drop_all by lia.
        apply app_nil_r.
    + cbn [map concat token_text]. rewrite IH. reflexivity.
Qed.

Lemma span_spec (p : ascii -> bool) (s taken remaining : text) :
  span p s = (taken, remaining) ->
  s = taken ++ remaining /\ Forall (fun c => p c = true) taken.
Proof.
  revert taken remaining. induction s as [|c rest IH]; intros taken remaining.
  - intros [= <- <-]. split; [reflexivity | constructor].
  - cbn [span]. destruct (p c) eqn:Hc.
    + destruct (span p rest) as [t r]. intros [= <- <-].
      destruct (IH t r eq_refl) as [-> Hall].
      split; [reflexivity | now constructor].
    + intros [= <- <-]. split; [reflexivity | constructor].
Qed.

Lemma starts_with_ignorecase_spec (p s : text) :
  starts_with_ignorecase p s = true ->
  lower (take (length p) s) = lower p /\ (length p <= length s)%nat.
Proof.
  revert s. induction p as [|a p IH]; intros s; [intros _; split; [reflexivity | simpl; lia]|].
  destruct s as [|b s]; [discriminate|]. cbn [starts_with_ignorecase].
  rewrite andb_true_iff, Ascii.eqb_eq. intros [Hab Hrest].
  destruct (IH s Hrest) as [Hl Hlen].
  cbn [length take lower map]. fold (lower (take (length p) s)). fold (lower p).
  split; [now rewrite Hl, Hab | lia].
Qed.

(** Every marker the scan finds has the shape of the pattern. *)
Lemma match_source_at_shape (s whole digits : text) :
  match_source_at s = Some (whole, digits) -> marker_shape whole digits.
Proof.
  unfold match_source_at.
  destruct (starts_with_ignorecase _ s) eqn:Hword; [|discriminate].
  destruct (span is_space _) as [spaces after_spaces] eqn:Hsp.
  destruct (span is_digit _) as [ds after_digits] eqn:Hdg.
  destruct spaces as [|s0 spaces]; [discriminate|].
  destruct ds as [|d0 ds]; [discriminate|].
  destruct after_digits as [|c rest]; [discriminate|].
  destruct (Ascii.eqb_spec c "]"%char) as [->|]; [|discriminate].
  intros [= <- <-].
  apply starts_with_ignorecase_spec in Hword as [Hlow Hlen].
  apply span_spec in Hsp as [Hs1 Hspaces].
  apply span_spec in Hdg as [Hs2 Hdigits].
  change (length (txt "[Source")) with 7%nat in Hlen.
  exists (take 7 s), (s0 :: spaces).
  split.
  - assert (Hlen7 : length (take 7 s) = 7%nat) by (rewrite length_take; lia).
    remember (take 7 s) as word eqn:Hw.
    assert (Hs : s = (word ++ (s0 :: spaces) ++ (d0 :: ds) ++ txt "]") ++ rest).
    { rewrite <- (take_drop 7 s), <- Hw, Hs1, Hs2.
      now rewrite <- !app_assoc. }
    rewrite Hs at 1.
    set (found := word ++ (s0 :: spaces) ++ (d0 :: ds) ++ txt "]").
    transitivity (take (length found) (found ++ rest)); [|apply take_app_length].
    f_equal. unfold found. rewrite !length_app, Hlen7. cbn. lia.
  - split; [exact Hlow|]. repeat split; try discriminate; assumption.
Qed.

Lemma scan_marker_shape (s : text) (skip : nat) (whole digits : text) :
  Marker whole digits ∈ scan skip s -> marker_shape whole digits.
Proof.
  revert skip. induction s as [|c rest IH]; intros skip.
  - destruct skip; cbn; intros H; now apply elem_of_nil in H.
  - cbn [scan]. destruct skip as [|k]; [|apply IH].
    destruct (match_source_at (c :: rest)) as [[w d]|] eqn:E.
    + rewrite elem_of_cons. intros [[= -> ->] | H].
      * eapply match_source_at_shape. eassumption.
      * eapply IH. eassumption.
    + rewrite elem_of_cons. intros [[=] | H]. eapply IH. eassumption.
Qed.

Lemma elem_of_re_findall (digits raw : text) :
  digits ∈ re_findall raw <-> exists whole, Marker whole digits ∈ scan 0 raw.
Proof.
  unfold re_findall. rewrite list_elem_of_omap. split.
  - intros (t & Hin & Ht). destruct t as [|whole d]; [discriminate|].
    injection Ht as ->. now exists whole.
  - intros (whole & Hin). now exists (Marker whole digits).
Qed.

(** A number is in [cited_numbers] when a marker carries it and a
    citation has it as its source number. *)
Lemma elem_of_cited_from (citations : list Citation) (matches : list text)
    (cited : gset Z) (n : Z) :
  n ∈ fold_left
        (fun cited m =>
           let source_num := digits_value m in
           if existsb (fun c => source c =? source_num) citations
           then {[source_num]} ∪ cited
           else cited)
        matches cited
  <-> n ∈ cited
      \/ (exists m, m ∈ matches /\ digits_value m = n)
         /\ (exists c, c ∈ citations /\ source c = n).
Proof.
  revert cited. induction matches as [|m matches IH]; intros cited.
  - cbn. split; [auto|]. intros [H | [(m & Hm & _) _]]; [assumption|].
    now apply elem_of_nil in Hm.
  - cbn [fold_left]. rewrite IH. cbv zeta.
    destruct (existsb _ citations) eqn:Ex.
    + apply existsb_exists in Ex as (c & Hc & Hsrc).
      apply Z.eqb_eq in Hsrc. apply list_elem_of_In in Hc.
      rewrite elem_of_union, elem_of_singleton. split.
      * intros [[-> | H] | [(m' & Hm' & Hi) Hcit]]; [right|left|right].
        -- split; [exists m; split; [left|reflexivity] | now exists c].
        -- assumption.
        -- split; [exists m'; split; [now right | assumption] | assumption].
      * intros [H | [(m' & Hm' & Hi) Hcit]]; [now left; right|].
        apply elem_of_cons in Hm' as [-> | Hm'].
        -- left; left. now symmetry.
        -- right. split; [now exists m' | assumption].
    + split.
      * intros [H | [(m' & Hm' & Hi) Hcit]]; [now left | right].
        split; [exists m'; split; [now right | assumption] | assumption].
      * intros [H | [(m' & Hm' & Hi) Hcit]]; [now left|].
        apply elem_of_cons in Hm' as [-> | Hm'].
        -- exfalso. destruct Hcit as (c & Hc & Hsrc).
           assert (existsb (fun c => source c =? digits_value m) citations = true)
             as Hex; [|congruence].
           apply existsb_exists. exists c.
           split; [now apply list_elem_of_In | apply Z.eqb_eq; congruence].
        -- right. split; [now exists m' | assumption].
Qed.

Lemma elem_of_cited_numbers (raw : text) (citations : list Citation) (n : Z) :
  n ∈ cited_numbers raw citations
  <-> (exists digits, digits ∈ re_findall raw /\ digits_value digits = n)
      /\ (exists c, c ∈ citations /\ source c = n).
Proof.
  unfold cited_numbers. rewrite elem_of_cited_from.
  split; [intros [H | H]; [now apply not_elem_of_empty in H | exact H] | now right].
Qed.

(** [int] on a string of digits that is not too long. *)
Lemma int_of_digits_short (s : text) :
  len s <= 4300 -> int_of_digits s = Return (digits_value s).
Proof.
  intros H. unfold int_of_digits, int_max_str_digits.
  destruct (Z.ltb_spec 4300 (len s)); [lia | reflexivity].
Qed.


Lemma cite_match_short (citations : list Citation) (cited : gset Z) (m : text) :
  len m <= 4300 ->
  cite_match citations cited m
  = Return (if existsb (fun c => source c =? digits_value m) citations
            then {[digits_value m]} ∪ cited
            else cited).
Proof. intros Hm. unfold cite_match. now rewrite (int_of_digits_short m Hm). Qed.


(** The loop over the matches when every marker can be converted. *)
Lemma cited_loop_short (citations : list Citation) (matches : list text) (cited : gset Z) :
  Forall (fun digits => len digits <= 4300) matches ->
  for_loop (cite_match citations) matches cited
  = Return (fold_left
              (fun cited m =>
                 let source_num := digits_value m in
                 if existsb (fun c => source c =? source_num) citations
                 then {[source_num]} ∪ cited
                 else cited)
              matches cited).
Proof.
  intros Hshort. revert cited.
  induction Hshort as [|m matches Hm _ IH]; intros cited; [reflexivity|].
  cbn [for_loop fold_left]. rewrite (cite_match_short citations cited m Hm).
  apply IH.
Qed.

Lemma cited_source_numbers_short (raw : text) (citations : list Citation) :
  Forall (fun digits => len digits <= 4300) (re_findall raw) ->
  cited_source_numbers raw citations = Return (cited_numbers raw citations).
Proof. apply cited_loop_short. Qed.


End ReconcileFacts.

Section RenumberFacts.

Lemma ascending_filter (p : Citation -> bool) (l : list Citation) :
  ascending l -> ascending (List.filter p l).
Proof.
  unfold ascending. induction 1 as [|a l Hs IH Hall]; [constructor|].
  cbn [List.filter]. destruct (p a); [|assumption].
  constructor; [assumption|].
  rewrite Forall_forall in *. intros c Hc.
  apply Hall. apply list_elem_of_In in Hc. apply filter_In in Hc as [Hc _].
  now apply list_elem_of_In.
Qed.

Lemma ascending_imap {A : Type} (f : nat -> A -> Citation) (l : list A) (start : Z) :
  (forall i a, source (f i a) = start + Z.of_nat i) ->
  ascending (imap f l).
Proof.
  unfold ascending. revert f start.
  induction l as [|a l IH]; intros f start Hf; [constructor|].
  cbn [imap]. constructor.
  - apply (IH _ (start + 1)). intros i b. unfold compose. rewrite Hf. lia.
  - rewrite Forall_forall. intros c Hc.
    apply elem_of_lookup_imap_1 in Hc as (i & b & -> & _).
    unfold compose. rewrite !Hf. lia.
Qed.

Lemma ascending_assembled_citations (context_chunks : list RetrievedChunk) :
  ascending (assembled_citations context_chunks).
Proof.
  unfold assembled_citations. rewrite group_sources_entries.
  change (map ?f ?l) with (f <$> l). rewrite fmap_imap.
  apply (ascending_imap _ _ 1). intros i k. cbn. lia.
Qed.

Lemma ascending_lookup (l : list Citation) (i j : nat) (ci cj : Citation) :
  ascending l -> l !! i = Some ci -> l !! j = Some cj ->
  (i < j)%nat -> source ci < source cj.
Proof.
  unfold ascending. intros Hs. revert i j.
  induction Hs as [|a l Hs IH Hall]; intros i j Hi Hj Hlt; [discriminate|].
  destruct j as [|j]; [lia|]. cbn in Hj.
  destruct i as [|i].
  - injection Hi as <-. rewrite Forall_forall in Hall.
    apply Hall. eapply list_elem_of_lookup_2. eassumption.
  - cbn in Hi. apply (IH i j); [assumption..|lia].
Qed.

Lemma ascending_sources_NoDup (l : list Citation) :
  ascending l -> NoDup (map source l).
Proof.
  unfold ascending. induction 1 as [|a l Hs IH Hall]; [constructor|].
  cbn [map]. constructor; [|assumption].
  rewrite Forall_forall in Hall. intros Hin.
  apply list_elem_of_fmap in Hin as (c & Heq & Hc).
  specialize (Hall c Hc). lia.
Qed.

(** [sort] leaves a list that is already in order as it is. *)
Lemma sort_by_source_ascending (l : list Citation) :
  ascending l -> sort_by_source l = l.
Proof.
  unfold ascending, sort_by_source. induction 1 as [|a l Hs IH Hall]; [reflexivity|].
  cbn [foldr]. rewrite IH. destruct l as [|b l]; [reflexivity|].
  cbn [insert_by_source]. apply Forall_cons in Hall as [Hab _].
  destruct (Z.leb_spec (source a) (source b)); [reflexivity | lia].
Qed.

Lemma position_of_absent (n : Z) (l : list Citation) :
  n ∉ map source l -> position_of n l = None.
Proof.
  induction l as [|c l IH]; [reflexivity|].
  cbn [map position_of]. rewrite not_elem_of_cons. intros [Hne Hnin].
  destruct (Z.eqb_spec (source c) n); [congruence|].
  now rewrite IH.
Qed.

Lemma position_of_lookup (l : list Citation) (i : nat) (c : Citation) :
  NoDup (map source l) -> l !! i = Some c -> position_of (source c) l = Some i.
Proof.
  revert i. induction l as [|a l IH]; intros i Hnd Hi; [discriminate|].
  cbn [map] in Hnd. apply NoDup_cons in Hnd as [Hnin Hnd].
  cbn [position_of]. destruct i as [|i].
  - injection Hi as ->. now rewrite Z.eqb_refl.
  - cbn in Hi. destruct (Z.eqb_spec (source a) (source c)) as [E|E].
    + exfalso. apply Hnin. rewrite E. apply list_elem_of_fmap.
      exists c. split; [reflexivity|]. eapply list_elem_of_lookup_2. eassumption.
    + now rewrite (IH i Hnd Hi).
Qed.

(** The state of the renumbering loop after the citations [l]. *)
Lemma renumber_fold (l : list Citation) (source_remap : gmap Z Z)
    (renumbered : list Citation) (idx : Z) :
  NoDup (map source l) ->
  exists source_remap',
    fold_left renumber_step l (source_remap, renumbered, idx)
    = (source_remap',
       renumbered ++ imap (fun i c => set_source c (idx + Z.of_nat i)) l,
       idx + Z.of_nat (length l))
    /\ forall n,
        source_remap' !! n
        = match position_of n l with
          | Some i => Some (idx + Z.of_nat i)
          | None => source_remap !! n
          end.
Proof.
  revert source_remap renumbered idx.
  induction l as [|a l IH]; intros source_remap renumbered idx Hnd.
  - exists source_remap. cbn. rewrite app_nil_r, Z.add_0_r. auto.
  - cbn [map] in Hnd. apply NoDup_cons in Hnd as [Hnin Hnd].
    cbn [fold_left]. unfold renumber_step at 2.
    destruct (IH (<[source a := idx]> source_remap)
                 (renumbered ++ [set_source a idx]) (idx + 1) Hnd)
      as (m' & Hfold & Hlook).
    exists m'. split.
    + rewrite Hfold. f_equal; [f_equal|cbn [length]; lia].
      rewrite <- app_assoc. f_equal. cbn [imap app].
      rewrite Z.add_0_r. f_equal.
      apply imap_ext. intros i c _. unfold compose. f_equal. lia.
    + intros n. rewrite Hlook. cbn [position_of].
      destruct (Z.eqb_spec (source a) n) as [<-|Hne].
      * rewrite position_of_absent by assumption.
        now rewrite lookup_insert_eq, Z.add_0_r.
      * destruct (position_of n l) as [i|]; cbn.
        -- f_equal. lia.
        -- now rewrite lookup_insert_ne.
Qed.

Lemma renumber_ascending (kept : list Citation) :
  ascending kept ->
  exists source_remap,
    renumber kept
    = (source_remap, imap (fun i c => set_source c (Z.of_nat i + 1)) kept)
    /\ forall n,
        source_remap !! n = (fun i => Z.of_nat i + 1) <$> position_of n kept.
Proof.
  intros Hasc. unfold renumber.
  destruct (renumber_fold kept ∅ [] 1 (ascending_sources_NoDup _ Hasc))
    as (m & Hfold & Hlook).
  exists m. rewrite Hfold. cbn [fst app]. split.
  - f_equal. apply imap_ext. intros i c _. f_equal. lia.
  - intros n. rewrite Hlook. destruct (position_of n kept); cbn.
    + f_equal. lia.
    + apply lookup_empty.
Qed.

(** The filter of [generate_answer] keeps the citations a marker names. *)
Lemma filter_cited (raw : text) (all_citations : list Citation) :
  List.filter
    (fun c => bool_decide (source c ∈ cited_numbers raw all_citations))
    all_citations
  = cited_citations raw all_citations.
Proof.
  unfold cited_citations. apply filter_ext_in. intros c Hc.
  apply list_elem_of_In in Hc.
  destruct (existsb _ (re_findall raw)) eqn:Ex.
  - apply bool_decide_eq_true_2, elem_of_cited_numbers.
    apply existsb_exists in Ex as (digits & Hd & Heq).
    apply Z.eqb_eq in Heq. apply list_elem_of_In in Hd.
    split; [now exists digits | now exists c].
  - apply bool_decide_eq_false_2. rewrite elem_of_cited_numbers.
    intros [(digits & Hd & Heq) _].
    assert (existsb (fun digits => digits_value digits =? source c) (re_findall raw) = true)
      as Hex; [|congruence].
    apply existsb_exists. exists digits.
    split; [now apply list_elem_of_In | now apply Z.eqb_eq].
Qed.

Lemma elem_of_cited_citations (raw : text) (all_citations : list Citation) (c : Citation) :
  c ∈ cited_citations raw all_citations
  <-> c ∈ all_citations
      /\ exists digits, digits ∈ re_findall raw /\ digits_value digits = source c.
Proof.
  unfold cited_citations.
  rewrite !list_elem_of_In, filter_In, existsb_exists.
  split; intros [Hc (digits & Hd & Heq)]; (split; [assumption|]); exists digits.
  - split; [now apply list_elem_of_In | now apply Z.eqb_eq].
  - split; [now apply list_elem_of_In | now apply Z.eqb_eq].
Qed.

(** The substitution when every marker can be converted. *)
Lemma re_sub_short (source_remap : gmap Z Z) (raw : text) :
  Forall (fun digits => len digits <= 4300) (re_findall raw) ->
  re_sub (replace_source source_remap) raw
  = Return
      (concat
         (map (fun t =>
                 match t with
                 | Marker whole digits =>
                     match source_remap !! digits_value digits with
                     | Some new_num => txt "[Source " ++ str_of_int new_num ++ txt "]"
                     | None => whole
                     end
                 | Lit c => [c]
                 end)
              (scan 0 raw))).
Proof.
  intros Hshort. unfold re_sub.
  assert (Htoks : forall whole digits,
             Marker whole digits ∈ scan 0 raw -> len digits <= 4300).
  { intros whole digits Hin. rewrite Forall_forall in Hshort. apply Hshort.
    apply elem_of_re_findall. now exists whole. }
  induction (scan 0 raw) as [|t toks IH]; [reflexivity|].
  cbn [for_each map concat].
  assert (IH' := IH (fun w d Hin => Htoks w d (list_elem_of_further _ _ _ Hin))).
  cbn in IH'.
  destruct (for_each _ toks) as [pieces|e]; [|discriminate].
  injection IH' as IH'.
  destruct t as [c | whole digits]; cbn; [now rewrite IH'|].
  unfold replace_source.
  rewrite (int_of_digits_short digits (Htoks whole digits (list_elem_of_here _ _))).
  cbn. now rewrite IH'.
Qed.

(** What [reconcile] returns when a marker names a citation. *)
Lemma reconcile_cited (raw : text) (all_citations : list Citation) :
  Forall (fun digits => len digits <= 4300) (re_findall raw) ->
  ascending all_citations ->
  (exists digits c,
      digits ∈ re_findall raw /\ c ∈ all_citations
      /\ source c = digits_value digits) ->
  reconcile raw all_citations
  = Return
      (mkAnswer
         (concat (map (renumbered_token (cited_citations raw all_citations)) (scan 0 raw)))
         (imap (fun i c => set_source c (Z.of_nat i + 1))
               (cited_citations raw all_citations))).
Proof.
  intros Hshort Hasc (digits & c & Hd & Hc & Hsrc). unfold reconcile.
  rewrite (cited_source_numbers_short raw all_citations Hshort). cbn.
  rewrite bool_decide_eq_false_2.
  2:{ intros Hempty.
      apply (not_elem_of_empty (C := gset Z) (source c)). rewrite <- Hempty.
      apply elem_of_cited_numbers.
      split; [exists digits; auto | exists c; auto]. }
  rewrite filter_cited.
  assert (Hkept : ascending (cited_citations raw all_citations))
    by now apply ascending_filter.
  rewrite sort_by_source_ascending by assumption.
  destruct (renumber_ascending _ Hkept) as (m & -> & Hlook).
  rewrite (re_sub_short m raw Hshort). cbn.
  f_equal. f_equal. f_equal. apply map_ext. intros [ch | whole ds]; [reflexivity|].
  unfold renumbered_token. rewrite Hlook.
  now destruct (position_of _ _).
Qed.

(** What [reconcile] returns when no marker names a citation. *)
Lemma reconcile_fallback (raw : text) (all_citations : list Citation) :
  Forall (fun digits => len digits <= 4300) (re_findall raw) ->
  (forall digits c,
      digits ∈ re_findall raw -> c ∈ all_citations ->
      source c <> digits_value digits) ->
  reconcile raw all_citations = Return (mkAnswer raw all_citations).
Proof.
  intros Hshort Hnone. unfold reconcile.
  rewrite (cited_source_numbers_short raw all_citations Hshort). cbn.
  rewrite bool_decide_eq_true_2; [reflexivity|].
  apply elem_of_equiv_empty_L. intros n Hn.
  apply elem_of_cited_numbers in Hn as [(digits & Hd & Heq) (c & Hc & Hsrc)].
  apply (Hnone digits c); congruence.
Qed.


End RenumberFacts.

(** ** The chunker ([PDFParser._split_text_into_chunks]) *)

(** C6, as the code has it: a text no longer than [chunk_size] comes back
    as the one-element sequence holding that text.  For the empty text
    this is the one-element sequence holding the empty string, not the
    empty sequence; the page loop of [parse_pdf] then drops it as blank. *)
Theorem split_short_text_single_chunk (text0 : text) (chunk_size : Z) :
  len text0 <= chunk_size ->
  _split_text_into_chunks text0 chunk_size = Return [text0]
  /\ (text0 = [] ->
      _split_text_into_chunks [] chunk_size = Return [[]]
      /\ forall page_num total_pages, parse_page [] page_num total_pages = Return []).
Proof.
  intros Hlen.
  assert (H : _split_text_into_chunks text0 chunk_size = Return [text0]).
  { unfold _split_text_into_chunks.
    destruct (Z.leb_spec (len text0) chunk_size); [reflexivity | lia]. }
  split; [exact H|].
  intros ->. split; [exact H|]. reflexivity.
Qed.

Lemma split_short_text_single_chunk_witness :
  len (txt "") <= 500
  /\ _split_text_into_chunks (txt "") 500 = Return [txt ""]
  /\ (txt "" = [] ->
      _split_text_into_chunks [] 500 = Return [[]]
      /\ forall page_num total_pages, parse_page [] page_num total_pages = Return []).
Proof.
  split; [vm_compute; discriminate|].
  apply (split_short_text_single_chunk (txt "") 500). vm_compute; discriminate.
Defined.

(** C6, the claim as stated fails: the empty text with the default size 500
    is no longer than the size, and the result is [['']], not the empty
    sequence. *)
Lemma split_empty_text_not_empty_sequence :
  len (txt "") <= 500
  /\ _split_text_into_chunks (txt "") 500 = Return [txt ""]
  /\ _split_text_into_chunks (txt "") 500 <> Return [].
Proof.
  split; [vm_compute; discriminate|]. split; [reflexivity | discriminate].
Qed.

(** C9, as the code has it: for a size of at least 1 the chunker returns,
    and its chunks put end to end are the text itself when the text fits
    in one chunk, and otherwise the text with every newline turned into a
    space, followed by one more [". "]. *)
Theorem chunks_concat_flattened_text (text0 : text) (chunk_size : Z) :
  1 <= chunk_size ->
  exists chunks,
    _split_text_into_chunks text0 chunk_size = Return chunks
    /\ concat chunks
       = if len text0 <=? chunk_size then text0
         else replace_newlines text0 ++ txt ". ".
Proof.
  intros Hsize. unfold _split_text_into_chunks.
  destruct (len text0 <=? chunk_size).
  - exists [text0]. split; [reflexivity|]. simpl. apply app_nil_r.
  - destruct (for_each_split_concat chunk_size Hsize
                (pack_sentences chunk_size (split_dot_space (replace_newlines text0))))
      as (pieces & Hrun & Hcat).
    exists (concat pieces). rewrite Hrun. split; [reflexivity|].
    rewrite Hcat, pack_sentences_concat.
    rewrite concat_with_terminator by apply split_dot_space_nonempty.
    now rewrite join_split_dot_space.
Qed.

Lemma chunks_concat_flattened_text_witness :
  1 <= 12
  /\ exists chunks,
      _split_text_into_chunks (txt "Hello world. This is. a test.  Yes") 12 = Return chunks
      /\ concat chunks
         = if len (txt "Hello world. This is. a test.  Yes") <=? 12
           then txt "Hello world. This is. a test.  Yes"
           else replace_newlines (txt "Hello world. This is. a test.  Yes") ++ txt ". ".
Proof.
  split; [lia|].
  apply (chunks_concat_flattened_text (txt "Hello world. This is. a test.  Yes") 12). lia.
Defined.

(** C9, the claim as stated fails: the newline of the three-character text
    [a], newline, [b] is in none of the chunks returned for size 1, so no
    way of leaving characters out of the chunks gives the text back. *)
Lemma chunks_lose_newline :
  exists chunks,
    _split_text_into_chunks ["a"%char; nl; "b"%char] 1 = Return chunks
    /\ chunks = [txt "a"; txt " "; txt "b"; txt "."; txt " "]
    /\ ~ ["a"%char; nl; "b"%char] `sublist_of` concat chunks.
Proof.
  eexists. split; [reflexivity|]. split; [reflexivity|].
  intros Hsub.
  assert (Hin : nl ∈ concat [txt "a"; txt " "; txt "b"; txt "."; txt " "]).
  { eapply elem_of_sublist; [|exact Hsub]. set_solver. }
  vm_compute in Hin.
  repeat (apply elem_of_cons in Hin as [Hin|Hin]; [discriminate|]).
  now apply elem_of_nil in Hin.
Qed.
(** ** The classifier ([RAGSystem.classify_question_type]) *)

(** [question.split()] has one item per word. *)
Lemma split_ws_word_count (s : text) : length (split_ws s) = word_count s.
Proof.
  unfold word_count. induction s as [|c rest IH]; [reflexivity|].
  cbn [split_ws word_starts andb]. destruct (is_space c) eqn:Hc; cbn [negb].
  - exact IH.
  - destruct rest as [|d r]; [reflexivity|].
    cbn [word_starts andb] in IH |- *. destruct (is_space d) eqn:Hd; cbn [negb] in IH |- *.
    + cbn [length]. now rewrite IH.
    + destruct (split_ws (d :: r)) as [|w ws]; [discriminate|].
      cbn [length] in IH |- *. lia.
Qed.

(** C4: the category and count are fixed by the lowercased question and
    its word count alone, the categories being tried in the order
    Summary, Procedure, Compare/Analyze, Fact (which also needs fewer than
    ten words), Default, the first that matches giving the result, with
    the counts 40, 40, 30, 8 and 25; two questions that differ only in
    letter case are classified alike, and "Summarize the steps" is a
    Summary question.  The words are the runs of characters between white
    space, whatever the white space: a question with a Fact keyword is a
    Fact question with nine words and a Default question with ten. *)
Theorem classify_priority_order (question : text) :
  (mentions summary_keywords question ->
   classify_question_type question = (txt "Summary", 40))
  /\ (~ mentions summary_keywords question ->
      mentions procedure_keywords question ->
      classify_question_type question = (txt "Procedure", 40))
  /\ (~ mentions summary_keywords question ->
      ~ mentions procedure_keywords question ->
      mentions compare_keywords question ->
      classify_question_type question = (txt "Compare/Analyze", 30))
  /\ (~ mentions summary_keywords question ->
      ~ mentions procedure_keywords question ->
      ~ mentions compare_keywords question ->
      mentions fact_keywords question ->
      (word_count question < 10)%nat ->
      classify_question_type question = (txt "Fact", 8))
  /\ (~ mentions summary_keywords question ->
      ~ mentions procedure_keywords question ->
      ~ mentions compare_keywords question ->
      ~ mentions fact_keywords question \/ (10 <= word_count question)%nat ->
      classify_question_type question = (txt "Default", 25))
  /\ length (split_ws question) = word_count question
  /\ (forall other, lower other = lower question ->
      classify_question_type other = classify_question_type question)
  /\ mentions summary_keywords (txt "Summarize the steps")
  /\ mentions procedure_keywords (txt "Summarize the steps")
  /\ classify_question_type (txt "Summarize the steps") = (txt "Summary", 40)
  /\ (let nine := txt "When did the first edition of this book appear" in
      let ten := txt "When did the first edition of this book appear here" in
      let spaced := nl :: txt "  When   did the first edition of this book  appear " in
      map word_count [nine; ten; spaced] = [9; 10; 9]%nat
      /\ split_ws spaced
         = map txt ["When"; "did"; "the"; "first"; "edition"; "of"; "this";
                    "book"; "appear"]%string
      /\ Forall (mentions fact_keywords) [nine; ten; spaced]
      /\ map classify_question_type [nine; ten; spaced]
         = [(txt "Fact", 8); (txt "Default", 25); (txt "Fact", 8)]).
Proof.
  destruct (classify_cases question) as (H1 & H2 & H3 & H4 & H5).
  rewrite split_ws_word_count in H4, H5.
  repeat (split; [assumption|]).
  split; [apply split_ws_word_count|].
  split; [intros other; apply classify_same_lower|].
  split; [apply any_keyword_in_mentions; reflexivity|].
  split; [apply any_keyword_in_mentions; reflexivity|].
  split; [reflexivity|].
  cbv zeta. split; [reflexivity|]. split; [reflexivity|].
  split; [|reflexivity].
  do 3 (constructor; [apply any_keyword_in_mentions; reflexivity|]).
  constructor.
Qed.

(** C10: a keyword counts wherever it stands in the lowercased question,
    also inside a longer word.  A keyword of a category put between any
    two texts gives that category once no earlier category matches (Fact
    with fewer than ten words); so a question with "always", which holds
    "way", and no Summary keyword is a Procedure question, and one with
    "different" inside a longer word and no Summary or Procedure keyword
    is a Compare/Analyze question. *)
Theorem classify_matches_inside_words (question : text) :
  (forall kw before after,
      kw ∈ summary_keywords -> lower question = before ++ kw ++ after ->
      classify_question_type question = (txt "Summary", 40))
  /\ (forall kw before after,
      kw ∈ procedure_keywords -> lower question = before ++ kw ++ after ->
      ~ mentions summary_keywords question ->
      classify_question_type question = (txt "Procedure", 40))
  /\ (forall kw before after,
      kw ∈ compare_keywords -> lower question = before ++ kw ++ after ->
      ~ mentions summary_keywords question ->
      ~ mentions procedure_keywords question ->
      classify_question_type question = (txt "Compare/Analyze", 30))
  /\ (forall kw before after,
      kw ∈ fact_keywords -> lower question = before ++ kw ++ after ->
      ~ mentions summary_keywords question ->
      ~ mentions procedure_keywords question ->
      ~ mentions compare_keywords question ->
      (length (split_ws question) < 10)%nat ->
      classify_question_type question = (txt "Fact", 8))
  /\ (occurs_in (txt "always") question ->
      ~ mentions summary_keywords question ->
      classify_question_type question = (txt "Procedure", 40))
  /\ (occurs_in (txt "always") (lower question) ->
      ~ mentions summary_keywords question ->
      classify_question_type question = (txt "Procedure", 40))
  /\ (forall before after,
      lower question = before ++ txt "different" ++ after ->
      ~ mentions summary_keywords question ->
      ~ mentions procedure_keywords question ->
      classify_question_type question = (txt "Compare/Analyze", 30))
  /\ classify_question_type (txt "Is it always so?") = (txt "Procedure", 40)
  /\ classify_question_type (txt "They behaved indifferently") = (txt "Compare/Analyze", 30).
Proof.
  destruct (classify_cases question) as (H1 & H2 & H3 & H4 & H5).
  assert (Hm : forall keywords kw before after,
             kw ∈ keywords -> lower question = before ++ kw ++ after ->
             mentions keywords question).
  { intros keywords kw before after Hin Heq. apply Exists_exists.
    exists kw. split; [assumption|]. now exists before, after. }
  assert (Hway : occurs_in (txt "always") (lower question) ->
                 mentions procedure_keywords question).
  { intros Halways.
    destruct (occurs_in_inside (txt "way") (txt "always") (lower question)) as (b & a & Heq);
      [now exists (txt "al"), (txt "s") | assumption |].
    apply (Hm _ (txt "way") b a); [|assumption].
    unfold procedure_keywords. set_solver. }
  split; [intros kw b a Hin Heq; apply H1; eauto|].
  split; [intros kw b a Hin Heq Hs; apply H2; eauto|].
  split; [intros kw b a Hin Heq Hs Hp; apply H3; eauto|].
  split; [intros kw b a Hin Heq Hs Hp Hc Hw; apply H4; eauto|].
  split; [intros Ha Hs; apply H2; [assumption|];
          apply Hway, occurs_in_lower; [reflexivity | assumption]|].
  split; [intros Ha Hs; apply H2; [assumption | now apply Hway]|].
  split; [|split; reflexivity].
  intros b a Heq Hs Hp. apply H3; [assumption..|].
  apply (Hm _ (txt "different") b a); [|assumption].
  unfold compare_keywords. set_solver.
Qed.

(** ** Grouping chunks into sources ([RAGSystem.generate_answer]) *)

(** C3: for a list of chunks that is not empty, the sources are the
    distinct keys [(pdf_filename, page)] of the chunks in first-seen
    order, numbered 1, 2, ...; the source of a key holds the texts of all
    chunks of that key in the order met, its context line joins them with
    spaces, and there is one citation per key.  The prompt sent to the
    completion service holds these context lines.  Two chunks of the same
    document and page give one context line, with both texts in the order
    met, and one citation. *)
Theorem sources_grouped_in_first_seen_order
    (complete : text -> text -> llm_reply) (question question_type : text)
    (context_chunks : list RetrievedChunk) :
  context_chunks <> [] ->
  let keys := first_seen (map chunk_key context_chunks) in
  group_sources context_chunks
  = imap (fun i k =>
            (k, mkSourceInfo (Z.of_nat i + 1) (texts_of k context_chunks) k.1 k.2))
         keys
  /\ NoDup keys
  /\ (forall k, k ∈ keys <-> exists c, c ∈ context_chunks /\ chunk_key c = k)
  /\ context_parts context_chunks
     = imap (fun i k =>
               txt "[Source " ++ str_of_int (Z.of_nat i + 1) ++ txt " - Page "
               ++ mval_str k.2 ++ txt "]: "
               ++ join (txt " ") (texts_of k context_chunks))
            keys
  /\ assembled_citations context_chunks
     = imap (fun i k =>
               mkCitation (Z.of_nat i + 1) k.1 k.2
                          (snippet (hd [] (texts_of k context_chunks))))
            keys
  /\ length (assembled_citations context_chunks) = length keys
  /\ fst (generate_answer complete question context_chunks question_type)
     = [(system_message, build_prompt question question_type context_chunks)]
  /\ occurs_in (join [nl; nl] (context_parts context_chunks))
               (build_prompt question question_type context_chunks)
  /\ (forall t1 t2 md d1 d2,
      context_parts [mkRetrievedChunk t1 md d1; mkRetrievedChunk t2 md d2]
      = [txt "[Source 1 - Page "
         ++ mval_str (default (MStr (txt "Unknown")) (md_page md))
         ++ txt "]: " ++ t1 ++ txt " " ++ t2]
      /\ exists c,
          assembled_citations [mkRetrievedChunk t1 md d1; mkRetrievedChunk t2 md d2]
          = [c]).
Proof.
  intros Hne keys.
  pose proof (group_sources_entries context_chunks) as Hg.
  fold keys in Hg. unfold source_entry in Hg.
  split; [exact Hg|].
  split; [apply NoDup_first_seen|].
  split.
  { intros k. unfold keys. rewrite elem_of_first_seen, list_elem_of_fmap.
    split; intros (c & H1 & H2); exists c; auto. }
  assert (Hcits : assembled_citations context_chunks
                  = imap (fun i k =>
                            mkCitation (Z.of_nat i + 1) k.1 k.2
                              (snippet (hd [] (texts_of k context_chunks))))
                         keys).
  { unfold assembled_citations. rewrite Hg.
    change (map ?f ?l) with (f <$> l). rewrite fmap_imap. reflexivity. }
  split.
  { unfold context_parts. rewrite Hg.
    change (map ?f ?l) with (f <$> l). rewrite fmap_imap. reflexivity. }
  split; [exact Hcits|].
  split; [now rewrite Hcits, length_imap|].
  split.
  { unfold generate_answer. destruct context_chunks; [congruence|].
    now destruct (complete _ _). }
  split.
  { unfold build_prompt. cbv zeta. eexists _, _. reflexivity. }
  intros t1 t2 md d1 d2.
  set (k := (default (MStr (txt "Unknown")) (md_pdf_filename md),
             default (MStr (txt "Unknown")) (md_page md))).
  assert (Hgroup : group_sources [mkRetrievedChunk t1 md d1; mkRetrievedChunk t2 md d2]
                   = [(k, mkSourceInfo 1 [t1; t2] k.1 k.2)]).
  { unfold group_sources. cbn [fold_left].
    change (add_chunk ([], 1) (mkRetrievedChunk t1 md d1))
      with ([(k, mkSourceInfo 1 [t1] k.1 k.2)], 1 + 1).
    unfold add_chunk.
    change (chunk_key (mkRetrievedChunk t2 md d2)) with k.
    cbn [has_key existsb fst]. rewrite key_eqb_refl.
    cbn [orb append_chunk fst]. rewrite key_eqb_refl. reflexivity. }
  unfold context_parts, assembled_citations. rewrite Hgroup.
  split; [reflexivity | eexists; reflexivity].
Qed.

Lemma sources_grouped_in_first_seen_order_witness :
  four_chunks <> []
  /\ context_parts four_chunks
     = [txt "[Source 1 - Page 1]: alpha gamma"; txt "[Source 2 - Page 2]: beta";
        txt "[Source 3 - Page 1]: delta"]
  /\ length (assembled_citations four_chunks) = 3%nat.
Proof.
  split; [discriminate|].
  destruct (sources_grouped_in_first_seen_order
              (always_replies "ok") (txt "q") (txt "Default") four_chunks
              ltac:(discriminate))
    as (_ & _ & _ & Hparts & _ & Hlen & _).
  split; [rewrite Hparts; reflexivity | rewrite Hlen; reflexivity].
Defined.
(** ** Citation reconciliation ([RAGSystem.generate_answer]) *)

(** C1, at the failing input: the answer names the first assembled
    citation and has a second marker of 4301 digits.  The conversion of
    that marker by [int] raises a [ValueError], which nothing catches:
    [generate_answer] returns neither the cited citation nor the answer
    with the long marker left as it is. *)
Theorem renumbering_raises_on_overlong_marker :
  let raw_answer := txt "[Source 1] [Source " ++ repeat "1"%char 4301 ++ txt "]" in
  re_findall raw_answer = [txt "1"; repeat "1"%char 4301]
  /\ (exists c, c ∈ assembled_citations four_chunks /\ source c = digits_value (txt "1"))
  /\ generate_answer (fun _ _ => Completion raw_answer)
                     (txt "q") four_chunks (txt "Default")
     = ([(system_message, build_prompt (txt "q") (txt "Default") four_chunks)],
        Raise (ValueError
                 (txt "Exceeds the limit (4300 digits) for integer string conversion: value has 4301 digits; use sys.set_int_max_str_digits() to increase the limit"))).
Proof.
  cbv zeta. split; [vm_compute; reflexivity|]. split.
  - exists (mkCitation 1 (MStr (txt "a.pdf")) (MInt 1) (txt "alpha")).
    split; [apply list_elem_of_In; vm_compute; auto | reflexivity].
  - vm_compute. reflexivity.
Qed.

(** C5, at the failing input: the only marker of the answer has 4301
    digits, so its number is the source number of no assembled citation;
    [generate_answer] does not fall back to all citations but raises the
    [ValueError] of [int]. *)
Theorem fallback_raises_on_overlong_marker :
  let raw_answer := txt "See [Source " ++ repeat "1"%char 4301 ++ txt "]." in
  re_findall raw_answer = [repeat "1"%char 4301]
  /\ (forall c,
       c ∈ assembled_citations four_chunks ->
       source c <> digits_value (repeat "1"%char 4301))
  /\ generate_answer (fun _ _ => Completion raw_answer)
                     (txt "q") four_chunks (txt "Default")
     = ([(system_message, build_prompt (txt "q") (txt "Default") four_chunks)],
        Raise (ValueError
                 (txt "Exceeds the limit (4300 digits) for integer string conversion: value has 4301 digits; use sys.set_int_max_str_digits() to increase the limit"))).
Proof.
  cbv zeta. split; [vm_compute; reflexivity|]. split.
  - intros c Hc. apply list_elem_of_In in Hc. vm_compute in Hc.
    destruct Hc as [<- | [<- | [<- | []]]]; vm_compute; discriminate.
  - vm_compute. reflexivity.
Qed.

(** ** The similarity threshold ([RAGSystem.retrieve_relevant_chunks]) *)

(** C2: of the results of a query, given with their distances, exactly the
    ones whose distance is strictly below 0.8 are kept, in order; given
    without distances, all are kept, with no distance.  A result at
    distance 0.8 is dropped, one at 0.79 is kept, one with no distance is
    kept. *)
Theorem retrieve_keeps_below_threshold
    (rows : list (text * Metadata * float))
    (other_documents : list (list text)) (other_metadatas : list (list Metadata))
    (other_distances : list (list float)) :
  retrieve_relevant_chunks
    (mkQueryResult (map (fun r => r.1.1) rows :: other_documents)
                   (map (fun r => r.1.2) rows :: other_metadatas)
                   (Some (map (fun r => r.2) rows :: other_distances)))
  = Return (map (fun r => mkRetrievedChunk r.1.1 r.1.2 (Some r.2))
                (List.filter (fun r => PrimFloat.ltb r.2 0.8%float) rows))
  /\ (forall no_distances, no_distances = None \/ no_distances = Some [] ->
      retrieve_relevant_chunks
        (mkQueryResult (map (fun r => r.1.1) rows :: other_documents)
                       (map (fun r => r.1.2) rows :: other_metadatas)
                       no_distances)
      = Return (map (fun r => mkRetrievedChunk r.1.1 r.1.2 None) rows))
  /\ (forall doc md,
      retrieve_relevant_chunks (mkQueryResult [[doc]] [[md]] (Some [[0.8%float]]))
      = Return []
      /\ retrieve_relevant_chunks (mkQueryResult [[doc]] [[md]] (Some [[0.79%float]]))
         = Return [mkRetrievedChunk doc md (Some 0.79%float)]
      /\ retrieve_relevant_chunks (mkQueryResult [[doc]] [[md]] None)
         = Return [mkRetrievedChunk doc md None]).
Proof.
  split; [|split].
  - unfold retrieve_relevant_chunks. cbn [qr_documents].
    destruct rows as [|r rows']; [reflexivity|].
    remember (r :: rows') as rs eqn:Hrs.
    rewrite length_map.
    replace (Nat.eqb (length rs) 0) with false by (subst rs; reflexivity).
    rewrite <- (length_map (fun r => r.1.1) rs) at 1. rewrite length_map.
    erewrite (for_each_range rs
                (fun r => if PrimFloat.ltb r.2 0.8%float
                          then Some (mkRetrievedChunk r.1.1 r.1.2 (Some r.2))
                          else None)).
    + cbn. f_equal.
      apply (omap_keep_filter (fun r => PrimFloat.ltb r.2 0.8%float)
               (fun r => mkRetrievedChunk r.1.1 r.1.2 (Some r.2))).
    + intros i a Hi. unfold chunk_at, distance_at. cbn [qr_distances qr_metadatas].
      rewrite (index_lookup _ i a.2) by (now rewrite list_lookup_fmap, Hi).
      cbn. destruct (PrimFloat.ltb a.2 0.8%float); [|reflexivity].
      rewrite (index_lookup _ i a.1.1) by (now rewrite list_lookup_fmap, Hi).
      cbn. rewrite (index_lookup _ i a.1.2) by (now rewrite list_lookup_fmap, Hi).
      reflexivity.
  - intros no_distances Hno.
    unfold retrieve_relevant_chunks. cbn [qr_documents].
    destruct rows as [|r rows']; [reflexivity|].
    remember (r :: rows') as rs eqn:Hrs.
    rewrite length_map.
    replace (Nat.eqb (length rs) 0) with false by (subst rs; reflexivity).
    erewrite (for_each_range rs
                (fun r => Some (mkRetrievedChunk r.1.1 r.1.2 None))).
    + cbn. f_equal.
      clear. induction rs as [|a rs IH]; [reflexivity|]. cbn. now rewrite <- IH.
    + intros i a Hi. unfold chunk_at, distance_at. cbn [qr_distances qr_metadatas].
      assert (Hd : match no_distances with
                   | Some (d0 :: _) => d ← index d0 i; Return (Some d)
                   | _ => Return None
                   end = Return None)
        by (destruct Hno as [-> | ->]; reflexivity).
      rewrite Hd. cbn.
      rewrite (index_lookup _ i a.1.1) by (now rewrite list_lookup_fmap, Hi).
      cbn. rewrite (index_lookup _ i a.1.2) by (now rewrite list_lookup_fmap, Hi).
      reflexivity.
  - intros doc md. repeat split; reflexivity.
Qed.

(** ** Adding documents ([VectorStore.add_documents]) *)



(** ** No context ([RAGSystem.generate_answer]) *)

(** C7: with no context chunk [generate_answer] returns the fixed answer
    with no citation, and the completion service is not called. *)
Theorem generate_answer_without_chunks
    (complete : text -> text -> llm_reply) (question question_type : text) :
  generate_answer complete question [] question_type
  = ([],
     Return
       (mkAnswer
          (txt "I couldn't find relevant information in the uploaded PDFs to answer your question.")
          [])).
Proof. reflexivity. Qed.

(** ** Further properties *)

Lemma split_by_character_bounded (chunk_size : Z) (chunk : text) (pieces : list text) :
  split_by_character chunk_size chunk = Return pieces ->
  Forall (fun p => len p <= chunk_size) pieces.
Proof.
  unfold split_by_character.
  destruct (Z.leb_spec (len chunk) chunk_size) as [Hfits|Hlong].
  - intros [= <-]. now repeat constructor.
  - unfold range0.
    destruct (Z.eqb_spec chunk_size 0); [discriminate|].
    destruct (Z.ltb_spec chunk_size 0); [intros [= <-]; constructor|].
    intros [= <-]. rewrite Forall_forall. intros p Hp.
    apply list_elem_of_fmap in Hp as (i & -> & _).
    unfold slice, len. rewrite length_take. lia.
Qed.

(** The chunks are bounded: for a size of at least 1 no chunk cut from a
    text longer than the size is longer than the size. *)
Theorem chunks_no_longer_than_size (text0 : text) (chunk_size : Z) (chunks : list text) :
  1 <= chunk_size ->
  chunk_size < len text0 ->
  _split_text_into_chunks text0 chunk_size = Return chunks ->
  Forall (fun c => len c <= chunk_size) chunks.
Proof.
  intros Hsize Hlong. unfold _split_text_into_chunks.
  destruct (Z.leb_spec (len text0) chunk_size); [lia|].
  generalize (pack_sentences chunk_size (split_dot_space (replace_newlines text0))).
  intros packed. revert chunks.
  induction packed as [|c packed IH]; intros chunks.
  - intros [= <-]. constructor.
  - cbn [for_each].
    destruct (split_by_character chunk_size c) as [pieces|] eqn:Hc; [|discriminate].
    cbn. destruct (for_each _ packed) as [rest|]; [|discriminate].
    cbn. intros [= <-]. apply Forall_app. split.
    + eapply split_by_character_bounded. eassumption.
    + now apply IH.
Qed.

Lemma chunks_no_longer_than_size_witness :
  1 <= 12
  /\ Forall (fun c => len c <= 12)
       [txt "Hello world."; txt " "; txt "This is. "; txt "a test.  Yes"; txt ". "].
Proof.
  split; [lia|].
  apply (chunks_no_longer_than_size (txt "Hello world. This is. a test.  Yes") 12);
    [lia | vm_compute; reflexivity | reflexivity].
Defined.

(** The result count asked of the collection: of a collection that holds
    something, the smaller of [n_results] and what it holds, that is
    [n_results] when the collection holds at least as much and the size
    of the collection otherwise; of an empty collection [n_results]
    itself, not clamped. *)
Theorem query_count_clamped (n_results total_docs : Z) :
  (0 < total_docs -> n_results <= total_docs ->
   actual_n_results n_results total_docs = n_results)
  /\ (0 < total_docs -> total_docs < n_results ->
      actual_n_results n_results total_docs = total_docs)
  /\ (total_docs <= 0 -> actual_n_results n_results total_docs = n_results)
  /\ actual_n_results 40 3 = 3
  /\ actual_n_results 8 25 = 8
  /\ actual_n_results 25 0 = 25.
Proof.
  unfold actual_n_results.
  repeat split; try reflexivity; intros; destruct (Z.gtb_spec total_docs 0); lia.
Qed.

(** When the threshold leaves no chunk, [ask_question] gives the fixed
    answer and the completion service is not called. *)
Theorem ask_question_without_relevant_chunks
    (complete : text -> text -> llm_reply)
    (query_store : text -> Z -> outcome QueryResult)
    (question : text) (n_results : option Z) (results : QueryResult) :
  query_store question (default (classify_question_type question).2 n_results)
  = Return results ->
  retrieve_relevant_chunks results = Return [] ->
  ask_question complete query_store question n_results
  = ([], Return (mkAnswer no_information_answer [])).
Proof.
  intros Hquery Hnone. unfold ask_question.
  destruct (classify_question_type question) as [question_type recommended].
  cbn [snd] in Hquery. rewrite Hquery. cbn. now rewrite Hnone.
Qed.

Lemma ask_question_without_relevant_chunks_witness :
  ask_question
    (always_replies "unused")
    (fun _ _ =>
       Return (mkQueryResult [[txt "B"]]
                             [[mkMetadata (Some (MInt 2)) (Some (MStr (txt "doc.pdf")))]]
                             (Some [[0.85%float]])))
    (txt "What is B?") None
  = ([], Return (mkAnswer no_information_answer [])).
Proof.
  eapply ask_question_without_relevant_chunks; reflexivity.
Defined.

(** ** Worked examples *)

(** One question per category. *)
Example classify_examples :
  map classify_question_type
      [txt "Give me an OVERVIEW of chapter 2";
       txt "How do I reset the device?";
       txt "Cats versus dogs";
       txt "What is a monad?";
       txt "What is the name of the person who wrote the second chapter of it?";
       txt "Tell me more"]
  = [(txt "Summary", 40); (txt "Procedure", 40); (txt "Compare/Analyze", 30);
     (txt "Fact", 8); (txt "Default", 25); (txt "Default", 25)].
Proof. reflexivity. Qed.

(** Three results at distances 0.1, 0.85 and 0.3, the first and the third
    from page 1 of the same document, the second from page 2: the second
    is dropped by the threshold and the other two make one source. *)
Example threshold_then_grouping :
  let page1 := mkMetadata (Some (MInt 1)) (Some (MStr (txt "doc.pdf"))) in
  let page2 := mkMetadata (Some (MInt 2)) (Some (MStr (txt "doc.pdf"))) in
  let results :=
    mkQueryResult [[txt "A"; txt "B"; txt "C"]] [[page1; page2; page1]]
                  (Some [[0.1; 0.85; 0.3]%float]) in
  exists kept,
    retrieve_relevant_chunks results = Return kept
    /\ map rc_text kept = [txt "A"; txt "C"]
    /\ context_parts kept = [txt "[Source 1 - Page 1]: A C"]
    /\ map source (assembled_citations kept) = [1].
Proof. cbv zeta. eexists. repeat split; reflexivity. Qed.

(** A failure of the completion service is raised again, with the message
    chosen by its text. *)
Example completion_failure_is_raised :
  snd (generate_answer (fun _ _ => ApiError (txt "Error code: 401"))
                       (txt "q") four_chunks (txt "Default"))
  = Raise (Exception
             (txt "Authentication failed. Please check your API key. Error: Error code: 401"))
  /\ snd (generate_answer (fun _ _ => ApiError (txt "timeout"))
                          (txt "q") four_chunks (txt "Default"))
     = Raise (Exception (txt "Error calling LLM API: timeout")).
Proof. split; reflexivity. Qed.

(** * Further properties of the code *)

(** ** The chunker at its edges *)

Section ChunkerEdges.

Variable chunk_size : Z.

Lemma with_terminator_nonempty (before sentence : text) :
  before ++ sentence ++ txt ". " <> [].
Proof.
  intros E. apply app_eq_nil in E as [_ E]. apply app_eq_nil in E as [_ E].
  discriminate.
Qed.

(** The sentence loop never finishes an empty chunk, and its buffer is not
    empty once a sentence went in. *)
Lemma pack_sentence_nonempty (sentences : list text) (chunks : list text) (current : text) :
  Forall (fun c => c <> []) chunks ->
  let '(chunks', current') :=
    fold_left (pack_sentence chunk_size) sentences (chunks, current) in
  Forall (fun c => c <> []) chunks'
  /\ (current <> [] \/ sentences <> [] -> current' <> []).
Proof.
  revert chunks current.
  induction sentences as [|s rest IH]; intros chunks current Hall.
  - cbn. split; [assumption|]. intros [H | H]; congruence.
  - cbn [fold_left]. unfold pack_sentence at 2.
    destruct (_ && _) eqn:Hflush.
    + apply andb_true_iff in Hflush as [_ Hcur].
      assert (Hne : current <> []) by (destruct current; discriminate).
      specialize (IH (chunks ++ [current]) (s ++ txt ". ")).
      destruct (fold_left _ rest _) as [chunks' current'].
      destruct IH as [H1 H2].
      { apply Forall_app. split; [assumption | now repeat constructor]. }
      split; [assumption|]. intros _. apply H2. left.
      apply (with_terminator_nonempty []).
    + specialize (IH chunks (current ++ s ++ txt ". ") Hall).
      destruct (fold_left _ rest _) as [chunks' current'].
      destruct IH as [H1 H2].
      split; [assumption|]. intros _. apply H2. left.
      apply with_terminator_nonempty.
Qed.

Lemma pack_sentences_nonempty (sentences : list text) :
  sentences <> [] ->
  pack_sentences chunk_size sentences <> []
  /\ Forall (fun c => c <> []) (pack_sentences chunk_size sentences).
Proof.
  intros Hne. unfold pack_sentences.
  pose proof (pack_sentence_nonempty sentences [] [] (List.Forall_nil _)) as H.
  destruct (fold_left _ sentences _) as [chunks current].
  destruct H as [Hall Hcur]. specialize (Hcur (or_intror Hne)).
  destruct (Nat.eqb_spec (length current) 0) as [E|E].
  - destruct current; [congruence | discriminate].
  - split; [now destruct chunks|].
    apply Forall_app. split; [assumption | now repeat constructor].
Qed.

End ChunkerEdges.

(** A size of 0 is an error for every text that is not empty: the fallback
    split needs a step, and [range] refuses the step 0. *)
Theorem split_with_size_zero_raises (text0 : text) :
  text0 <> [] ->
  _split_text_into_chunks text0 0
  = Raise (ValueError (txt "range() arg 3 must not be zero")).
Proof.
  intros Hne. unfold _split_text_into_chunks.
  destruct (Z.leb_spec (len text0) 0) as [Hle|_].
  { destruct text0; [congruence | unfold len in Hle; cbn in Hle; lia]. }
  destruct (pack_sentences_nonempty 0 (split_dot_space (replace_newlines text0))
              (split_dot_space_nonempty _)) as [Hpacked Hall].
  destruct (pack_sentences 0 _) as [|c packed]; [congruence|].
  apply Forall_cons in Hall as [Hc _].
  assert (E : split_by_character 0 c
              = Raise (ValueError (txt "range() arg 3 must not be zero"))).
  { unfold split_by_character.
    destruct (Z.leb_spec (len c) 0) as [Hle|_]; [|reflexivity].
    destruct c; [congruence | unfold len in Hle; cbn in Hle; lia]. }
  cbn [for_each]. now rewrite E.
Qed.

Lemma split_with_size_zero_raises_witness :
  txt "Hello." <> []
  /\ _split_text_into_chunks (txt "Hello.") 0
     = Raise (ValueError (txt "range() arg 3 must not be zero")).
Proof.
  split; [discriminate|].
  apply (split_with_size_zero_raises (txt "Hello.")). discriminate.
Defined.

(** A negative size loses the text: whatever the text, no chunk comes
    back, and nothing is raised. *)
Theorem split_with_negative_size_returns_nothing (text0 : text) (chunk_size : Z) :
  chunk_size < 0 ->
  _split_text_into_chunks text0 chunk_size = Return [].
Proof.
  intros Hneg. unfold _split_text_into_chunks.
  destruct (Z.leb_spec (len text0) chunk_size) as [Hle|_];
    [unfold len in Hle; lia|].
  generalize (pack_sentences chunk_size (split_dot_space (replace_newlines text0))).
  intros packed.
  assert (H : exists pieces,
             for_each (split_by_character chunk_size) packed = Return pieces
             /\ concat pieces = []).
  { induction packed as [|c packed (pieces & Hrun & Hcat)].
    - exists []. split; reflexivity.
    - exists ([] :: pieces).
      assert (E : split_by_character chunk_size c = Return []).
      { unfold split_by_character.
        destruct (Z.leb_spec (len c) chunk_size) as [Hle|_];
          [unfold len in Hle; lia|].
        unfold range0.
        destruct (Z.eqb_spec chunk_size 0); [lia|].
        destruct (Z.ltb_spec chunk_size 0); [reflexivity | lia]. }
      cbn [for_each]. rewrite E, Hrun. split; [reflexivity | assumption]. }
  destruct H as (pieces & -> & Hcat). cbn. now rewrite Hcat.
Qed.

Lemma split_with_negative_size_returns_nothing_witness :
  -1 < 0 /\ _split_text_into_chunks (txt "Hello. World.") (-1) = Return [].
Proof.
  split; [lia|].
  apply (split_with_negative_size_returns_nothing (txt "Hello. World.") (-1)). lia.
Defined.

Lemma split_by_character_nonempty (chunk_size : Z) (chunk : text) (pieces : list text) :
  1 <= chunk_size -> chunk <> [] ->
  split_by_character chunk_size chunk = Return pieces ->
  Forall (fun p => p <> []) pieces.
Proof.
  intros Hsize Hne. unfold split_by_character.
  destruct (len chunk <=? chunk_size); [intros [= <-]; now repeat constructor|].
  unfold range0.
  destruct (Z.eqb_spec chunk_size 0); [lia|].
  destruct (Z.ltb_spec chunk_size 0); [lia|].
  intros [= <-]. rewrite Forall_forall. intros p Hp.
  apply list_elem_of_fmap in Hp as (i & -> & Hi).
  apply list_elem_of_fmap in Hi as (k & -> & Hk).
  apply list_elem_of_In, in_seq in Hk. unfold len in Hk.
  assert (Hlt : Z.of_nat k * chunk_size < Z.of_nat (length chunk)).
  { assert (Hk' : Z.of_nat k < (Z.of_nat (length chunk) + chunk_size - 1) / chunk_size)
      by (apply Z2Nat.inj_lt; [lia | apply Z.div_pos; lia | rewrite Nat2Z.id; lia]).
    pose proof (Z.mul_div_le (Z.of_nat (length chunk) + chunk_size - 1) chunk_size ltac:(lia)).
    nia. }
  intros E. apply (f_equal (@length ascii)) in E.
  unfold slice in E. rewrite length_take, length_drop in E. cbn in E. lia.
Qed.

(** For a size of at least 1, no chunk cut from a text longer than the
    size is empty, and there is at least one chunk. *)
Theorem chunks_are_not_empty (text0 : text) (chunk_size : Z) (chunks : list text) :
  1 <= chunk_size ->
  chunk_size < len text0 ->
  _split_text_into_chunks text0 chunk_size = Return chunks ->
  chunks <> [] /\ Forall (fun c => c <> []) chunks.
Proof.
  intros Hsize Hlong. unfold _split_text_into_chunks.
  destruct (Z.leb_spec (len text0) chunk_size); [lia|].
  destruct (pack_sentences_nonempty chunk_size
              (split_dot_space (replace_newlines text0))
              (split_dot_space_nonempty _)) as [Hpacked Hall].
  revert Hpacked Hall.
  generalize (pack_sentences chunk_size (split_dot_space (replace_newlines text0))).
  intros packed Hpacked Hall Hrun.
  assert (Hforall : forall pieces,
             for_each (split_by_character chunk_size) packed = Return pieces ->
             Forall (fun c => c <> []) (concat pieces)
             /\ (packed <> [] -> concat pieces <> [])).
  { clear Hrun Hpacked. induction packed as [|c packed IH]; intros pieces.
    - intros [= <-]. split; [constructor | congruence].
    - apply Forall_cons in Hall as [Hc Hall]. cbn [for_each].
      destruct (split_by_character chunk_size c) as [ps|] eqn:Ec; [|discriminate].
      cbn. destruct (for_each _ packed) as [rest|]; [|discriminate].
      cbn. intros [= <-].
      pose proof (split_by_character_nonempty _ _ _ Hsize Hc Ec) as Hps.
      destruct (IH Hall rest eq_refl) as [Hrest _].
      split; [cbn; apply Forall_app; now split|].
      intros _. cbn.
      destruct (split_by_character_concat chunk_size Hsize c) as (ps' & Eps & Hcat).
      rewrite Ec in Eps. injection Eps as <-.
      intros E. apply app_eq_nil in E as [E _]. rewrite E in Hcat. cbn in Hcat. congruence. }
  destruct (for_each _ packed) as [pieces|] eqn:Ef; [|discriminate].
  cbn in Hrun. injection Hrun as <-.
  destruct (Hforall pieces eq_refl) as [H1 H2]. split; [now apply H2 | assumption].
Qed.

Lemma chunks_are_not_empty_witness :
  1 <= 12
  /\ [txt "Hello world."; txt " "; txt "This is. "; txt "a test.  Yes"; txt ". "] <> []
  /\ Forall (fun c => c <> [])
       [txt "Hello world."; txt " "; txt "This is. "; txt "a test.  Yes"; txt ". "].
Proof.
  split; [lia|].
  apply (chunks_are_not_empty (txt "Hello world. This is. a test.  Yes") 12);
    [lia | vm_compute; reflexivity | reflexivity].
Defined.

(** ** The page loop ([PDFParser.parse_pdf]) *)

Import PDFPages.

Section StripFacts.

Lemma lstrip_head (s : text) (c : ascii) (rest : text) :
  lstrip s = c :: rest -> is_space c = false.
Proof.
  induction s as [|a s IH]; [discriminate|].
  cbn [lstrip]. destruct (is_space a) eqn:Ha; [exact IH|].
  now intros [= <- <-].
Qed.

Lemma lstrip_fixed (s : text) :
  (forall c rest, s = c :: rest -> is_space c = false) -> lstrip s = s.
Proof.
  destruct s as [|a s]; [reflexivity|]. intros H.
  cbn [lstrip]. now rewrite (H a s eq_refl).
Qed.

Lemma lstrip_idempotent (s : text) : lstrip (lstrip s) = lstrip s.
Proof.
  apply lstrip_fixed. intros c rest H. eapply lstrip_head. eassumption.
Qed.

(** What [lstrip] drops is white space at the front. *)
Lemma lstrip_suffix (s : text) :
  exists dropped, s = dropped ++ lstrip s /\ Forall (fun c => is_space c = true) dropped.
Proof.
  induction s as [|a s (dropped & Hs & Hall)].
  - exists []. split; [reflexivity | constructor].
  - cbn [lstrip]. destruct (is_space a) eqn:Ha.
    + exists (a :: dropped). split; [cbn; now f_equal | now constructor].
    + exists []. split; [reflexivity | constructor].
Qed.

(** A stripped text has no white space at either end. *)
Lemma strip_trimmed (s : text) :
  lstrip (strip s) = strip s /\ lstrip (rev (strip s)) = rev (strip s).
Proof.
  unfold strip. split.
  - apply lstrip_fixed. intros c rest Hrev.
    destruct (lstrip_suffix (rev (lstrip s))) as (dropped & Hs & _).
    apply (f_equal (@rev ascii)) in Hs.
    rewrite rev_involutive, rev_app_distr, Hrev in Hs.
    eapply lstrip_head. exact Hs.
  - rewrite rev_involutive. apply lstrip_idempotent.
Qed.

End StripFacts.

Section PageFacts.

Lemma split_returns (text0 : text) (chunk_size : Z) :
  1 <= chunk_size -> exists chunks, _split_text_into_chunks text0 chunk_size = Return chunks.
Proof.
  intros Hsize. unfold _split_text_into_chunks.
  destruct (len text0 <=? chunk_size); [eexists; reflexivity|].
  destruct (for_each_split_concat chunk_size Hsize
              (pack_sentences chunk_size (split_dot_space (replace_newlines text0))))
    as (pieces & -> & _).
  eexists. reflexivity.
Qed.

Variables page_number total_pages : Z.

(** The records of one page: what the loop over [enumerate(page_chunks)]
    keeps of the chunks from index [start] on. *)
Lemma page_records (page_chunks : list text) (start : nat) :
  let records :=
    omap (fun '(chunk_idx, chunk_text) =>
            if Nat.eqb (length (strip chunk_text)) 0 then None
            else Some (mkChunk (strip chunk_text) page_number
                               (Z.of_nat chunk_idx) (Some total_pages)))
         (imap (fun i c => ((start + i)%nat, c)) page_chunks) in
  Forall (fun c =>
            chunk_text c <> []
            /\ lstrip (chunk_text c) = chunk_text c
            /\ lstrip (rev (chunk_text c)) = rev (chunk_text c)
            /\ chunk_page c = page_number
            /\ Z.of_nat start <= chunk_index c
            /\ chunk_total_pages c = Some total_pages)
         records
  /\ StronglySorted (fun a b => chunk_index a < chunk_index b) records.
Proof.
  revert start. induction page_chunks as [|t rest IH]; intros start.
  - cbn. split; constructor.
  - cbn zeta. cbn [imap]. unfold compose.
    rewrite (imap_ext _ (fun i c => ((S start + i)%nat, c)) rest)
      by (intros; f_equal; lia).
    destruct (IH (S start)) as [Hall Hsorted]. cbn zeta in Hall, Hsorted.
    cbn [omap list_omap]. change (list_omap ?f ?l) with (omap f l).
    destruct (Nat.eqb_spec (length (strip t)) 0) as [E|E].
    + split; [|assumption].
      eapply Forall_impl; [exact Hall|]. cbn. intros c H.
      decompose [and] H. repeat split; try assumption. lia.
    + split.
      * constructor.
        -- cbn. destruct (strip_trimmed t) as [H1 H2].
           repeat split; try assumption; try lia.
           intros Hnil. rewrite Hnil in E. now apply E.
        -- eapply Forall_impl; [exact Hall|]. cbn. intros c H.
           decompose [and] H. repeat split; try assumption. lia.
      * constructor; [assumption|].
        eapply Forall_impl; [exact Hall|]. cbn. intros c H.
        decompose [and] H. lia.
Qed.

End PageFacts.

Lemma parse_page_records (page_text : text) (page_num total_pages : Z) :
  exists records,
    parse_page page_text page_num total_pages = Return records
    /\ Forall (fun c =>
                 chunk_text c <> []
                 /\ lstrip (chunk_text c) = chunk_text c
                 /\ lstrip (rev (chunk_text c)) = rev (chunk_text c)
                 /\ chunk_page c = page_num + 1
                 /\ 0 <= chunk_index c
                 /\ chunk_total_pages c = Some total_pages)
              records
    /\ StronglySorted (fun a b => chunk_index a < chunk_index b) records.
Proof.
  unfold parse_page.
  destruct (split_returns page_text 500 ltac:(lia)) as (page_chunks & ->).
  eexists. split; [reflexivity|].
  pose proof (page_records (page_num + 1) total_pages page_chunks 0) as H.
  cbn zeta in H. exact H.
Qed.

(** The loop over the pages from page number [start] on. *)
Lemma parse_pages_from (page_texts : list text) (start : nat) (total_pages : Z) :
  exists per_page,
    for_each
      (fun numbered : nat * outcome text =>
         page_text ← numbered.2;
         parse_page page_text (Z.of_nat numbered.1) total_pages)
      (imap (fun i extracted => ((start + i)%nat, extracted)) (map Return page_texts))
    = Return per_page
    /\ Forall (fun c =>
                 chunk_text c <> []
                 /\ lstrip (chunk_text c) = chunk_text c
                 /\ lstrip (rev (chunk_text c)) = rev (chunk_text c)
                 /\ Z.of_nat start + 1 <= chunk_page c
                    <= Z.of_nat start + Z.of_nat (length page_texts)
                 /\ 0 <= chunk_index c
                 /\ chunk_total_pages c = Some total_pages)
              (concat per_page)
    /\ StronglySorted chunk_before (concat per_page).
Proof.
  revert start. induction page_texts as [|t rest IH]; intros start.
  - exists []. cbn. repeat split; constructor.
  - cbn [map imap]. unfold compose.
    rewrite (imap_ext _ (fun i e => ((S start + i)%nat, e)) (map Return rest))
      by (intros; f_equal; lia).
    destruct (IH (S start)) as (per_page & Hrun & Hall & Hsorted).
    destruct (parse_page_records t (Z.of_nat (start + 0)) total_pages)
      as (records & Hpage & Hrec & Hidx).
    exists (records :: per_page).
    set (round := fun numbered : nat * outcome text =>
                    page_text ← numbered.2;
                    parse_page page_text (Z.of_nat numbered.1) total_pages) in *.
    assert (Hhead : round ((start + 0)%nat, Return t) = Return records) by exact Hpage.
    cbn [for_each]. rewrite Hhead, Hrun.
    split; [reflexivity|]. cbn [concat]. split.
    + apply Forall_app. split.
      * eapply Forall_impl; [exact Hrec|]. cbn. intros c H.
        decompose [and] H. repeat split; try assumption; lia.
      * eapply Forall_impl; [exact Hall|]. cbn. intros c H.
        decompose [and] H. repeat split; try assumption; lia.
    + apply StronglySorted_app_2.
      * intros a b Ha Hb. left.
        rewrite Forall_forall in Hrec, Hall.
        specialize (Hrec a Ha). specialize (Hall b Hb).
        decompose [and] Hrec. decompose [and] Hall. lia.
      * clear - Hrec Hidx. induction Hidx as [|a l Hs IHs Hfa]; [constructor|].
        apply Forall_cons in Hrec as [Ha Hl]. constructor; [now apply IHs|].
        rewrite Forall_forall in *. intros b Hb. right.
        specialize (Hl b Hb). specialize (Hfa b Hb).
        decompose [and] Ha. decompose [and] Hl. split; [congruence | assumption].
      * assumption.
Qed.

(** Every record [parse_pdf] makes of a document whose pages could be read
    has a text that is not empty and has no white space at either end, a
    page between 1 and the number of pages, an index that is not negative
    and the number of pages of the document; the records come in the order
    of pages and, within a page, of indexes, so no two records share page
    and index. *)
Theorem parsed_chunks_well_formed (page_texts : list text) :
  exists chunks,
    parse_pdf (Return (map Return page_texts)) = Return chunks
    /\ Forall (fun c =>
                 chunk_text c <> []
                 /\ lstrip (chunk_text c) = chunk_text c
                 /\ lstrip (rev (chunk_text c)) = rev (chunk_text c)
                 /\ 1 <= chunk_page c <= Z.of_nat (length page_texts)
                 /\ 0 <= chunk_index c
                 /\ chunk_total_pages c = Some (Z.of_nat (length page_texts)))
              chunks
    /\ StronglySorted chunk_before chunks.
Proof.
  destruct (parse_pages_from page_texts 0 (Z.of_nat (length page_texts)))
    as (per_page & Hrun & Hall & Hsorted).
  exists (concat per_page). unfold parse_pdf, parse_pages.
  change (Return ?x ≫= ?k) with (k x). cbv beta. rewrite length_map.
  cbn [Nat.add] in Hrun. rewrite Hrun. cbn.
  split; [reflexivity|]. split; [|assumption].
  eapply Forall_impl; [exact Hall|]. cbn. intros c H.
  decompose [and] H. repeat split; try assumption; lia.
Qed.

(** A page that cannot be read, or a reader that cannot be made, ends
    [parse_pdf] with its own exception, carrying the message of the
    first failure; no chunk of the pages before is returned. *)
Theorem parse_pdf_failure (readable : list text) (e : exception)
    (later : list (outcome text)) :
  parse_pdf (Raise e) = Raise (Exception (txt "Error parsing PDF: " ++ exception_str e))
  /\ parse_pdf (Return (map Return readable ++ Raise e :: later))
     = Raise (Exception (txt "Error parsing PDF: " ++ exception_str e)).
Proof.
  split; [reflexivity|].
  unfold parse_pdf, parse_pages.
  change (Return ?x ≫= ?k) with (k x). cbv beta.
  generalize (Z.of_nat (length (map Return readable ++ Raise e :: later))).
  intros total_pages.
  assert (H : forall start,
             for_each
               (fun numbered : nat * outcome text =>
                  page_text ← numbered.2;
                  parse_page page_text (Z.of_nat numbered.1) total_pages)
               (imap (fun i extracted => ((start + i)%nat, extracted))
                     (map Return readable ++ Raise e :: later))
             = Raise e).
  { induction readable as [|t rest IH]; intros start.
    - reflexivity.
    - cbn [map app imap]. unfold compose.
      rewrite (imap_ext _ (fun i x => ((S start + i)%nat, x)))
        by (intros; f_equal; lia).
      destruct (parse_page_records t (Z.of_nat (start + 0)) total_pages)
        as (records & Hpage & _).
      set (round := fun numbered : nat * outcome text =>
                      page_text ← numbered.2;
                      parse_page page_text (Z.of_nat numbered.1) total_pages) in *.
      assert (Hhead : round ((start + 0)%nat, Return t) = Return records) by exact Hpage.
      cbn [for_each]. now rewrite Hhead, IH. }
  specialize (H 0%nat). cbn [Nat.add] in H. now rewrite H.
Qed.

(** ** From the parser to the store ([VectorStore.add_documents]) *)

(** For a document whose pages could be read, what [add_documents] hands
    to the collection is aligned with the records of the parser: the
    [i]-th text, metadata record and identifier belong to the [i]-th
    record.  Every metadata record names the file, has a page between 1
    and the number of pages, and has the number of pages of the document
    as [total_pages]: the default 0 is never used. *)
Theorem stored_records_follow_parser
    (uuid4 : nat -> text) (page_texts : list text) (pdf_filename : text)
    (embeddings : list (list float)) :
  exists chunks call,
    parse_pdf (Return (map Return page_texts)) = Return chunks
    /\ add_documents uuid4 chunks pdf_filename (Some embeddings) = Return call
    /\ add_embeddings_arg call = embeddings
    /\ (forall i c,
         chunks !! i = Some c ->
         add_documents_arg call !! i = Some (chunk_text c)
         /\ add_metadatas_arg call !! i
            = Some (mkStoredMetadata pdf_filename (chunk_page c) (chunk_index c)
                                     (Z.of_nat (length page_texts)))
         /\ add_ids_arg call !! i = Some (uuid4 i))
    /\ length (add_documents_arg call) = length chunks
    /\ length (add_metadatas_arg call) = length chunks
    /\ length (add_ids_arg call) = length chunks
    /\ Forall (fun m =>
                 stored_pdf_filename m = pdf_filename
                 /\ 1 <= stored_page m <= Z.of_nat (length page_texts)
                 /\ stored_total_pages m = Z.of_nat (length page_texts))
              (add_metadatas_arg call).
Proof.
  destruct (parse_pages_from page_texts 0 (Z.of_nat (length page_texts)))
    as (per_page & Hrun & Hall & _).
  assert (Hparse : parse_pdf (Return (map Return page_texts)) = Return (concat per_page)).
  { unfold parse_pdf, parse_pages.
    change (Return ?x ≫= ?k) with (k x). cbv beta. rewrite length_map.
    cbn [Nat.add] in Hrun. now rewrite Hrun. }
  exists (concat per_page). eexists.
  split; [exact Hparse|]. split; [reflexivity|].
  cbn [add_embeddings_arg add_documents_arg add_metadatas_arg add_ids_arg].
  split; [reflexivity|]. split.
  { intros i c Hi.
    change (map ?f ?l) with (f <$> l).
    rewrite !list_lookup_fmap, list_lookup_imap, Hi. cbn.
    rewrite Forall_forall in Hall.
    assert (Hc : c ∈ concat per_page) by (eapply list_elem_of_lookup_2; eassumption).
    specialize (Hall c Hc). decompose [and] Hall.
    repeat split. f_equal. f_equal.
    match goal with H : chunk_total_pages c = _ |- _ => now rewrite H end. }
  rewrite !length_map, length_imap. repeat split.
  rewrite Forall_forall. intros m Hm.
  apply list_elem_of_fmap in Hm as (c & -> & Hc).
  rewrite Forall_forall in Hall. specialize (Hall c Hc).
  decompose [and] Hall. cbn.
  repeat split; try lia.
  match goal with H : chunk_total_pages c = _ |- _ => now rewrite H end.
Qed.

(** ** Keys and providers ([RAGSystem.__init__], [get_rag_system]) *)

Import RAGSetup Main.

Lemma truthy_some (v : option text) :
  truthy v = true -> exists c k, v = Some (c :: k).
Proof. destruct v as [[|c k]|]; try discriminate. intros _. now exists c, k. Qed.

Lemma truthy_none (v : option text) :
  truthy v = false -> v = None \/ v = Some [].
Proof. destruct v as [[|c k]|]; try discriminate; auto. Qed.

(** In OpenRouter mode the key is the [api_key] argument when it is given
    and not empty, and the variable OPENROUTER_API_KEY otherwise; with
    neither, construction fails.  Embeddings go to OpenAI directly, with
    the key of OPENAI_API_KEY, when that variable is set and not empty,
    and through the OpenRouter client otherwise; the models are fixed. *)
Theorem init_openrouter_keys (env : Environment) (api_key : option text) :
  (truthy api_key = false -> truthy (OPENROUTER_API_KEY env) = false ->
   init env api_key true
   = Raise (ValueError
              (txt "OpenRouter API key is required. Set OPENROUTER_API_KEY environment variable.")))
  /\ (forall key,
      (truthy api_key = true /\ api_key = Some key)
      \/ (truthy api_key = false /\ truthy (OPENROUTER_API_KEY env) = true
          /\ OPENROUTER_API_KEY env = Some key) ->
      exists rag,
        init env api_key true = Return rag
        /\ use_openrouter rag = true
        /\ client rag = openrouter_client key
        /\ llm_model rag = txt "openai/gpt-3.5-turbo"
        /\ embedding_model rag = txt "text-embedding-ada-002"
        /\ (forall openai_key,
            OPENAI_API_KEY env = Some openai_key -> openai_key <> [] ->
            embedding_client rag = openai_client openai_key)
        /\ (truthy (OPENAI_API_KEY env) = false ->
            embedding_client rag = openrouter_client key)).
Proof.
  split.
  - intros Ha He. unfold init, or_else. rewrite Ha.
    destruct (truthy_none _ He) as [-> | ->]; reflexivity.
  - intros key Hkey.
    assert (Hk : or_else api_key (OPENROUTER_API_KEY env) = Some key /\ truthy (Some key) = true).
    { unfold or_else. destruct Hkey as [[Ha ->] | (Ha & He & Heq)].
      - now rewrite Ha.
      - rewrite Ha, Heq. split; [reflexivity | now rewrite <- Heq]. }
    destruct Hk as [Hor Ht]. unfold init. rewrite Hor.
    destruct key as [|c k]; [discriminate|].
    eexists. split; [reflexivity|]. cbn.
    repeat split.
    + intros openai_key -> Hne. now destruct openai_key.
    + intros Hno. destruct (truthy_none _ Hno) as [-> | ->]; reflexivity.
Qed.

(** In direct OpenAI mode the [api_key] argument plays no part: the key is
    the variable OPENAI_API_KEY, and construction fails when that is not
    set or empty, whatever [api_key] is. *)
Theorem init_openai_ignores_api_key (env : Environment) (api_key : option text) :
  init env api_key false = init env None false
  /\ (truthy (OPENAI_API_KEY env) = false ->
      init env api_key false
      = Raise (ValueError
                 (txt "OpenAI API key is required. Set OPENAI_API_KEY environment variable.")))
  /\ (forall key,
      OPENAI_API_KEY env = Some key -> key <> [] ->
      init env api_key false
      = Return (mkRAG false (openai_client key) (txt "gpt-3.5-turbo")
                      (openai_client key) (txt "text-embedding-3-small"))).
Proof.
  split; [reflexivity|]. split.
  - intros Hno. unfold init.
    destruct (truthy_none _ Hno) as [-> | ->]; reflexivity.
  - intros key Hkey Hne. unfold init. rewrite Hkey.
    now destruct key.
Qed.

Section Provider.

Variable env : Environment.

Let forced : bool :=
  text_eqb (lower (default (txt "false") (FORCE_OPENROUTER env))) (txt "true").

(** [get_rag_system] on first use: it fails, with an [HTTPException] of
    status 500, exactly when the key it needs is missing or empty (the
    OpenRouter key when OpenRouter is forced, both keys otherwise), and
    the [ValueError] of the constructor never comes out of it.  When it
    succeeds, OpenRouter is used exactly when it is forced or there is no
    OpenAI key; an OpenAI key wins over an OpenRouter key. *)
Theorem get_rag_system_first_use :
  let usable :=
    if forced then truthy (OPENROUTER_API_KEY env)
    else truthy (OPENAI_API_KEY env) || truthy (OPENROUTER_API_KEY env) in
  (usable = false ->
   exists detail,
     get_rag_system env None = (None, Failed (HTTPException 500 detail)))
  /\ (usable = true ->
      exists rag,
        get_rag_system env None = (Some rag, Ok rag)
        /\ use_openrouter rag = forced || negb (truthy (OPENAI_API_KEY env))
        /\ client_api_key (client rag) <> [])
  /\ (forall state e, get_rag_system env None <> (state, Failed (Uncaught e))).
Proof.
  cbv zeta.
  assert (Hcases :
    (exists detail, get_rag_system env None = (None, Failed (HTTPException 500 detail))
                    /\ (if forced then truthy (OPENROUTER_API_KEY env)
                        else truthy (OPENAI_API_KEY env) || truthy (OPENROUTER_API_KEY env))
                       = false)
    \/ (exists rag, get_rag_system env None = (Some rag, Ok rag)
                    /\ use_openrouter rag = forced || negb (truthy (OPENAI_API_KEY env))
                    /\ client_api_key (client rag) <> []
                    /\ (if forced then truthy (OPENROUTER_API_KEY env)
                        else truthy (OPENAI_API_KEY env) || truthy (OPENROUTER_API_KEY env))
                       = true)).
  { unfold get_rag_system. cbv zeta. fold forced.
    destruct forced.
    - destruct (truthy (OPENROUTER_API_KEY env)) eqn:Hr.
      + right. apply truthy_some in Hr as (c & k & Hr).
        unfold init, or_else. rewrite Hr. cbn.
        eexists. repeat split. discriminate.
      + left. eexists. split; reflexivity.
    - destruct (truthy (OPENAI_API_KEY env)) eqn:Ha.
      + right. apply truthy_some in Ha as (c & k & Ha).
        unfold init. rewrite Ha. cbn.
        eexists. repeat split. discriminate.
      + destruct (truthy (OPENROUTER_API_KEY env)) eqn:Hr.
        * right. apply truthy_some in Hr as (c & k & Hr).
          unfold init, or_else. rewrite Hr. cbn.
          eexists. repeat split. discriminate.
        * left. eexists. split; reflexivity. }
  destruct Hcases as [(detail & Hg & Hu) | (rag & Hg & Huse & Hkey & Hu)].
  - split; [intros _; now exists detail|].
    split; [intros Ht; congruence|].
    intros state e. rewrite Hg. congruence.
  - split; [intros Hf; congruence|].
    split; [intros _; now exists rag|].
    intros state e. rewrite Hg. congruence.
Qed.

End Provider.

(** The system is made once: after a first successful call, every later
    call gives the same system back, whatever the environment has become;
    a failed call leaves nothing behind, so the next call tries again. *)
Theorem get_rag_system_made_once
    (env : Environment) (state : option RAG) (rag : RAG) :
  get_rag_system env None = (state, Ok rag) ->
  forall later_env, get_rag_system later_env state = (state, Ok rag).
Proof.
  intros Hfirst later_env.
  unfold get_rag_system in Hfirst. cbv zeta in Hfirst.
  match type of Hfirst with
  | match ?made with _ => _ end = _ => destruct made as [made_rag | e]
  end; [|discriminate].
  injection Hfirst as <- <-. reflexivity.
Qed.

Lemma get_rag_system_made_once_witness :
  let env := mkEnvironment None (Some (txt "sk-test")) None in
  let rag := mkRAG false (openai_client (txt "sk-test")) (txt "gpt-3.5-turbo")
                   (openai_client (txt "sk-test")) (txt "text-embedding-3-small") in
  get_rag_system env None = (Some rag, Ok rag)
  /\ get_rag_system (mkEnvironment None None None) (Some rag) = (Some rag, Ok rag).
Proof.
  cbv zeta. split; [reflexivity|].
  exact (get_rag_system_made_once
           (mkEnvironment None (Some (txt "sk-test")) None) _ _ eq_refl
           (mkEnvironment None None None)).
Defined.

(** ** The endpoints ([ask_question], [upload_pdf] of main.py) *)

Section ReplaceFacts.

Lemma starts_with_head (old : text) (a : ascii) (rest : text) :
  old <> [] -> starts_with old (a :: rest) = true ->
  a ∈ old /\ Forall (fun c => c ∈ old) (take (length old - 1) rest).
Proof.
  intros Hne Hs. apply starts_with_prefix in Hs as (after & Hs).
  destruct old as [|o old']; [congruence|].
  injection Hs as -> ->. split; [left|].
  cbn [length]. rewrite Nat.sub_succ, Nat.sub_0_r, take_app_length.
  rewrite Forall_forall. intros c Hc. now right.
Qed.

(** A character that is not in [old] is not lost by the replacement. *)
Lemma replace_from_keeps (old new : text) (c : ascii) (s : text) (skip : nat) :
  old <> [] -> c ∉ old ->
  Forall (fun x => x ∈ old) (take skip s) ->
  c ∈ s -> c ∈ replace_from old new skip s.
Proof.
  intros Hne Hc. revert skip.
  induction s as [|a rest IH]; intros skip Hskip Hin; [assumption|].
  cbn [replace_from]. destruct skip as [|k].
  - destruct (starts_with old (a :: rest)) eqn:Hs.
    + destruct (starts_with_head old a rest Hne Hs) as [Ha Hrest].
      apply elem_of_app. right. apply IH; [assumption|].
      apply elem_of_cons in Hin as [-> | Hin]; [contradiction | assumption].
    + apply elem_of_cons in Hin as [-> | Hin]; [left|].
      right. apply IH; [constructor | assumption].
  - cbn [take] in Hskip. apply Forall_cons in Hskip as [Ha Hrest].
    apply IH; [assumption|].
    apply elem_of_cons in Hin as [-> | Hin]; [contradiction | assumption].
Qed.

Lemma contains_char (c : ascii) (s : text) :
  contains [c] s = true <-> c ∈ s.
Proof.
  rewrite contains_occurs_in. unfold occurs_in. split.
  - intros (before & after & ->). set_solver.
  - intros Hin. apply list_elem_of_split in Hin as (before & after & ->).
    now exists before, after.
Qed.

End ReplaceFacts.

(** Two of the prefixes the endpoint knows never start the same name. *)
Lemma provider_prefixes_differ (p q s : text) :
  p ∈ [txt "gpt"; txt "claude"; txt "llama"; txt "gemini"] ->
  q ∈ [txt "gpt"; txt "claude"; txt "llama"; txt "gemini"] ->
  starts_with p s = true -> starts_with q s = true -> p = q.
Proof.
  intros Hp Hq Hsp Hsq.
  apply starts_with_prefix in Hsp as (a & ->).
  apply starts_with_prefix in Hsq as (b & Hsq).
  repeat (apply elem_of_cons in Hp as [-> | Hp]);
    [| | | | now apply elem_of_nil in Hp];
    (repeat (apply elem_of_cons in Hq as [-> | Hq]);
     [| | | | now apply elem_of_nil in Hq]);
    try reflexivity; discriminate.
Qed.

(** The model name sent on: nothing for a missing or empty name; the name
    as it is in direct OpenAI mode.  In OpenRouter mode the name sent
    always has a slash: a name with a slash is kept, with "claude-3.5"
    written "claude-3-5" if it occurs; a name without one gets the
    provider its first letters name ("gpt": openai, "claude": anthropic,
    "llama": meta, "gemini": google, anything else: openai) in front, and
    only a "claude" name has its "3.5" written "3-5". *)
Theorem api_model_name_has_provider (model_name : text) :
  api_model_name true None = None
  /\ api_model_name false None = None
  /\ api_model_name true (Some []) = None
  /\ (model_name <> [] ->
      api_model_name false (Some model_name) = Some model_name
      /\ exists sent,
          api_model_name true (Some model_name) = Some sent
          /\ "/"%char ∈ sent
          /\ ("/"%char ∈ model_name ->
              (occurs_in (txt "claude-3.5") model_name ->
               sent = replace (txt "claude-3.5") (txt "claude-3-5") model_name)
              /\ (~ occurs_in (txt "claude-3.5") model_name -> sent = model_name))
          /\ ("/"%char ∉ model_name ->
              (forall rest, model_name = txt "gpt" ++ rest ->
                            sent = txt "openai/" ++ model_name)
              /\ (forall rest, model_name = txt "claude" ++ rest ->
                               sent = txt "anthropic/"
                                      ++ replace (txt "3.5") (txt "3-5") model_name)
              /\ (forall rest, model_name = txt "llama" ++ rest ->
                               sent = txt "meta/" ++ model_name)
              /\ (forall rest, model_name = txt "gemini" ++ rest ->
                               sent = txt "google/" ++ model_name)
              /\ ((forall prefix rest,
                      prefix ∈ [txt "gpt"; txt "claude"; txt "llama"; txt "gemini"] ->
                      model_name <> prefix ++ rest) ->
                  sent = txt "openai/" ++ model_name)))
  /\ map (fun name => api_model_name true (Some (txt name)))
         ["claude-3.5-sonnet"; "gpt-3.5-turbo"; "anthropic/claude-3.5-sonnet";
          "openai/gpt-3.5-turbo"; "mistral-7b"; "Claude-3.5"; "claude-3.5-or-3.5";
          "llama-3.5"; "gemini-pro"]%string
     = map (fun name => Some (txt name))
           ["anthropic/claude-3-5-sonnet"; "openai/gpt-3.5-turbo";
            "anthropic/claude-3-5-sonnet"; "openai/gpt-3.5-turbo";
            "openai/mistral-7b"; "openai/Claude-3.5";
            "anthropic/claude-3-5-or-3-5"; "meta/llama-3.5";
            "google/gemini-pro"]%string.
Proof.
  repeat (split; [reflexivity|]).
  split; [|reflexivity].
  intros Hne. destruct model_name as [|c r]; [congruence|].
  split; [reflexivity|].
  unfold api_model_name. set (s := c :: r).
  destruct (contains (txt "/") s) eqn:Hslash.
  - apply (contains_char "/"%char) in Hslash.
    destruct (contains (txt "claude-3.5") s) eqn:Hclaude.
    + eexists. split; [reflexivity|]. split; [|split; [|contradiction]].
      * apply replace_from_keeps; [discriminate | | constructor | assumption].
        vm_compute. intros H.
        repeat (apply elem_of_cons in H as [H | H]; [discriminate|]).
        now apply elem_of_nil in H.
      * intros _. split; [reflexivity|].
        intros Hno. exfalso. apply Hno. now apply contains_occurs_in.
    + eexists. split; [reflexivity|]. split; [assumption|]. split; [|contradiction].
      intros _. split; [|reflexivity].
      intros Hyes. apply contains_occurs_in in Hyes.
      exfalso. apply eq_true_false_abs with (b := contains (txt "claude-3.5") (c :: r));
        assumption.
  - assert (Hprefix : forall provider renamed : text,
               "/"%char ∈ provider ++ txt "/" ++ renamed) by set_solver.
    assert (Hnoslash : "/"%char ∉ s).
    { intros Hin. apply (contains_char "/"%char) in Hin.
      apply eq_true_false_abs with (b := contains (txt "/") s); assumption. }
    assert (Hin : forall p, p ∈ [txt "gpt"; txt "claude"; txt "llama"; txt "gemini"] ->
                       forall q rest,
                         q ∈ [txt "gpt"; txt "claude"; txt "llama"; txt "gemini"] ->
                         starts_with p s = true -> s = q ++ rest -> p = q).
    { intros p Hp q rest Hq Hsp Heq.
      apply (provider_prefixes_differ p q s Hp Hq Hsp).
      apply starts_with_prefix. now exists rest. }
    assert (Hgpt : txt "gpt" ∈ [txt "gpt"; txt "claude"; txt "llama"; txt "gemini"])
      by (repeat constructor).
    assert (Hcl : txt "claude" ∈ [txt "gpt"; txt "claude"; txt "llama"; txt "gemini"])
      by (repeat constructor).
    assert (Hll : txt "llama" ∈ [txt "gpt"; txt "claude"; txt "llama"; txt "gemini"])
      by (repeat constructor).
    assert (Hgm : txt "gemini" ∈ [txt "gpt"; txt "claude"; txt "llama"; txt "gemini"])
      by (repeat constructor).
    destruct (starts_with (txt "gpt") s) eqn:Eg.
    { eexists. split; [reflexivity|]. split; [apply (Hprefix (txt "openai"))|].
      split; [contradiction|]. intros _.
      split; [reflexivity|].
      split; [intros rest Heq; now pose proof (Hin _ Hgpt _ rest Hcl Eg Heq)|].
      split; [intros rest Heq; now pose proof (Hin _ Hgpt _ rest Hll Eg Heq)|].
      split; [intros rest Heq; now pose proof (Hin _ Hgpt _ rest Hgm Eg Heq)|].
      reflexivity. }
    assert (Hnot : forall p rest, starts_with p s = false -> s <> p ++ rest).
    { intros p rest Hfalse Heq.
      assert (starts_with p s = true) by (apply starts_with_prefix; now exists rest).
      congruence. }
    destruct (starts_with (txt "claude") s) eqn:Ec.
    { eexists. split; [reflexivity|]. split; [apply (Hprefix (txt "anthropic"))|].
      split; [contradiction|]. intros _.
      split; [intros rest Heq; now destruct (Hnot _ rest Eg)|].
      split; [reflexivity|].
      split; [intros rest Heq; now pose proof (Hin _ Hcl _ rest Hll Ec Heq)|].
      split; [intros rest Heq; now pose proof (Hin _ Hcl _ rest Hgm Ec Heq)|].
      intros Hnone. apply starts_with_prefix in Ec as (rest & Heq).
      now destruct (Hnone _ rest Hcl). }
    destruct (starts_with (txt "llama") s) eqn:El.
    { eexists. split; [reflexivity|]. split; [apply (Hprefix (txt "meta"))|].
      split; [contradiction|]. intros _.
      split; [intros rest Heq; now destruct (Hnot _ rest Eg)|].
      split; [intros rest Heq; now destruct (Hnot _ rest Ec)|].
      split; [reflexivity|].
      split; [intros rest Heq; now pose proof (Hin _ Hll _ rest Hgm El Heq)|].
      intros Hnone. apply starts_with_prefix in El as (rest & Heq).
      now destruct (Hnone _ rest Hll). }
    destruct (starts_with (txt "gemini") s) eqn:Em.
    { eexists. split; [reflexivity|]. split; [apply (Hprefix (txt "google"))|].
      split; [contradiction|]. intros _.
      split; [intros rest Heq; now destruct (Hnot _ rest Eg)|].
      split; [intros rest Heq; now destruct (Hnot _ rest Ec)|].
      split; [intros rest Heq; now destruct (Hnot _ rest El)|].
      split; [reflexivity|].
      intros Hnone. apply starts_with_prefix in Em as (rest & Heq).
      now destruct (Hnone _ rest Hgm). }
    eexists. split; [reflexivity|]. split; [apply (Hprefix (txt "openai"))|].
    split; [contradiction|]. intros _.
    split; [intros rest Heq; now destruct (Hnot _ rest Eg)|].
    split; [intros rest Heq; now destruct (Hnot _ rest Ec)|].
    split; [intros rest Heq; now destruct (Hnot _ rest El)|].
    split; [intros rest Heq; now destruct (Hnot _ rest Em)|].
    reflexivity.
Qed.

Section EndpointFacts.

Variable http_exception_str : Z -> text -> text.
Variable env : Environment.
Variable save_upload : text -> outcome unit.
Variable get_embeddings : RAG -> list text -> outcome (list (list float)).
Variable uuid4 : nat -> text.
Variable collection_add : CollectionAdd -> outcome unit.
Variable get_collection_size : outcome Z.
Variable complete : RAG -> text -> text -> llm_reply.
Variable query_store : RAG -> text -> Z -> outcome QueryResult.

Lemma as_server_error_status {A : Type} (prefix : text) (r : reply A) (e : error) :
  as_server_error http_exception_str prefix r = Failed e ->
  exists detail, e = HTTPException 500 detail.
Proof.
  destruct r; [discriminate|]. cbn. intros [= <-]. eexists. reflexivity.
Qed.

(** The question endpoint never answers: [RAGSystem.ask_question] takes no
    parameter named [model_name], so the call the endpoint makes raises
    before the pipeline runs.  A missing or empty question gives status
    400, everything else status 500. *)
Theorem ask_endpoint_never_succeeds
    (rag_system : option RAG) (question model_name : option text) :
  exists state status detail,
    ask_question_endpoint http_exception_str env complete query_store
                          rag_system question model_name
    = (state, Failed (HTTPException status detail))
    /\ (truthy question = false -> status = 400 /\ state = rag_system)
    /\ (truthy question = true -> status = 500).
Proof.
  unfold ask_question_endpoint.
  destruct question as [[|c r]|].
  - eexists _, _, _. split; [reflexivity|]. split; [auto | discriminate].
  - destruct (get_rag_system env rag_system) as [state [rag | e]].
    + eexists _, _, _. split; [reflexivity|]. split; [discriminate | auto].
    + eexists _, _, _. split; [reflexivity|]. split; [discriminate | auto].
  - eexists _, _, _. split; [reflexivity|]. split; [auto | discriminate].
Qed.

(** The upload endpoint fails with status 400 only for a file name that
    does not end in ".pdf"; every other failure, a document without text
    among them, comes out with status 500. *)
Theorem upload_failure_status
    (rag_system : option RAG) (filename : text)
    (reader : outcome (list (outcome text))) (state : option RAG) (e : error) :
  upload_pdf http_exception_str env save_upload get_embeddings uuid4
             collection_add get_collection_size rag_system filename reader
  = (state, Failed e) ->
  (ends_with (txt ".pdf") filename = false
   /\ e = HTTPException 400 (txt "Only PDF files are allowed"))
  \/ (ends_with (txt ".pdf") filename = true
      /\ exists detail, e = HTTPException 500 detail).
Proof.
  unfold upload_pdf.
  destruct (ends_with (txt ".pdf") filename); cbn [negb].
  - intros H. right. split; [reflexivity|].
    destruct (_ ← backend (save_upload filename); backend (parse_pdf reader))
      as [[|first others] | e0].
    + injection H as _ <-. eexists. reflexivity.
    + destruct (get_rag_system env rag_system) as [state' got].
      injection H as _ H. eapply as_server_error_status. exact H.
    + injection H as _ <-. eexists. reflexivity.
  - intros [= _ <-]. now left.
Qed.

(** When the upload endpoint succeeds, the file name ends in ".pdf", the
    parser gave at least one record, the embedding service was asked for
    the texts of exactly these records, and the collection was given one
    text per record with the embeddings as the service returned them; the
    response counts the records. *)
Theorem upload_success
    (rag_system : option RAG) (filename : text)
    (reader : outcome (list (outcome text))) (state : option RAG)
    (response : UploadResponse) :
  upload_pdf http_exception_str env save_upload get_embeddings uuid4
             collection_add get_collection_size rag_system filename reader
  = (state, Ok response) ->
  ends_with (txt ".pdf") filename = true
  /\ exists chunks rag embeddings call,
      parse_pdf reader = Return chunks
      /\ chunks <> []
      /\ state = Some rag
      /\ get_embeddings rag (map chunk_text chunks) = Return embeddings
      /\ add_documents uuid4 chunks filename (Some embeddings) = Return call
      /\ add_documents_arg call = map chunk_text chunks
      /\ add_embeddings_arg call = embeddings
      /\ collection_add call = Return tt
      /\ upload_chunks response = Z.of_nat (length chunks)
      /\ upload_filename response = filename.
Proof.
  unfold upload_pdf.
  destruct (ends_with (txt ".pdf") filename); cbn [negb]; [|discriminate].
  intros H. split; [reflexivity|].
  destruct (save_upload filename) as [[]|]; [|discriminate].
  cbn in H.
  destruct (parse_pdf reader) as [[|first others]|] eqn:Hparse; [discriminate| |discriminate].
  cbn in H.
  destruct (get_rag_system env rag_system) as [state' [rag | e]] eqn:Hget;
    [|discriminate].
  cbn in H.
  destruct (get_embeddings rag _) as [embeddings|] eqn:Hemb; [|discriminate].
  cbn in H.
  destruct (collection_add _) as [[]|] eqn:Hadd; [|discriminate].
  cbn in H.
  destruct get_collection_size as [total|]; [|discriminate].
  cbn in H. injection H as <- <-.
  exists (first :: others), rag, embeddings. eexists.
  split; [reflexivity|]. split; [discriminate|].
  split.
  { unfold get_rag_system in Hget. destruct rag_system as [r0|].
    - now injection Hget as <- <-.
    - cbv zeta in Hget.
      match type of Hget with
      | match ?made with _ => _ end = _ => destruct made
      end; [now injection Hget as <- <- | discriminate]. }
  split; [exact Hemb|]. split; [reflexivity|].
  split; [reflexivity|]. split; [reflexivity|].
  split; [exact Hadd|]. split; reflexivity.
Qed.

End EndpointFacts.

(** ** Retrieval on any reply of the store ([RAGSystem.retrieve_relevant_chunks]) *)

Section RetrievalAnyReply.

Lemma for_each_results {A B : Type} (f : A -> outcome B) (l : list A) (found : list B) :
  for_each f l = Return found -> Forall2 (fun a b => f a = Return b) l found.
Proof.
  revert found. induction l as [|a l IH]; intros found.
  - intros [= <-]. constructor.
  - cbn [for_each]. destruct (f a) as [b|] eqn:Ha; [|discriminate].
    cbn. destruct (for_each f l) as [bs|]; [|discriminate].
    cbn. intros [= <-]. constructor; [assumption | now apply IH].
Qed.

Lemma for_each_raises {A B : Type} (f : A -> outcome B) (l : list A)
    (e0 : exception) (a0 : A) :
  (forall a e, f a = Raise e -> e = e0) ->
  a0 ∈ l -> f a0 = Raise e0 -> for_each f l = Raise e0.
Proof.
  intros Honly Hin Hraise. induction l as [|a l IH]; [now apply elem_of_nil in Hin|].
  cbn [for_each]. destruct (f a) as [b|e] eqn:Ha.
  - apply elem_of_cons in Hin as [-> | Hin]; [congruence|].
    cbn. now rewrite IH.
  - cbn. now rewrite (Honly a e Ha).
Qed.

Lemma index_raises {A : Type} (l : list A) (i : nat) (e : exception) :
  index l i = Raise e -> e = IndexError.
Proof. unfold index. destruct (l !! i); [discriminate | now intros [= <-]]. Qed.

Lemma index_returns {A : Type} (l : list A) (i : nat) (a : A) :
  index l i = Return a -> l !! i = Some a.
Proof. unfold index. destruct (l !! i); [now intros [= <-] | discriminate]. Qed.

Lemma bind_raise_inv {A B : Type} (m : outcome A) (k : A -> outcome B) (e : exception) :
  m ≫= k = Raise e -> m = Raise e \/ exists a, m = Return a /\ k a = Raise e.
Proof.
  destruct m as [a|e']; intros H; [right; now exists a|].
  left. cbn in H. now injection H as ->.
Qed.

Variable results : QueryResult.
Variable docs0 : list text.

Lemma chunk_at_raises (i : nat) (e : exception) :
  chunk_at results docs0 i = Raise e -> e = IndexError.
Proof.
  unfold chunk_at. intros H.
  apply bind_raise_inv in H as [H | (distance & _ & H)].
  - unfold distance_at in H.
    destruct (qr_distances results) as [[|d0 ?]|]; try discriminate.
    apply bind_raise_inv in H as [H | (d & _ & H)]; [|discriminate].
    eapply index_raises. eassumption.
  - destruct (passes_threshold distance); [|discriminate].
    apply bind_raise_inv in H as [H | (doc & _ & H)];
      [eapply index_raises; eassumption|].
    apply bind_raise_inv in H as [H | (mds0 & _ & H)];
      [eapply index_raises; eassumption|].
    apply bind_raise_inv in H as [H | (md & _ & H)];
      [eapply index_raises; eassumption | discriminate].
Qed.

Lemma chunk_at_kept (i : nat) (c : RetrievedChunk) :
  chunk_at results docs0 i = Return (Some c) ->
  passes_threshold (rc_distance c) = true /\ docs0 !! i = Some (rc_text c).
Proof.
  unfold chunk_at.
  destruct (distance_at results i) as [distance|]; [|discriminate]. cbn.
  destruct (passes_threshold distance) eqn:Hp; [|discriminate].
  destruct (index docs0 i) as [doc|] eqn:E1; [|discriminate]. cbn.
  destruct (index (qr_metadatas results) 0) as [mds0|]; [|discriminate]. cbn.
  destruct (index mds0 i) as [md|]; [|discriminate]. cbn.
  intros [= <-]. cbn. split; [assumption | now apply index_returns].
Qed.

(** The chunks kept of the rounds [start], [start + 1], ... of the loop. *)
Lemma kept_of_rounds (n start : nat) (found : list (option RetrievedChunk)) :
  (start + n)%nat = length docs0 ->
  Forall2 (fun i r => chunk_at results docs0 i = Return r) (seq start n) found ->
  Forall (fun c => passes_threshold (rc_distance c) = true) (omap id found)
  /\ map rc_text (omap id found) `sublist_of` drop start docs0.
Proof.
  revert start found. induction n as [|n IH]; intros start found Hlen Hall.
  - inversion Hall. subst. cbn. split; [constructor | apply sublist_nil_l].
  - cbn [seq] in Hall. inversion Hall as [|i r idxs rs Hr Hrest]. subst.
    destruct (IH (S start) rs ltac:(lia) Hrest) as [Hpass Hsub].
    destruct (lookup_lt_is_Some_2 docs0 start ltac:(lia)) as [doc Hdoc].
    rewrite (drop_S _ _ _ Hdoc).
    cbn [omap list_omap]. change (list_omap ?f ?l) with (omap f l).
    destruct r as [c|]; cbn [id].
    + destruct (chunk_at_kept _ _ Hr) as [Hp Hc].
      split; [now constructor|].
      cbn [map]. rewrite Hdoc in Hc. injection Hc as ->.
      now apply sublist_skip.
    + split; [assumption | now apply sublist_cons].
Qed.

End RetrievalAnyReply.

(** Whatever the store replies, a list that [retrieve_relevant_chunks]
    returns holds only chunks that pass the threshold (no distance, or a
    distance below 0.8), and their texts are documents of the reply, in
    the order of the reply, each document used at most once. *)
Theorem retrieved_chunks_pass_threshold
    (results : QueryResult) (kept : list RetrievedChunk) :
  retrieve_relevant_chunks results = Return kept ->
  Forall (fun c => passes_threshold (rc_distance c) = true) kept
  /\ map rc_text kept `sublist_of` hd [] (qr_documents results)
  /\ (length kept <= length (hd [] (qr_documents results)))%nat.
Proof.
  unfold retrieve_relevant_chunks.
  destruct (qr_documents results) as [|docs0 others].
  { intros [= <-]. cbn. repeat split; [constructor | constructor | lia]. }
  cbn [hd].
  destruct (Nat.eqb (length docs0) 0).
  { intros [= <-]. cbn. repeat split; [constructor | apply sublist_nil_l | lia]. }
  destruct (for_each _ _) as [found|] eqn:Hrun; [|discriminate].
  cbn. intros [= <-].
  apply for_each_results in Hrun.
  destruct (kept_of_rounds results docs0 (length docs0) 0 found eq_refl Hrun)
    as [Hpass Hsub].
  cbn [drop] in Hsub. split; [assumption|]. split; [assumption|].
  apply sublist_length in Hsub. now rewrite length_map in Hsub.
Qed.

Lemma retrieved_chunks_pass_threshold_witness :
  let md := mkMetadata (Some (MInt 1)) (Some (MStr (txt "doc.pdf"))) in
  let kept := [mkRetrievedChunk (txt "A") md (Some 0.1%float);
               mkRetrievedChunk (txt "C") md (Some 0.3%float)] in
  Forall (fun c => passes_threshold (rc_distance c) = true) kept
  /\ map rc_text kept `sublist_of` [txt "A"; txt "B"; txt "C"]
  /\ (length kept <= 3)%nat.
Proof.
  cbv zeta.
  exact (retrieved_chunks_pass_threshold
           (mkQueryResult [[txt "A"; txt "B"; txt "C"]]
              [[mkMetadata (Some (MInt 1)) (Some (MStr (txt "doc.pdf")));
                mkMetadata (Some (MInt 2)) (Some (MStr (txt "doc.pdf")));
                mkMetadata (Some (MInt 1)) (Some (MStr (txt "doc.pdf")))]]
              (Some [[0.1; 0.85; 0.3]%float]))
           _ eq_refl).
Defined.

(** A reply with fewer distances than documents is not read in part: the
    retrieval raises an [IndexError]. *)
Theorem retrieve_with_too_few_distances
    (results : QueryResult) (docs0 : list text) (other_documents : list (list text))
    (d0 : list float) (other_distances : list (list float)) :
  qr_documents results = docs0 :: other_documents ->
  qr_distances results = Some (d0 :: other_distances) ->
  (length d0 < length docs0)%nat ->
  retrieve_relevant_chunks results = Raise IndexError.
Proof.
  intros Hdocs Hdist Hshort. unfold retrieve_relevant_chunks. rewrite Hdocs.
  destruct (Nat.eqb_spec (length docs0) 0); [lia|].
  rewrite (for_each_raises (chunk_at results docs0) _ IndexError (length d0)).
  - reflexivity.
  - apply chunk_at_raises.
  - apply list_elem_of_In, in_seq. lia.
  - unfold chunk_at, distance_at. rewrite Hdist. unfold index.
    rewrite (lookup_ge_None_2 d0 (length d0)) by lia. reflexivity.
Qed.

Lemma retrieve_with_too_few_distances_witness :
  retrieve_relevant_chunks
    (mkQueryResult [[txt "A"; txt "B"]]
                   [[mkMetadata None None; mkMetadata None None]]
                   (Some [[0.1%float]]))
  = Raise IndexError.
Proof.
  eapply retrieve_with_too_few_distances; [reflexivity | reflexivity | cbn; lia].
Defined.

(** ** Answers and citations ([RAGSystem.generate_answer], [ask_question]) *)

Section AnswerFacts.

Lemma first_of_key (k : source_key) (l : list RetrievedChunk) :
  k ∈ map chunk_key l ->
  exists before first after,
    l = before ++ first :: after
    /\ chunk_key first = k
    /\ Forall (fun b => chunk_key b <> k) before
    /\ hd [] (texts_of k l) = rc_text first.
Proof.
  induction l as [|c l IH]; [intros H; now apply elem_of_nil in H|].
  cbn [map]. intros Hin.
  destruct (key_eqb (chunk_key c) k) eqn:E.
  - exists [], c, l. apply key_eqb_eq in E as Ek.
    repeat split; [assumption | constructor|].
    unfold texts_of. cbn [List.filter]. now rewrite E.
  - apply key_eqb_neq in E as Ek.
    apply elem_of_cons in Hin as [-> | Hin]; [congruence|].
    destruct (IH Hin) as (before & first & after & -> & Hk & Hbefore & Hhd).
    exists (c :: before), first, after.
    repeat split; [assumption | now constructor|].
    unfold texts_of in *. cbn [List.filter app]. now rewrite E.
Qed.

Lemma snippet_bounds (first_chunk : text) :
  len (snippet first_chunk) <= 203
  /\ (len first_chunk <= 200 -> snippet first_chunk = first_chunk)
  /\ (200 < len first_chunk -> snippet first_chunk = take 200 first_chunk ++ txt "...").
Proof.
  unfold snippet. destruct (Z.gtb_spec (len first_chunk) 200) as [Hlong|Hshort].
  - split; [|split; [lia | reflexivity]].
    unfold len. rewrite length_app, length_take.
    change (length (txt "...")) with 3%nat. lia.
  - split; [lia|]. split; [reflexivity | lia].
Qed.

Lemma first_seen_length (l : list source_key) :
  (length (first_seen l) <= length l)%nat.
Proof.
  induction l as [|k l IH]; [reflexivity|].
  cbn [first_seen length].
  pose proof (filter_length_le (fun k' => negb (key_eqb k' k)) (first_seen l)).
  lia.
Qed.

Lemma find_nothing {A : Type} (f : A -> bool) (l : list A) :
  (forall a, In a l -> f a = false) -> find f l = None.
Proof.
  induction l as [|a l IH]; [reflexivity|]. intros H.
  cbn [find]. rewrite (H a (or_introl eq_refl)). apply IH.
  intros b Hb. apply H. now right.
Qed.

Lemma assembled_citations_lookup (context_chunks : list RetrievedChunk) (i : nat)
    (c : Citation) :
  assembled_citations context_chunks !! i = Some c ->
  exists k,
    first_seen (map chunk_key context_chunks) !! i = Some k
    /\ c = mkCitation (Z.of_nat i + 1) k.1 k.2
                      (snippet (hd [] (texts_of k context_chunks))).
Proof.
  unfold assembled_citations. rewrite group_sources_entries.
  change (map ?f ?l) with (f <$> l).
  rewrite list_lookup_fmap, list_lookup_imap.
  destruct (first_seen _ !! i) as [k|]; [|discriminate].
  cbn. intros [= <-]. now exists k.
Qed.

Lemma assembled_citations_length (context_chunks : list RetrievedChunk) :
  (length (assembled_citations context_chunks) <= length context_chunks)%nat.
Proof.
  unfold assembled_citations. rewrite group_sources_entries.
  rewrite length_map, length_imap.
  pose proof (first_seen_length (map chunk_key context_chunks)) as H.
  now rewrite length_map in H.
Qed.

End AnswerFacts.

(** The snippet of a citation comes from the first chunk of its source in
    the order of retrieval: it is that chunk's text when the text has at
    most 200 characters, and its first 200 characters followed by three
    dots otherwise, so never more than 203 characters. *)
Theorem citation_snippet_of_first_chunk
    (context_chunks : list RetrievedChunk) (c : Citation) :
  c ∈ assembled_citations context_chunks ->
  exists before first after,
    context_chunks = before ++ first :: after
    /\ chunk_key first = (pdf_filename c, page c)
    /\ Forall (fun b => chunk_key b <> chunk_key first) before
    /\ len (text_snippet c) <= 203
    /\ (len (rc_text first) <= 200 -> text_snippet c = rc_text first)
    /\ (200 < len (rc_text first) ->
        text_snippet c = take 200 (rc_text first) ++ txt "...").
Proof.
  intros Hc. apply list_elem_of_lookup_1 in Hc as (i & Hi).
  apply assembled_citations_lookup in Hi as (k & Hk & ->).
  assert (Hin : k ∈ map chunk_key context_chunks)
    by (apply elem_of_first_seen; eapply list_elem_of_lookup_2; eassumption).
  destruct (first_of_key k context_chunks Hin)
    as (before & first & after & Hsplit & Hkey & Hbefore & Hhd).
  exists before, first, after. cbn [pdf_filename page text_snippet].
  rewrite Hhd, Hkey. destruct (snippet_bounds (rc_text first)) as (H1 & H2 & H3).
  repeat split; try assumption. now destruct k.
Qed.

Lemma citation_snippet_of_first_chunk_witness :
  exists before first after,
    four_chunks = before ++ first :: after
    /\ chunk_key first = (MStr (txt "a.pdf"), MInt 1)
    /\ Forall (fun b => chunk_key b <> chunk_key first) before
    /\ len (txt "alpha") <= 203
    /\ (len (rc_text first) <= 200 -> txt "alpha" = rc_text first)
    /\ (200 < len (rc_text first) -> txt "alpha" = take 200 (rc_text first) ++ txt "...").
Proof.
  apply (citation_snippet_of_first_chunk four_chunks
           (mkCitation 1 (MStr (txt "a.pdf")) (MInt 1) (txt "alpha"))).
  apply list_elem_of_In. vm_compute. auto.
Defined.

(** Whatever the completion service answers with markers of at most
    4300 digits, the citations [generate_answer] returns are numbered 1,
    2, ... without a gap, each is an assembled citation but for its
    number, and there are no more of them than assembled citations, of
    which there are no more than chunks. *)
Theorem returned_citations_numbered
    (complete : text -> text -> llm_reply) (question question_type : text)
    (context_chunks : list RetrievedChunk) (raw_answer : text) :
  context_chunks <> [] ->
  complete system_message (build_prompt question question_type context_chunks)
  = Completion raw_answer ->
  Forall (fun digits => len digits <= 4300) (re_findall raw_answer) ->
  exists result,
    snd (generate_answer complete question context_chunks question_type)
    = Return result
    /\ (forall i c, citations result !! i = Some c -> source c = Z.of_nat i + 1)
    /\ (forall c,
         c ∈ citations result ->
         exists original,
           original ∈ assembled_citations context_chunks
           /\ pdf_filename c = pdf_filename original
           /\ page c = page original
           /\ text_snippet c = text_snippet original)
    /\ (length (citations result) <= length (assembled_citations context_chunks))%nat
    /\ (length (assembled_citations context_chunks) <= length context_chunks)%nat.
Proof.
  intros Hne Hcomplete Hshort.
  unfold generate_answer. destruct context_chunks as [|c0 rest]; [congruence|].
  rewrite Hcomplete. cbn [snd].
  set (chunks := c0 :: rest) in *. set (all := assembled_citations chunks).
  pose proof (assembled_citations_length chunks) as Hlen. fold all in Hlen.
  destruct (cited_citations raw_answer all) as [|k0 kept'] eqn:Hkept.
  - rewrite reconcile_fallback; [|assumption|].
    + eexists. split; [reflexivity|].
      cbn [citations]. split; [|split; [|split; [lia | assumption]]].
      * intros i c Hi. apply assembled_citations_lookup in Hi as (k & _ & ->).
        reflexivity.
      * intros c Hc. now exists c.
    + intros digits c Hd Hc Hsrc.
      assert (Hin : c ∈ cited_citations raw_answer all)
        by (apply elem_of_cited_citations; split; [assumption | now exists digits]).
      rewrite Hkept in Hin. now apply elem_of_nil in Hin.
  - assert (Hk0 : k0 ∈ cited_citations raw_answer all) by (rewrite Hkept; left).
    apply elem_of_cited_citations in Hk0 as [Hk0 (digits & Hd & Hsrc)].
    rewrite reconcile_cited;
      [|assumption | apply ascending_assembled_citations | now exists digits, k0].
    eexists. split; [reflexivity|].
    cbn [citations].
    assert (Hsub : forall c, c ∈ cited_citations raw_answer all -> c ∈ all)
      by (intros c Hc; now apply elem_of_cited_citations in Hc as [Hc _]).
    split; [|split; [|split; [|assumption]]].
    + intros i c. rewrite list_lookup_imap.
      destruct (_ !! i); [|discriminate]. cbn. now intros [= <-].
    + intros c Hc. apply elem_of_lookup_imap_1 in Hc as (i & original & -> & Hi).
      exists original. split; [|auto].
      apply Hsub. eapply list_elem_of_lookup_2. eassumption.
    + rewrite length_imap. unfold cited_citations. apply filter_length_le.
Qed.

Lemma returned_citations_numbered_witness :
  four_chunks <> []
  /\ exists result,
      snd (generate_answer
             (always_replies "As [Source 3] says, and [source 7] too.")
             (txt "q") four_chunks (txt "Default"))
      = Return result
      /\ (forall i c, citations result !! i = Some c -> source c = Z.of_nat i + 1).
Proof.
  split; [discriminate|].
  destruct (returned_citations_numbered
              (always_replies "As [Source 3] says, and [source 7] too.")
              (txt "q") (txt "Default") four_chunks
              (txt "As [Source 3] says, and [source 7] too.")
              ltac:(discriminate) eq_refl)
    as (result & Hresult & Hnum & _).
  - vm_compute. repeat constructor; discriminate.
  - exists result. split; assumption.
Defined.

(** A failure of the completion service is not swallowed: after the one
    call, [generate_answer] raises, and the message raised ends with the
    message of the service.  The failure counts as one of authentication
    exactly when that message holds "401" or "User not found" anywhere. *)
Theorem completion_failure_raised
    (complete : text -> text -> llm_reply) (question question_type : text)
    (context_chunks : list RetrievedChunk) (error_msg : text) :
  context_chunks <> [] ->
  complete system_message (build_prompt question question_type context_chunks)
  = ApiError error_msg ->
  exists prefix,
    generate_answer complete question context_chunks question_type
    = ([(system_message, build_prompt question question_type context_chunks)],
       Raise (Exception (prefix ++ error_msg)))
    /\ (occurs_in (txt "401") error_msg \/ occurs_in (txt "User not found") error_msg ->
        prefix = txt "Authentication failed. Please check your API key. Error: ")
    /\ (~ occurs_in (txt "401") error_msg ->
        ~ occurs_in (txt "User not found") error_msg ->
        prefix = txt "Error calling LLM API: ").
Proof.
  intros Hne Hcomplete.
  unfold generate_answer. destruct context_chunks; [congruence|].
  rewrite Hcomplete. unfold llm_failure.
  destruct (contains (txt "401") error_msg) eqn:H401;
    [|destruct (contains (txt "User not found") error_msg) eqn:Huser].
  - eexists. split; [reflexivity|]. split; [reflexivity|].
    intros Hn _. exfalso. apply Hn. now apply contains_occurs_in.
  - eexists. split; [reflexivity|]. split; [reflexivity|].
    intros _ Hn. exfalso. apply Hn. now apply contains_occurs_in.
  - eexists. split; [reflexivity|]. split; [|reflexivity].
    intros [H | H]; apply contains_occurs_in in H; congruence.
Qed.

Lemma completion_failure_raised_witness :
  four_chunks <> []
  /\ exists prefix,
      generate_answer (fun _ _ => ApiError (txt "request 14018 timed out"))
                      (txt "q") four_chunks (txt "Default")
      = ([(system_message, build_prompt (txt "q") (txt "Default") four_chunks)],
         Raise (Exception (prefix ++ txt "request 14018 timed out")))
      /\ prefix = txt "Authentication failed. Please check your API key. Error: ".
Proof.
  split; [discriminate|].
  destruct (completion_failure_raised
              (fun _ _ => ApiError (txt "request 14018 timed out"))
              (txt "q") (txt "Default") four_chunks (txt "request 14018 timed out")
              ltac:(discriminate) eq_refl)
    as (prefix & Hgen & Hauth & _).
  exists prefix. split; [exact Hgen|].
  apply Hauth. left. now exists (txt "request 1"), (txt "8 timed out").
Defined.

(** Every category the classifier can give has an instruction block of
    its own in the prompt, and the count that goes with it is one of 40,
    30, 8 and 25; a question type that names no block gets the block of
    "Default". *)
Theorem classified_category_has_instructions (question question_type : text) :
  (exists block,
      (fst (classify_question_type question), block) ∈ type_instructions
      /\ specific_instruction (fst (classify_question_type question)) = block)
  /\ snd (classify_question_type question) ∈ [40; 30; 8; 25]
  /\ ((forall name block, (name, block) ∈ type_instructions -> name <> question_type) ->
      specific_instruction question_type = specific_instruction (txt "Default")).
Proof.
  split; [|split].
  - unfold classify_question_type. cbv zeta.
    repeat match goal with
           | |- context [if ?b then _ else _] => destruct b
           end;
      cbn [fst]; eexists; (split; [|reflexivity]);
      apply list_elem_of_In; cbn; auto 10.
  - unfold classify_question_type. cbv zeta.
    repeat match goal with
           | |- context [if ?b then _ else _] => destruct b
           end; cbn [snd]; set_solver.
  - intros Hnone. unfold specific_instruction. cbv zeta.
    assert (Hfind : find (fun kv : text * text => text_eqb kv.1 question_type)
                         type_instructions = None).
    { apply find_nothing. intros kv Hkv.
      destruct (text_eqb kv.1 question_type) eqn:E; [|reflexivity].
      apply text_eqb_eq in E. destruct kv as [name block]. cbn in E.
      exfalso. apply (Hnone name block); [now apply list_elem_of_In | assumption]. }
    now rewrite Hfind.
Qed.

(** A failure of the embedding service or of the store comes out of
    [ask_question] as it is, and the completion service is not called.
    The store is asked for [n_results] results when that is given, zero
    or less included, and for the count of the category otherwise. *)
Theorem ask_question_store_failure
    (complete : text -> text -> llm_reply)
    (query_store : text -> Z -> outcome QueryResult)
    (question : text) (n_results : option Z) (e : exception) :
  query_store question (default (snd (classify_question_type question)) n_results)
  = Raise e ->
  RAGSystem.ask_question complete query_store question n_results = ([], Raise e).
Proof.
  intros Hquery. unfold RAGSystem.ask_question.
  destruct (classify_question_type question) as [question_type recommended].
  cbn [snd] in Hquery. now rewrite Hquery.
Qed.

Lemma ask_question_store_failure_witness :
  RAGSystem.ask_question
    (always_replies "unused")
    (fun _ n => if n =? 0 then Raise (ValueError (txt "no results asked")) else Return (mkQueryResult [] [] None))
    (txt "What is B?") (Some 0)
  = ([], Raise (ValueError (txt "no results asked"))).
Proof.
  apply ask_question_store_failure. reflexivity.
Defined.

(** ** What counts as a citation marker *)

Section MarkerFacts.

Lemma span_app (p : ascii -> bool) (taken remaining : text) :
  Forall (fun c => p c = true) taken ->
  (forall c rest, remaining = c :: rest -> p c = false) ->
  span p (taken ++ remaining) = (taken, remaining).
Proof.
  intros Htaken Hstop. induction Htaken as [|a taken Ha _ IH].
  - destruct remaining as [|c rest]; [reflexivity|].
    cbn [app span]. now rewrite (Hstop c rest eq_refl).
  - cbn [app span]. now rewrite Ha, IH.
Qed.

Lemma starts_with_ignorecase_app (p word after : text) :
  lower word = lower p -> starts_with_ignorecase p (word ++ after) = true.
Proof.
  revert word. induction p as [|a p IH]; intros word Hlow; [reflexivity|].
  destruct word as [|b word]; [discriminate|].
  cbn [lower map] in Hlow. injection Hlow as Hb Hrest.
  cbn [app starts_with_ignorecase].
  rewrite Hb, Ascii.eqb_refl. now apply IH.
Qed.

Lemma digit_is_not_space (c : ascii) : is_digit c = true -> is_space c = false.
Proof.
  destruct c as [[|] [|] [|] [|] [|] [|] [|] [|]]; vm_compute; congruence.
Qed.

(** A text that starts with a marker is matched there. *)
Lemma match_source_at_of_shape (whole digits rest : text) :
  marker_shape whole digits -> match_source_at (whole ++ rest) = Some (whole, digits).
Proof.
  intros (word & spaces & Hwhole & Hword & Hsp & Hspaces & Hdg & Hdigits).
  assert (Hlen : length word = 7%nat).
  { apply (f_equal (@length ascii)) in Hword. unfold lower in Hword.
    now rewrite length_map in Hword. }
  assert (Hs : whole ++ rest = word ++ spaces ++ digits ++ "]"%char :: rest)
    by (rewrite Hwhole, <- !app_assoc; reflexivity).
  unfold match_source_at. rewrite Hs.
  rewrite starts_with_ignorecase_app by (now rewrite Hword).
  replace (drop 7 (word ++ spaces ++ digits ++ "]"%char :: rest))
    with (spaces ++ digits ++ "]"%char :: rest)
    by (symmetry; apply drop_app_length'; now symmetry).
  assert (Hstop1 : forall c r, digits ++ "]"%char :: rest = c :: r -> is_space c = false).
  { intros c r Hc. destruct digits as [|d ds]; [congruence|].
    injection Hc as <- _. apply Forall_cons in Hdigits as [Hd _].
    now apply digit_is_not_space. }
  assert (Hstop2 : forall c r, "]"%char :: rest = c :: r -> is_digit c = false)
    by (now intros c r [= <- _]).
  rewrite (span_app is_space spaces _ Hspaces Hstop1).
  rewrite (span_app is_digit digits _ Hdigits Hstop2).
  destruct spaces as [|s0 spaces']; [congruence|].
  destruct digits as [|d0 digits']; [congruence|].
  cbn [Ascii.eqb]. change (Ascii.eqb "]"%char "]"%char) with true. cbv iota.
  f_equal. f_equal. rewrite <- Hs.
  transitivity (take (length whole) (whole ++ rest)); [|apply take_app_length].
  f_equal. rewrite Hwhole, !length_app, Hlen. cbn. lia.
Qed.

End MarkerFacts.

(** The pattern of the citation markers matches at the start of a text
    exactly when the text starts with an opening bracket, the word
    "source" in any letter case, at least one white space character, at
    least one digit and a closing bracket; the match is that part of the
    text, and its number the digits. *)
Theorem marker_recognised_iff_shaped (s whole digits : text) :
  match_source_at s = Some (whole, digits)
  <-> marker_shape whole digits /\ exists rest, s = whole ++ rest.
Proof.
  split.
  - intros H. split; [eapply match_source_at_shape; eassumption|].
    apply match_source_at_take in H as (n & -> & _).
    exists (drop n s). now rewrite take_drop.
  - intros [Hshape (rest & ->)]. now apply match_source_at_of_shape.
Qed.

(** ** The returned answer read again ([RAGSystem.generate_answer]) *)

Import Rereading.

Section DecimalFacts.

Let step (acc : Z) (c : ascii) : Z := 10 * acc + digit_value c.

Lemma fold_digits_acc (d : Decimal.uint) (acc : positive) :
  fold_left step (txt (NilEmpty.string_of_uint d)) (Z.pos acc)
  = Z.pos (Pos.of_uint_acc d acc).
Proof.
  revert acc. induction d; intros acc; cbn [NilEmpty.string_of_uint txt list_ascii_of_string fold_left Pos.of_uint_acc];
    [reflexivity | rewrite <- IHd; f_equal; unfold step, digit_value; vm_compute code; lia ..].
Qed.

Lemma fold_digits (d : Decimal.uint) :
  fold_left step (txt (NilEmpty.string_of_uint d)) 0 = Z.of_N (Pos.of_uint d).
Proof.
  induction d; cbn [NilEmpty.string_of_uint txt list_ascii_of_string fold_left Pos.of_uint];
    [reflexivity | exact IHd | ..];
    (change (step 0 _) with (Z.pos 1) || change (step 0 _) with (Z.pos 2)
     || change (step 0 _) with (Z.pos 3) || change (step 0 _) with (Z.pos 4)
     || change (step 0 _) with (Z.pos 5) || change (step 0 _) with (Z.pos 6)
     || change (step 0 _) with (Z.pos 7) || change (step 0 _) with (Z.pos 8)
     || change (step 0 _) with (Z.pos 9));
    rewrite fold_digits_acc; reflexivity.
Qed.

Lemma digits_of_uint (d : Decimal.uint) :
  Forall (fun c => is_digit c = true) (txt (NilEmpty.string_of_uint d)).
Proof.
  induction d; cbn [NilEmpty.string_of_uint txt list_ascii_of_string];
    constructor; (reflexivity || assumption).
Qed.

(** [int(str(n))] is [n]. *)
Lemma digits_value_str_of_int (n : Z) :
  0 <= n -> digits_value (str_of_int n) = n.
Proof.
  intros Hn. unfold digits_value, str_of_int.
  destruct n as [|p|p]; [reflexivity | | lia].
  cbn [Z.to_int NilEmpty.string_of_int].
  change (fun acc c => 10 * acc + digit_value c) with step.
  rewrite fold_digits, DecimalPos.Unsigned.of_to. reflexivity.
Qed.

(** [str(n)] is made of digits, at least one. *)
Lemma str_of_int_digits (n : Z) :
  0 <= n -> str_of_int n <> [] /\ Forall (fun c => is_digit c = true) (str_of_int n).
Proof.
  intros Hn. split.
  - intros Hnil. destruct n as [|p|p]; [discriminate | | lia].
    pose proof (digits_value_str_of_int (Z.pos p) Hn) as H.
    rewrite Hnil in H. discriminate.
  - unfold str_of_int. destruct n as [|p|p]; [| | lia];
      cbn [Z.to_int NilEmpty.string_of_int]; apply digits_of_uint.
Qed.

End DecimalFacts.

Section RescanFacts.

Lemma scan_skip_app (a b : text) : scan (length a) (a ++ b) = scan 0 b.
Proof. induction a as [|c a IH]; [reflexivity | exact IH]. Qed.

Lemma lower_char_bracket (c : ascii) : lower_char c = "["%char -> c = "["%char.
Proof.
  destruct c as [[|] [|] [|] [|] [|] [|] [|] [|]]; vm_compute; congruence.
Qed.

Lemma bracket_is_no_space_or_digit (c : ascii) :
  is_space c = true \/ is_digit c = true -> c <> "["%char.
Proof. intros [H | H] ->; vm_compute in H; discriminate. Qed.

(** A marker starts with the opening bracket and has no other. *)
Lemma marker_shape_bracket (whole digits : text) :
  marker_shape whole digits ->
  exists body, whole = "["%char :: body /\ "["%char ∉ body.
Proof.
  intros (word & spaces & -> & Hword & _ & Hspaces & _ & Hdigits).
  destruct word as [|a0 [|a1 [|a2 [|a3 [|a4 [|a5 [|a6 [|a7 word]]]]]]]];
    try discriminate.
  cbn [lower map] in Hword.
  injection Hword as H0 H1 H2 H3 H4 H5 H6.
  apply lower_char_bracket in H0 as ->.
  eexists. split; [reflexivity|].
  cbn [app]. rewrite !not_elem_of_cons, !not_elem_of_app.
  repeat split;
    try (intros <-; vm_compute in H1, H2, H3, H4, H5, H6; discriminate).
  - intros Hin. rewrite Forall_forall in Hspaces.
    apply (bracket_is_no_space_or_digit "["%char); [left; now apply Hspaces | reflexivity].
  - intros Hin. rewrite Forall_forall in Hdigits.
    apply (bracket_is_no_space_or_digit "["%char); [right; now apply Hdigits | reflexivity].
  - intros Hin. apply elem_of_cons in Hin as [Hin | Hin]; [discriminate | now apply elem_of_nil in Hin].
Qed.

(** Where the pattern does not match, it does not match either after the
    text has been changed from some opening bracket on: a match holds no
    bracket but its first character. *)
Lemma match_none_before_bracket (c : ascii) (pre x y : text) :
  match_source_at (c :: pre ++ x) = None ->
  (forall a r, y = a :: r -> a = "["%char) ->
  match_source_at (c :: pre ++ y) = None.
Proof.
  intros Hnone Hy.
  destruct (match_source_at (c :: pre ++ y)) as [[whole digits]|] eqn:E; [|reflexivity].
  exfalso.
  pose proof (match_source_at_shape _ _ _ E) as Hshape.
  destruct (marker_shape_bracket _ _ Hshape) as (body & Hwhole & Hbody).
  apply match_source_at_take in E as (n & Htake & Hn).
  destruct n as [|m]; [lia|]. cbn [take] in Htake.
  rewrite Hwhole in Htake. injection Htake as Hc Hb.
  rewrite take_app in Hb.
  destruct (take (m - length pre) y) as [|a r] eqn:Ey.
  - rewrite app_nil_r in Hb.
    assert (Hs : c :: pre ++ x = whole ++ (drop m pre ++ x)).
    { rewrite Hwhole, Hb, <- Hc. cbn [app]. f_equal.
      now rewrite app_assoc, take_drop. }
    rewrite Hs, (match_source_at_of_shape _ _ _ Hshape) in Hnone. discriminate.
  - destruct y as [|a' r']; [now rewrite take_nil in Ey|].
    destruct (m - length pre)%nat; [discriminate|].
    cbn [take] in Ey. injection Ey as <- _.
    rewrite (Hy a' r' eq_refl) in Hb.
    apply Hbody. rewrite Hb. apply elem_of_app. right. left.
Qed.

(** A text that starts with a marker is scanned as that marker and then
    the rest. *)
Lemma scan_marker_first (whole digits rest : text) :
  marker_shape whole digits ->
  scan 0 (whole ++ rest) = Marker whole digits :: scan 0 rest.
Proof.
  intros Hshape.
  pose proof (match_source_at_of_shape whole digits rest Hshape) as E.
  destruct (marker_shape_bracket _ _ Hshape) as (body & Hwhole & _).
  rewrite Hwhole in E |- *. cbn [app scan] in E |- *. rewrite E.
  f_equal.
  replace (length ("["%char :: body) - 1)%nat with (length body)
    by (cbn [length]; lia).
  apply scan_skip_app.
Qed.

Variable kept : list Citation.

Lemma retoken_text (t : token) : renumbered_token kept t = token_text (retoken kept t).
Proof.
  destruct t as [c | whole digits]; [reflexivity|].
  cbn [renumbered_token retoken]. now destruct (position_of _ kept).
Qed.

Lemma retoken_marker (whole digits : text) :
  marker_shape whole digits ->
  exists whole' digits',
    retoken kept (Marker whole digits) = Marker whole' digits'
    /\ marker_shape whole' digits'.
Proof.
  intros Hshape. cbn [retoken].
  destruct (position_of _ kept) as [i|]; [|now exists whole, digits].
  eexists _, _. split; [reflexivity|].
  destruct (str_of_int_digits (Z.of_nat i + 1)) as [Hne Hdigits]; [lia|].
  exists (txt "[Source"), [sp].
  split; [reflexivity|]. split; [reflexivity|].
  split; [discriminate|]. split; [now repeat constructor|].
  split; assumption.
Qed.

(** The text before the first marker is not touched by the renumbering,
    and what follows it starts with a bracket. *)
Lemma rewritten_start (toks : list token) :
  (forall whole digits, Marker whole digits ∈ toks -> marker_shape whole digits) ->
  exists pre x y,
    concat (map token_text toks) = pre ++ x
    /\ concat (map token_text (map (retoken kept) toks)) = pre ++ y
    /\ (forall a r, y = a :: r -> a = "["%char).
Proof.
  induction toks as [|t toks IH]; intros Hshapes.
  - exists [], [], []. repeat split. discriminate.
  - destruct t as [c | whole digits].
    + destruct IH as (pre & x & y & Hx & Hy & Hstart).
      { intros w d Hin. apply Hshapes. now right. }
      exists (c :: pre), x, y. cbn [map concat token_text retoken app].
      now rewrite Hx, Hy.
    + destruct (retoken_marker whole digits) as (w' & d' & Hre & Hshape').
      { apply Hshapes. left. }
      destruct (marker_shape_bracket _ _ Hshape') as (body & Hw' & _).
      eexists [], _, _. cbn [map concat app]. rewrite Hre. cbn [token_text].
      split; [reflexivity|]. split; [reflexivity|].
      rewrite Hw'. cbn [app]. now intros a r [= <- _].
Qed.

(** The scan of the rewritten answer finds the rewritten tokens. *)
Lemma scan_rewritten (s : text) (skip : nat) :
  scan 0 (concat (map token_text (map (retoken kept) (scan skip s))))
  = map (retoken kept) (scan skip s).
Proof.
  revert skip. induction s as [|c rest IH]; intros skip.
  - now destruct skip.
  - cbn [scan]. destruct skip as [|k]; [|apply IH].
    destruct (match_source_at (c :: rest)) as [[whole digits]|] eqn:E.
    + cbn [map concat].
      destruct (retoken_marker whole digits (match_source_at_shape _ _ _ E))
        as (w' & d' & -> & Hshape').
      cbn [token_text]. rewrite (scan_marker_first _ _ _ Hshape'). f_equal. apply IH.
    + cbn [map concat retoken token_text app].
      destruct (rewritten_start (scan 0 rest)) as (pre & x & y & Hx & Hy & Hstart).
      { intros w d. apply scan_marker_shape. }
      rewrite scan_covers in Hx. change (drop 0 rest) with rest in Hx.
      rewrite Hx in E. rewrite Hy at 1.
      cbn [scan]. rewrite (match_none_before_bracket c pre x y E Hstart).
      rewrite <- Hy. f_equal. apply IH.
Qed.

(** The numbers the pattern finds in the rewritten answer. *)
Lemma re_findall_renumbered (raw : text) :
  re_findall (concat (map (renumbered_token kept) (scan 0 raw)))
  = map (fun digits =>
           match position_of (digits_value digits) kept with
           | Some i => str_of_int (Z.of_nat i + 1)
           | None => digits
           end)
        (re_findall raw).
Proof.
  unfold re_findall at 1.
  rewrite (map_ext _ _ retoken_text), <- map_map, scan_rewritten.
  unfold re_findall. induction (scan 0 raw) as [|t toks IH]; [reflexivity|].
  destruct t as [c | whole digits]; [exact IH|].
  cbn [map retoken].
  destruct (position_of (digits_value digits) kept) eqn:Hpos;
    cbn [omap list_omap map]; rewrite Hpos; f_equal; exact IH.
Qed.

End RescanFacts.

Lemma position_of_some (n : Z) (l : list Citation) (i : nat) :
  position_of n l = Some i -> exists c, l !! i = Some c /\ source c = n.
Proof.
  revert i. induction l as [|a l IH]; intros i; [discriminate|].
  cbn [position_of]. destruct (Z.eqb_spec (source a) n) as [Heq|Hne].
  - intros [= <-]. now exists a.
  - destruct (position_of n l) as [j|]; [|discriminate].
    cbn. intros [= <-]. destruct (IH j eq_refl) as (c & Hc & Hsrc). now exists c.
Qed.

(** When no marker of the completion's answer has more than 4300 digits
    and the returned answer is read again with the pattern of the markers,
    its markers are those of the answer of the completion service, one
    for one and in the same order.  A marker that named an
    assembled citation now names, by its new number, the returned citation
    of the same document, page and snippet; a marker that named no
    assembled citation is unchanged and names no returned citation
    either.  Every returned citation is named by some marker of the
    returned answer. *)
Theorem returned_markers_name_returned_citations
    (complete : text -> text -> llm_reply) (question question_type : text)
    (context_chunks : list RetrievedChunk) (raw_answer : text) :
  complete system_message (build_prompt question question_type context_chunks)
  = Completion raw_answer ->
  Forall (fun digits => len digits <= 4300) (re_findall raw_answer) ->
  (exists digits c,
      digits ∈ re_findall raw_answer
      /\ c ∈ assembled_citations context_chunks
      /\ source c = digits_value digits) ->
  exists result,
    snd (generate_answer complete question context_chunks question_type)
    = Return result
    /\ (forall c,
         c ∈ citations result ->
         exists digits,
           digits ∈ re_findall (answer result) /\ digits_value digits = source c)
    /\ length (re_findall (answer result)) = length (re_findall raw_answer)
    /\ (forall i digits',
         re_findall (answer result) !! i = Some digits' ->
         exists digits,
           re_findall raw_answer !! i = Some digits
           /\ ((exists original returned,
                  original ∈ assembled_citations context_chunks
                  /\ source original = digits_value digits
                  /\ returned ∈ citations result
                  /\ source returned = digits_value digits'
                  /\ pdf_filename returned = pdf_filename original
                  /\ page returned = page original
                  /\ text_snippet returned = text_snippet original)
               \/ (digits' = digits
                   /\ (forall c,
                        c ∈ assembled_citations context_chunks ->
                        source c <> digits_value digits)
                   /\ (forall c,
                        c ∈ citations result -> source c <> digits_value digits')))).
Proof.
  intros Hcomplete Hshort Hcited.
  unfold generate_answer. destruct context_chunks as [|c0 rest].
  { destruct Hcited as (d & c & _ & Hc & _). now apply elem_of_nil in Hc. }
  rewrite Hcomplete. cbn [snd].
  set (chunks := c0 :: rest) in *. set (all := assembled_citations chunks) in *.
  rewrite (reconcile_cited raw_answer all Hshort
                           (ascending_assembled_citations chunks) Hcited).
  set (kept := cited_citations raw_answer all).
  eexists. split; [reflexivity|]. cbn [answer citations].
  rewrite re_findall_renumbered.
  assert (Hasc : ascending kept) by apply ascending_filter, ascending_assembled_citations.
  assert (Hnd : NoDup (map source kept)) by now apply ascending_sources_NoDup.
  split; [|split].
  - intros c' Hc'. apply elem_of_lookup_imap_1 in Hc' as (j & c & -> & Hj).
    assert (Hc : c ∈ kept) by (eapply list_elem_of_lookup_2; eassumption).
    apply elem_of_cited_citations in Hc as [_ (digits & Hd & Hsrc)].
    exists (str_of_int (Z.of_nat j + 1)). split.
    + apply list_elem_of_fmap. exists digits. split; [|assumption].
      now rewrite Hsrc, (position_of_lookup kept j c Hnd Hj).
    + cbn [set_source source]. apply digits_value_str_of_int. lia.
  - apply length_map.
  - intros i digits' Hi. rewrite list_lookup_fmap in Hi.
    destruct (re_findall raw_answer !! i) as [digits|] eqn:Hraw; [|discriminate].
    cbn in Hi. injection Hi as <-. exists digits. split; [reflexivity|].
    assert (Hd : digits ∈ re_findall raw_answer)
      by (eapply list_elem_of_lookup_2; eassumption).
    destruct (position_of (digits_value digits) kept) as [j|] eqn:Hpos.
    + left. apply position_of_some in Hpos as (c & Hj & Hsrc).
      exists c, (set_source c (Z.of_nat j + 1)).
      assert (Hc : c ∈ kept) by (eapply list_elem_of_lookup_2; eassumption).
      apply elem_of_cited_citations in Hc as [Hall _].
      split; [exact Hall|]. split; [exact Hsrc|].
      split; [apply elem_of_lookup_imap; now exists j, c|].
      split; [|now repeat split].
      cbn [set_source source]. symmetry. apply digits_value_str_of_int. lia.
    + right. split; [reflexivity|].
      assert (Hnone : forall c, c ∈ all -> source c <> digits_value digits).
      { intros c Hc Hsrc.
        assert (Hk : c ∈ kept)
          by (apply elem_of_cited_citations; split; [assumption | now exists digits]).
        apply list_elem_of_lookup_1 in Hk as (j & Hj).
        rewrite <- Hsrc, (position_of_lookup kept j c Hnd Hj) in Hpos. discriminate. }
      split; [exact Hnone|].
      intros c' Hc' Hsrc'. apply elem_of_lookup_imap_1 in Hc' as (j & c & -> & Hj).
      cbn [set_source source] in Hsrc'.
      assert (Hlt : (j < length all)%nat).
      { apply lookup_lt_Some in Hj.
        pose proof (filter_length_le
                      (fun c => existsb (fun digits => digits_value digits =? source c)
                                        (re_findall raw_answer)) all) as Hle.
        fold (cited_citations raw_answer all) in Hle. fold kept in Hle. lia. }
      destruct (lookup_lt_is_Some_2 all j Hlt) as [c1 Hc1].
      pose proof Hc1 as Hk. apply assembled_citations_lookup in Hk as (k & _ & Heq).
      apply (Hnone c1); [eapply list_elem_of_lookup_2; eassumption|].
      rewrite Heq. cbn [source]. exact Hsrc'.
Qed.

Lemma returned_markers_name_returned_citations_witness :
  exists result,
    snd (generate_answer
           (always_replies "See [source  3] and [Source 1], [Source 9].")
           (txt "q") four_chunks (txt "Default"))
    = Return result
    /\ length (re_findall (answer result))
       = length (re_findall (txt "See [source  3] and [Source 1], [Source 9].")).
Proof.
  destruct (returned_markers_name_returned_citations
              (always_replies "See [source  3] and [Source 1], [Source 9].")
              (txt "q") (txt "Default") four_chunks
              (txt "See [source  3] and [Source 1], [Source 9].")
              eq_refl)
    as (result & Hresult & _ & Hlen & _).
  - vm_compute. repeat constructor; discriminate.
  - exists (txt "1"), (mkCitation 1 (MStr (txt "a.pdf")) (MInt 1) (txt "alpha")).
    split; [|split; [|reflexivity]];
      apply list_elem_of_In; vm_compute; auto 10.
  - now exists result.
Defined.


(** ** Citation reconciliation when every marker can be converted *)

(** When no marker of the answer has more than 4300 digits and some
    marker has the source number of an assembled citation,
    [generate_answer] returns the citations so named, in ascending order
    of their original numbers, renumbered 1, 2, ... in that order; a
    marker naming the kept citation at place [i] is rewritten to the
    marker of [i + 1], the same at every occurrence and different for
    different originals, and a marker whose number is that of no assembled
    citation, like the text around the markers, is left as it is. *)
Theorem cited_sources_renumbered
    (complete : text -> text -> llm_reply) (question question_type : text)
    (context_chunks : list RetrievedChunk) (raw_answer : text) :
  context_chunks <> [] ->
  complete system_message (build_prompt question question_type context_chunks)
  = Completion raw_answer ->
  Forall (fun digits => len digits <= 4300) (re_findall raw_answer) ->
  (exists digits c,
      digits ∈ re_findall raw_answer
      /\ c ∈ assembled_citations context_chunks
      /\ source c = digits_value digits) ->
  let all_citations := assembled_citations context_chunks in
  let kept := cited_citations raw_answer all_citations in
  generate_answer complete question context_chunks question_type
  = ([(system_message, build_prompt question question_type context_chunks)],
     Return
       (mkAnswer
          (concat (map (renumbered_token kept) (scan 0 raw_answer)))
          (imap (fun i c => set_source c (Z.of_nat i + 1)) kept)))
  /\ kept <> []
  /\ (forall c,
      c ∈ kept
      <-> c ∈ all_citations
          /\ exists digits,
              digits ∈ re_findall raw_answer /\ digits_value digits = source c)
  /\ ascending kept
  /\ (forall i j ci cj,
      kept !! i = Some ci -> kept !! j = Some cj ->
      (source ci < source cj <-> (i < j)%nat))
  /\ (forall i c, kept !! i = Some c -> position_of (source c) kept = Some i)
  /\ (forall n,
      (forall c, c ∈ all_citations -> source c <> n) -> position_of n kept = None)
  /\ concat (map token_text (scan 0 raw_answer)) = raw_answer
  /\ (forall whole digits,
      Marker whole digits ∈ scan 0 raw_answer -> marker_shape whole digits).
Proof.
  intros Hne Hcomplete Hshort Hcited all_citations kept.
  pose proof (ascending_assembled_citations context_chunks) as Hall.
  fold all_citations in Hall.
  assert (Hkept : ascending kept) by now apply ascending_filter.
  split.
  { unfold generate_answer. destruct context_chunks; [congruence|].
    rewrite Hcomplete. fold all_citations.
    now rewrite (reconcile_cited raw_answer all_citations Hshort Hall Hcited). }
  split.
  { destruct Hcited as (digits & c & Hd & Hc & Hsrc).
    assert (Hin : c ∈ kept)
      by (apply elem_of_cited_citations; split; [assumption | exists digits; auto]).
    intros Hnil. rewrite Hnil in Hin. now apply elem_of_nil in Hin. }
  split; [intros c; apply elem_of_cited_citations|].
  split; [exact Hkept|].
  split.
  { intros i j ci cj Hi Hj. split.
    - intros Hlt. destruct (Nat.lt_trichotomy i j) as [H | [-> | H]]; [assumption|..].
      + rewrite Hi in Hj. injection Hj as ->. lia.
      + pose proof (ascending_lookup kept j i cj ci Hkept Hj Hi H). lia.
    - apply (ascending_lookup kept i j ci cj Hkept Hi Hj). }
  split.
  { intros i c. apply position_of_lookup. now apply ascending_sources_NoDup. }
  split.
  { intros n Hn. apply position_of_absent. intros Hin.
    apply list_elem_of_fmap in Hin as (c & -> & Hc).
    apply elem_of_cited_citations in Hc as [Hc _]. now apply (Hn c). }
  split; [apply (scan_covers raw_answer 0)|].
  intros whole digits. apply scan_marker_shape.
Qed.

Lemma cited_sources_renumbered_witness :
  four_chunks <> []
  /\ snd (generate_answer
            (always_replies "See [source  3] and [Source 1], [Source 9].")
            (txt "q") four_chunks (txt "Default"))
     = Return
         (mkAnswer
            (txt "See [Source 2] and [Source 1], [Source 9].")
            [mkCitation 1 (MStr (txt "a.pdf")) (MInt 1) (txt "alpha");
             mkCitation 2 (MStr (txt "b.pdf")) (MInt 1) (txt "delta")]).
Proof.
  split; [discriminate|].
  destruct (cited_sources_renumbered
              (always_replies "See [source  3] and [Source 1], [Source 9].")
              (txt "q") (txt "Default") four_chunks
              (txt "See [source  3] and [Source 1], [Source 9].")
              ltac:(discriminate) eq_refl)
    as [Hgen _].
  - vm_compute. repeat constructor; discriminate.
  - exists (txt "1"), (mkCitation 1 (MStr (txt "a.pdf")) (MInt 1) (txt "alpha")).
    split; [|split; [|reflexivity]];
      apply list_elem_of_In; vm_compute; auto 10.
  - rewrite Hgen. reflexivity.
Defined.

(** When no marker of the answer has more than 4300 digits and none
    carries the source number of an assembled citation, [generate_answer]
    returns the answer as the completion service gave it and all assembled
    citations as they were assembled; nothing is raised. *)
Theorem fallback_keeps_all_citations
    (complete : text -> text -> llm_reply) (question question_type : text)
    (context_chunks : list RetrievedChunk) (raw_answer : text) :
  context_chunks <> [] ->
  complete system_message (build_prompt question question_type context_chunks)
  = Completion raw_answer ->
  Forall (fun digits => len digits <= 4300) (re_findall raw_answer) ->
  (forall digits c,
      digits ∈ re_findall raw_answer ->
      c ∈ assembled_citations context_chunks ->
      source c <> digits_value digits) ->
  generate_answer complete question context_chunks question_type
  = ([(system_message, build_prompt question question_type context_chunks)],
     Return (mkAnswer raw_answer (assembled_citations context_chunks))).
Proof.
  intros Hne Hcomplete Hshort Hnone.
  unfold generate_answer. destruct context_chunks; [congruence|].
  rewrite Hcomplete. now rewrite reconcile_fallback.
Qed.

Lemma fallback_keeps_all_citations_witness :
  four_chunks <> []
  /\ snd (generate_answer (always_replies "See [Source 9].")
                          (txt "q") four_chunks (txt "Default"))
     = Return
         (mkAnswer
            (txt "See [Source 9].")
            [mkCitation 1 (MStr (txt "a.pdf")) (MInt 1) (txt "alpha");
             mkCitation 2 (MStr (txt "a.pdf")) (MInt 2) (txt "beta");
             mkCitation 3 (MStr (txt "b.pdf")) (MInt 1) (txt "delta")]).
Proof.
  split; [discriminate|].
  rewrite (fallback_keeps_all_citations
             (always_replies "See [Source 9].")
             (txt "q") (txt "Default") four_chunks (txt "See [Source 9].")
             ltac:(discriminate) eq_refl); [reflexivity | |].
  { vm_compute. repeat constructor; discriminate. }
  intros digits c Hd Hc.
  apply list_elem_of_In in Hd, Hc.
  vm_compute in Hd. vm_compute in Hc.
  destruct Hd as [<- | []].
  destruct Hc as [<- | [<- | [<- | []]]]; discriminate.
Defined.

(** ** Markers too long for [int] *)




(** ** From the question to the query of the store *)

(** When the size of the retrieval is left to the classifier and the
    collection holds something, the collection is asked once, with the
    first embedding the service returned for the question, no filter, and
    a result count that is at most 40 and at most what the collection
    holds. *)
Theorem auto_sized_query_is_bounded
    (get_embeddings : list text -> outcome (list (list float)))
    (collection_count : Z)
    (collection_query : VectorQuery.CollectionQuery -> outcome QueryResult)
    (question : text) (embedding : list float) (more : list (list float)) :
  0 < collection_count ->
  get_embeddings [question] = Return (embedding :: more) ->
  exists asked,
    query_store get_embeddings collection_count collection_query question
                (snd (classify_question_type question))
    = collection_query asked
    /\ VectorQuery.query_embeddings_arg asked = [embedding]
    /\ VectorQuery.where_arg asked = None
    /\ 1 <= VectorQuery.n_results_arg asked <= 40
    /\ VectorQuery.n_results_arg asked <= collection_count.
Proof.
  intros Hcount Hemb. unfold query_store. rewrite Hemb. cbn.
  eexists. split; [reflexivity|]. cbn.
  split; [reflexivity|]. split; [reflexivity|].
  unfold actual_n_results.
  destruct (Z.gtb_spec collection_count 0); [|lia].
  assert (Hn : snd (classify_question_type question) ∈ [40; 30; 8; 25]).
  { unfold classify_question_type. cbv zeta.
    repeat match goal with
           | |- context [if ?b then _ else _] => destruct b
           end; cbn [snd]; set_solver. }
  repeat (apply elem_of_cons in Hn as [-> | Hn]; [lia|]).
  now apply elem_of_nil in Hn.
Qed.

Lemma auto_sized_query_is_bounded_witness :
  0 < 3
  /\ exists asked,
      query_store (fun _ => Return [[0.5%float]]) 3
                  (fun _ => Return (mkQueryResult [] [] None))
                  (txt "Summarize the steps")
                  (snd (classify_question_type (txt "Summarize the steps")))
      = Return (mkQueryResult [] [] None)
      /\ VectorQuery.n_results_arg asked <= 3.
Proof.
  split; [lia|].
  destruct (auto_sized_query_is_bounded
              (fun _ => Return [[0.5%float]]) 3
              (fun _ => Return (mkQueryResult [] [] None))
              (txt "Summarize the steps") [0.5%float] []
              ltac:(lia) eq_refl)
    as (asked & Hq & _ & _ & _ & Hle).
  exists asked. split; assumption.
Defined.

(** ** The upload endpoint at sample inputs *)

Lemma upload_failure_status_witness :
  let outcome_of_upload :=
    upload_pdf (fun _ detail => detail) (mkEnvironment None None None)
               (fun _ => Return tt) (fun _ _ => Return []) (fun _ => txt "id")
               (fun _ => Return tt) (Return 0)
               None (txt "blank.pdf") (Return [Return (txt "   ")]) in
  outcome_of_upload
  = (None,
     Failed (HTTPException 500
               (txt "Error processing PDF: Could not extract text from PDF")))
  /\ ((ends_with (txt ".pdf") (txt "blank.pdf") = false
       /\ HTTPException 500 (txt "Error processing PDF: Could not extract text from PDF")
          = HTTPException 400 (txt "Only PDF files are allowed"))
      \/ (ends_with (txt ".pdf") (txt "blank.pdf") = true
          /\ exists detail,
              HTTPException 500 (txt "Error processing PDF: Could not extract text from PDF")
              = HTTPException 500 detail)).
Proof.
  cbv zeta. split; [reflexivity|].
  exact (upload_failure_status
           (fun _ detail => detail) (mkEnvironment None None None)
           (fun _ => Return tt) (fun _ _ => Return []) (fun _ => txt "id")
           (fun _ => Return tt) (Return 0)
           None (txt "blank.pdf") (Return [Return (txt "   ")]) _ _ eq_refl).
Defined.

Lemma upload_success_witness :
  ends_with (txt ".pdf") (txt "notes.pdf") = true
  /\ exists chunks rag embeddings call,
      parse_pdf (Return [Return (txt "Some notes.")]) = Return chunks
      /\ chunks <> []
      /\ Some (mkRAG false (openai_client (txt "sk-test")) (txt "gpt-3.5-turbo")
                     (openai_client (txt "sk-test")) (txt "text-embedding-3-small"))
         = Some rag
      /\ Return [[0.5%float]] = Return embeddings
      /\ add_documents (fun _ => txt "id") chunks (txt "notes.pdf") (Some embeddings)
         = Return call
      /\ add_documents_arg call = map chunk_text chunks
      /\ add_embeddings_arg call = embeddings
      /\ Return tt = Return tt
      /\ 1 = Z.of_nat (length chunks)
      /\ txt "notes.pdf" = txt "notes.pdf".
Proof.
  exact (upload_success
           (fun _ detail => detail) (mkEnvironment None (Some (txt "sk-test")) None)
           (fun _ => Return tt) (fun _ _ => Return [[0.5%float]]) (fun _ => txt "id")
           (fun _ => Return tt) (Return 1)
           None (txt "notes.pdf") (Return [Return (txt "Some notes.")])
           _ (mkUploadResponse (txt "success")
                (txt "PDF uploaded and processed successfully")
                (txt "notes.pdf") 1 1)
           eq_refl).
Defined.
